(** * augment2api: the credential pool manager

    A shallow embedding of [pkg/token/manager.go] (request and cooldown
    status tracking, the selection algorithm, the retry/switch
    controller), of the concurrency middleware and of the tenant endpoint
    validator, together with the properties the specification states
    about them.

    Conventions.
    - Go's [(value, err)] results are values of [result]; [int] and
      [time.Duration] are 64-bit integers carried in [Z].
    - One call of an exported function is evaluated at one clock reading
      [now]; the clock is an input of the model.
    - Everything outside the process (the Redis store, the upstream
      service, the random and uuid sources) lives in [World]; every
      command sent to the store, every log line and every mutex
      operation is appended to [trace]. *)

From stdpp Require Import base option list gmap strings pretty.
From Stdlib Require Import ZArith Lia Ascii String.

Open Scope string_scope.

(** ** Go vocabulary *)

Inductive result (A : Type) : Type :=
| Ok (a : A)
| Err (e : string).
Arguments Ok {A} a.
Arguments Err {A} e.

Definition is_ok {A} (r : result A) : bool :=
  match r with Ok _ => true | Err _ => false end.

Definition to_option {A} (r : result A) : option A :=
  match r with Ok a => Some a | Err _ => None end.

Definition maxInt64 : Z := 2 ^ 63 - 1.
Definition minInt64 : Z := - 2 ^ 63.

(** Two's complement wrap-around of 64-bit [int] arithmetic. *)
Definition wrap64 (z : Z) : Z := ((z + 2 ^ 63) mod 2 ^ 64 - 2 ^ 63)%Z.

(** [s[n:]] on a string that is long enough. *)
Fixpoint string_drop (n : nat) (s : string) : string :=
  match n, s with
  | O, _ => s
  | S n', String _ s' => string_drop n' s'
  | S _, EmptyString => EmptyString
  end.

(** [strings.Contains] / [bytes.Contains]. *)
Fixpoint contains (s sub : string) : bool :=
  String.prefix sub s ||
  match s with
  | EmptyString => false
  | String _ s' => contains s' sub
  end.

(** [strings.HasSuffix] *)
Fixpoint HasSuffix (s suffix : string) : bool :=
  String.eqb s suffix ||
  match s with
  | EmptyString => false
  | String _ s' => HasSuffix s' suffix
  end.

(** [fmt.Sprintf("%d", n)] for a number that is not negative. *)
Definition Sprintf_d (n : nat) : string := pretty n.

Module time.
(** An instant is counted in nanoseconds from the zero [Time]
    (January 1, year 1, 00:00:00 UTC); a [Duration] is an [int64]
    count of nanoseconds. *)
Abbreviation Time := Z (only parsing).
Abbreviation Duration := Z (only parsing).

Definition zero : Time := 0%Z.
Definition Nanosecond : Duration := 1%Z.
Definition Second : Duration := 1000000000%Z.
Definition Minute : Duration := (60 * Second)%Z.
Definition Hour : Duration := (60 * Minute)%Z.

(** [t.Sub(u)] saturates at the largest and smallest [Duration]. *)
Definition Sub (t u : Time) : Duration :=
  if (maxInt64 <? t - u)%Z then maxInt64
  else if (t - u <? minInt64)%Z then minInt64
  else (t - u)%Z.

Definition Add (t : Time) (d : Duration) : Time := (t + d)%Z.
Definition After (t u : Time) : bool := (u <? t)%Z.
(** [time.Since(t)] is [time.Now().Sub(t)]. *)
Definition Since (now t : Time) : Duration := Sub now t.
End time.

Module strconv.
Definition digit (a : ascii) : option Z :=
  let n := nat_of_ascii a in
  if (48 <=? n)%nat && (n <=? 57)%nat then Some (Z.of_nat (n - 48)) else None.

Fixpoint digits (acc : Z) (s : string) : option Z :=
  match s with
  | EmptyString => Some acc
  | String a s' =>
      match digit a with
      | Some d => digits (10 * acc + d)%Z s'
      | None => None
      end
  end.

Definition unsigned (s : string) : option Z :=
  match s with
  | EmptyString => None
  | _ => digits 0 s
  end.

(** [strconv.Atoi]: the value and the error.  A syntax error gives 0;
    a value out of the [int] range gives the nearest bound together
    with the range error. *)
Definition Atoi (s : string) : Z * option string :=
  let syntax := (0%Z, Some "invalid syntax") in
  let ranged (z : Z) :=
    if (maxInt64 <? z)%Z then (maxInt64, Some "value out of range")
    else if (z <? minInt64)%Z then (minInt64, Some "value out of range")
    else (z, None) in
  match s with
  | String "+"%char s' =>
      match unsigned s' with Some z => ranged z | None => syntax end
  | String "-"%char s' =>
      match unsigned s' with Some z => ranged (- z)%Z | None => syntax end
  | _ =>
      match unsigned s with Some z => ranged z | None => syntax end
  end.
End strconv.

(** ** The world outside the function bodies *)

(** An entry of the store: a string with the TTL it was written with,
    or a hash of fields. *)
Inductive Entry : Type :=
| EString (value : string) (ttl : Z)
| EHash (fields : gmap string string).

(** The commands the code sends to the store. *)
Inductive Cmd : Type :=
| KEYS (pattern : string)
| GET (key : string)
| SET (key value : string) (ttl : Z)
| HGET (key field : string)
| HSET (key field value : string).

Inductive Level : Type := Info | Warn | Error | Printf.

Inductive Event : Type :=
| EvRedis (c : Cmd)
| EvLog (lvl : Level) (msg : string)
| EvHTTP (url : string)
| EvLock (m : nat)
| EvUnlock (m : nat).

(** An HTTP exchange as [CheckTokenTenantURL] observes it: the status code
    and the outcome [(n, err)] of the single [Body.Read] into a 1024-byte
    buffer, [chunk] being the [n] bytes read. *)
Record Response : Type := {
  StatusCode : Z;
  chunk : string;
  readErr : option string;
}.

Inductive Exchange : Type :=
| BadRequest                 (* http.NewRequest fails *)
| NoResponse (e : string)    (* client.Do fails *)
| Responds (r : Response).

Record World : Type := {
  redis : gmap string Entry;     (* the keyspace of the store *)
  faulty : Cmd -> bool;          (* commands the store fails to serve *)
  mutexes : list bool;           (* every sync.Mutex allocated: is it held? *)
  tokenLocks : gmap string nat;  (* the lock registry: token to mutex *)
  uuid_src : nat -> string;      (* the values uuid.New() yields, in order *)
  uuid_used : nat;
  rand_src : nat -> nat;         (* the raw draws behind rand.Intn, in order *)
  rand_used : nat;
  upstream : string -> string -> string -> Exchange;
                                 (* url, token, session id to the exchange *)
  trace : list Event;            (* oldest first *)
}.

Definition set_redis (d : gmap string Entry) (w : World) : World :=
  {| redis := d; faulty := faulty w; mutexes := mutexes w;
     tokenLocks := tokenLocks w; uuid_src := uuid_src w;
     uuid_used := uuid_used w; rand_src := rand_src w;
     rand_used := rand_used w; upstream := upstream w; trace := trace w |}.

Definition set_mutexes (l : list bool) (w : World) : World :=
  {| redis := redis w; faulty := faulty w; mutexes := l;
     tokenLocks := tokenLocks w; uuid_src := uuid_src w;
     uuid_used := uuid_used w; rand_src := rand_src w;
     rand_used := rand_used w; upstream := upstream w; trace := trace w |}.

Definition set_tokenLocks (r : gmap string nat) (w : World) : World :=
  {| redis := redis w; faulty := faulty w; mutexes := mutexes w;
     tokenLocks := r; uuid_src := uuid_src w;
     uuid_used := uuid_used w; rand_src := rand_src w;
     rand_used := rand_used w; upstream := upstream w; trace := trace w |}.

Definition set_uuid_used (n : nat) (w : World) : World :=
  {| redis := redis w; faulty := faulty w; mutexes := mutexes w;
     tokenLocks := tokenLocks w; uuid_src := uuid_src w;
     uuid_used := n; rand_src := rand_src w;
     rand_used := rand_used w; upstream := upstream w; trace := trace w |}.

Definition set_rand_used (n : nat) (w : World) : World :=
  {| redis := redis w; faulty := faulty w; mutexes := mutexes w;
     tokenLocks := tokenLocks w; uuid_src := uuid_src w;
     uuid_used := uuid_used w; rand_src := rand_src w;
     rand_used := n; upstream := upstream w; trace := trace w |}.

Definition emit (e : Event) (w : World) : World :=
  {| redis := redis w; faulty := faulty w; mutexes := mutexes w;
     tokenLocks := tokenLocks w; uuid_src := uuid_src w;
     uuid_used := uuid_used w; rand_src := rand_src w;
     rand_used := rand_used w; upstream := upstream w;
     trace := trace w ++ [e] |}.

(** ** State passing *)

Definition St (A : Type) : Type := World -> A * World.

Definition ret {A} (a : A) : St A := fun w => (a, w).

Definition bind {A B} (c : St A) (k : A -> St B) : St B :=
  fun w => let (a, w') := c w in k a w'.

Notation "'let*' x ':=' c 'in' k" := (bind c (fun x => k))
  (at level 10, x name, c at level 100, k at level 200).
Notation "'let*' ' p ':=' c 'in' k" :=
  (bind c (fun x => match x with p => k end))
  (at level 10, p pattern, c at level 100, k at level 200).
Notation "c ';;' k" := (bind c (fun _ => k))
  (at level 100, k at level 200, right associativity).

Definition log (lvl : Level) (msg : string) : St unit :=
  fun w => (tt, emit (EvLog lvl msg) w).

(** [uuid.New().String()] *)
Definition uuid_New : St string :=
  fun w => (uuid_src w (uuid_used w), set_uuid_used (S (uuid_used w)) w).

(** [rand.Intn(n)] for [n > 0]: some index below [n]. *)
Definition rand_Intn (n : nat) : St nat :=
  fun w => (rand_src w (rand_used w) mod n, set_rand_used (S (rand_used w)) w).

(** *** Calls that may park or die

    [sync.Mutex.Lock] parks the caller while the mutex is held, and
    unlocking a mutex that is not held is fatal; a call that touches a
    mutex therefore returns, parks or dies. *)
Inductive Outcome (A : Type) : Type :=
| Returns (a : A) (w : World)
| Parks (m : nat) (w : World)
| Dies (e : string) (w : World).
Arguments Returns {A} a w.
Arguments Parks {A} m w.
Arguments Dies {A} e w.

Definition Op (A : Type) : Type := World -> Outcome A.


Definition lift {A} (c : St A) : Op A :=
  fun w => let (a, w') := c w in Returns a w'.

Definition done {A} (a : A) : Op A := fun w => Returns a w.

Definition andThen {A B} (c : Op A) (k : A -> Op B) : Op B :=
  fun w =>
    match c w with
    | Returns a w' => k a w'
    | Parks m w' => Parks m w'
    | Dies e w' => Dies e w'
    end.

Notation "'let!' x ':=' c 'in' k" := (andThen c (fun x => k))
  (at level 10, x name, c at level 100, k at level 200).
Notation "'let!' ' p ':=' c 'in' k" :=
  (andThen c (fun x => match x with p => k end))
  (at level 10, p pattern, c at level 100, k at level 200).
Notation "c ';;;' k" := (andThen c (fun _ => k))
  (at level 100, k at level 200, right associativity).

(** [m.Lock()] *)
Definition Lock (m : nat) : Op unit :=
  fun w =>
    match mutexes w !! m with
    | Some false => Returns tt (emit (EvLock m) (set_mutexes (<[m := true]> (mutexes w)) w))
    | Some true => Parks m w
    | None => Dies "invalid memory address or nil pointer dereference" w
    end.

(** [m.Unlock()] *)
Definition Unlock (m : nat) : Op unit :=
  fun w =>
    match mutexes w !! m with
    | Some true => Returns tt (emit (EvUnlock m) (set_mutexes (<[m := false]> (mutexes w)) w))
    | Some false => Dies "sync: unlock of unlocked mutex" w
    | None => Dies "invalid memory address or nil pointer dereference" w
    end.



(** *** The request context (gin.Context), as far as this code uses it *)
Inductive Any : Type :=
| AString (s : string)
| AInt (n : Z)
| AMutex (m : nat).

Module gin.
Record Context : Type := {
  Path : string;                     (* c.Request.URL.Path *)
  Keys : gmap string Any;            (* c.Set / c.Get *)
  Written : option (Z * string);     (* c.JSON: status and error text *)
  Aborted : bool;                    (* c.Abort *)
  Passed : bool;                     (* c.Next *)
}.

Definition Get (key : string) (c : Context) : option Any := Keys c !! key.

(** [c.Set]; the name [Set] is taken. *)
Definition Set' (key : string) (v : Any) (c : Context) : Context :=
  {| Path := Path c; Keys := <[key := v]> (Keys c); Written := Written c;
     Aborted := Aborted c; Passed := Passed c |}.

Definition JSON (code : Z) (error : string) (c : Context) : Context :=
  {| Path := Path c; Keys := Keys c; Written := Some (code, error);
     Aborted := Aborted c; Passed := Passed c |}.

Definition Abort (c : Context) : Context :=
  {| Path := Path c; Keys := Keys c; Written := Written c;
     Aborted := true; Passed := Passed c |}.

Definition Next (c : Context) : Context :=
  {| Path := Path c; Keys := Keys c; Written := Written c;
     Aborted := Aborted c; Passed := true |}.
End gin.

(** [config.AppConfig], the fields read here. *)
Record AppConfig : Type := {
  CodingMode : string;
  CodingToken : string;
  TenantURL : string;
  RemoveFree : string;
  UserAgent : string;
}.

(** ** Package config: the shared state store

    Modelled from the spec: the Redis helpers of package [config]
    ([RedisKeys], [RedisGet], [RedisSet], [RedisHGet], [RedisHSet]) are not
    part of the sources at hand.  The store is "a persisted key/value
    store supporting per-entity field maps, key enumeration by prefix,
    atomic field get/set and time-to-live expiry on a full entry".  A
    read of an absent key or field is an error, as the callers' comments
    say; expiry is an act of the store, so an entry recorded here is one
    that has not expired yet. *)
Module config.

(** Key patterns: literal characters and [*]. *)
Fixpoint glob (p s : string) : bool :=
  match p with
  | EmptyString => match s with EmptyString => true | _ => false end
  | String "*"%char p' =>
      (fix star (s : string) : bool :=
         glob p' s ||
         match s with EmptyString => false | String _ s' => star s' end) s
  | String c p' =>
      match s with
      | String d s' => Ascii.eqb c d && glob p' s'
      | EmptyString => false
      end
  end.

Definition keys_of (w : World) (pattern : string) : list string :=
  List.filter (glob pattern) (map_to_list (redis w)).*1.

Definition lookup_string (w : World) (key : string) : result string :=
  if faulty w (GET key) then Err "redis: connection failure"
  else match redis w !! key with
       | Some (EString v _) => Ok v
       | Some (EHash _) => Err "WRONGTYPE"
       | None => Err "redis: nil"
       end.

Definition lookup_field (w : World) (key field : string) : result string :=
  if faulty w (HGET key field) then Err "redis: connection failure"
  else match redis w !! key with
       | Some (EHash h) =>
           match h !! field with
           | Some v => Ok v
           | None => Err "redis: nil"
           end
       | Some (EString _ _) => Err "WRONGTYPE"
       | None => Err "redis: nil"
       end.

Definition RedisKeys (pattern : string) : St (result (list string)) :=
  fun w =>
    (if faulty w (KEYS pattern) then Err "redis: connection failure"
     else Ok (keys_of w pattern),
     emit (EvRedis (KEYS pattern)) w).

Definition RedisGet (key : string) : St (result string) :=
  fun w => (lookup_string w key, emit (EvRedis (GET key)) w).

Definition RedisSet (key value : string) (ttl : Z) : St (option string) :=
  fun w =>
    let w' := emit (EvRedis (SET key value ttl)) w in
    if faulty w (SET key value ttl) then (Some "redis: connection failure", w')
    else (None, set_redis (<[key := EString value ttl]> (redis w)) w').

Definition RedisHGet (key field : string) : St (result string) :=
  fun w => (lookup_field w key field, emit (EvRedis (HGET key field)) w).

Definition RedisHSet (key field value : string) : St (option string) :=
  fun w =>
    let w' := emit (EvRedis (HSET key field value)) w in
    if faulty w (HSET key field value)
    then (Some "redis: connection failure", w')
    else match redis w !! key with
         | Some (EString _ _) => (Some "WRONGTYPE", w')
         | Some (EHash h) =>
             (None, set_redis (<[key := EHash (<[field := value]> h)]> (redis w)) w')
         | None =>
             (None, set_redis (<[key := EHash {[field := value]}]> (redis w)) w')
         end.

End config.

(** ** encoding/json, as far as the two status records need it *)
Class JSON (A : Type) : Type := {
  Marshal : A -> result string;
  Unmarshal : string -> result A;
}.

(** ** Package token (pkg/token/manager.go) *)
Module token.

Record TokenRequestStatus : Type := {
  InProgress : bool;
  LastRequestAt : Z;
}.

Record TokenCoolStatus : Type := {
  InCool : bool;
  CoolEnd : Z;
}.

Section manager.
Context `{!JSON TokenRequestStatus} `{!JSON TokenCoolStatus}.

(** The registry guard is taken and released inside the call. *)
Definition GetTokenLock (token : string) : St nat :=
  fun w =>
    match tokenLocks w !! token with
    | Some lock => (lock, w)
    | None =>
        let lock := List.length (mutexes w) in
        (lock, set_tokenLocks (<[token := lock]> (tokenLocks w))
                 (set_mutexes (mutexes w ++ [false]) w))
    end.

Definition SetTokenRequestStatus (token : string) (status : TokenRequestStatus)
  : St (option string) :=
  let key := "token_status:" ++ token in
  match Marshal status with
  | Err e => ret (Some e)
  | Ok statusJSON => config.RedisSet key statusJSON time.Hour
  end.

Definition GetTokenRequestStatus (token : string)
  : St (result TokenRequestStatus) :=
  let key := "token_status:" ++ token in
  let* r := config.RedisGet key in
  match r with
  | Err _ => ret (Ok {| InProgress := false; LastRequestAt := time.zero |})
  | Ok statusJSON =>
      match Unmarshal statusJSON with
      | Err e => ret (Err e)
      | Ok status => ret (Ok status)
      end
  end.

Definition SetTokenCoolStatus (now : Z) (token : string) (duration : Z)
  : St (option string) :=
  let key := "token_cool_status:" ++ token in
  let coolStatus := {| InCool := true; CoolEnd := time.Add now duration |} in
  match Marshal coolStatus with
  | Err e => ret (Some e)
  | Ok coolStatusJSON => config.RedisSet key coolStatusJSON duration
  end.

Definition GetTokenCoolStatus (now : Z) (token : string)
  : St (result TokenCoolStatus) :=
  let key := "token_cool_status:" ++ token in
  let* r := config.RedisGet key in
  match r with
  | Err _ => ret (Ok {| InCool := false; CoolEnd := time.zero |})
  | Ok coolStatusJSON =>
      match Unmarshal coolStatusJSON with
      | Err e => ret (Err e)
      | Ok coolStatus =>
          if InCool coolStatus && time.After now (CoolEnd coolStatus)
          then ret (Ok {| InCool := false; CoolEnd := CoolEnd coolStatus |})
          else ret (Ok coolStatus)
      end
  end.

Definition getTokenChatUsageCount (token : string) : St Z :=
  let countKey := "token_usage_chat:" ++ token in
  let* r := config.RedisGet countKey in
  match r with
  | Err _ => ret 0%Z
  | Ok count => ret (strconv.Atoi count).1
  end.

Definition getTokenAgentUsageCount (token : string) : St Z :=
  let countKey := "token_usage_agent:" ++ token in
  let* r := config.RedisGet countKey in
  match r with
  | Err _ => ret 0%Z
  | Ok count => ret (strconv.Atoi count).1
  end.

(** *** The selection algorithm

    [GetAvailableToken] and [GetNextAvailableToken] are the same text but
    for the exclusion test of the latter (manager.go:296-299); [exclude]
    is [None] for the former.  The six slices of the source are kept as
    they are. *)

Record Queues : Type := {
  availableTokens : list string;
  availableTenantURLs : list string;
  availableSessionIDs : list string;
  cooldownTokens : list string;
  cooldownTenantURLs : list string;
  cooldownSessionIDs : list string;
}.

Definition noQueues : Queues :=
  {| availableTokens := []; availableTenantURLs := [];
     availableSessionIDs := []; cooldownTokens := [];
     cooldownTenantURLs := []; cooldownSessionIDs := [] |}.

Definition appendAvailable (token tenantURL sessionID : string) (q : Queues)
  : Queues :=
  {| availableTokens := availableTokens q ++ [token];
     availableTenantURLs := availableTenantURLs q ++ [tenantURL];
     availableSessionIDs := availableSessionIDs q ++ [sessionID];
     cooldownTokens := cooldownTokens q;
     cooldownTenantURLs := cooldownTenantURLs q;
     cooldownSessionIDs := cooldownSessionIDs q |}.

Definition appendCooldown (token tenantURL sessionID : string) (q : Queues)
  : Queues :=
  {| availableTokens := availableTokens q;
     availableTenantURLs := availableTenantURLs q;
     availableSessionIDs := availableSessionIDs q;
     cooldownTokens := cooldownTokens q ++ [token];
     cooldownTenantURLs := cooldownTenantURLs q ++ [tenantURL];
     cooldownSessionIDs := cooldownSessionIDs q ++ [sessionID] |}.

(** One iteration of [for _, key := range keys]; every [continue] hands
    the queues back unchanged. *)
Definition scanKey (now : Z) (exclude : option string) (key : string)
  (q : Queues) : St Queues :=
  let* status := config.RedisHGet key "status" in
  if match status with Ok s => String.eqb s "disabled" | Err _ => false end
  then ret q else
  let token := string_drop 6 key in
  if match exclude with Some x => String.eqb token x | None => false end
  then ret q else
  let* requestStatus := GetTokenRequestStatus token in
  match requestStatus with
  | Err _ => ret q
  | Ok requestStatus =>
  if InProgress requestStatus then ret q else
  if (time.Since now (LastRequestAt requestStatus) <? 3 * time.Second)%Z
  then ret q else
  let* chatUsageCount := getTokenChatUsageCount token in
  let* agentUsageCount := getTokenAgentUsageCount token in
  if (3000 <=? chatUsageCount)%Z then ret q else
  if (50 <=? agentUsageCount)%Z then ret q else
  let* tenantURL := config.RedisHGet key "tenant_url" in
  match tenantURL with
  | Err _ => ret q
  | Ok tenantURL =>
  let* sid := config.RedisHGet key "session_id" in
  let* sessionID :=
    match sid with
    | Ok sessionID => ret sessionID
    | Err _ =>
        let* sessionID := uuid_New in
        config.RedisHSet key "session_id" sessionID ;;
        ret sessionID
    end in
  let* coolStatus := GetTokenCoolStatus now token in
  match coolStatus with
  | Err _ => ret q
  | Ok coolStatus =>
  if InCool coolStatus
  then ret (appendCooldown token tenantURL sessionID q)
  else ret (appendAvailable token tenantURL sessionID q)
  end end end.

Fixpoint scanKeys (now : Z) (exclude : option string) (keys : list string)
  (q : Queues) : St Queues :=
  match keys with
  | [] => ret q
  | key :: keys' =>
      let* q' := scanKey now exclude key q in
      scanKeys now exclude keys' q'
  end.

(** What a selection yields, before it is written into the three
    returned strings. *)
Inductive Selection : Type :=
| NoToken
| NoAvailableToken
| Chosen (token tenantURL sessionID : string).

Definition returned (s : Selection) : string * string * string :=
  match s with
  | NoToken => ("No token", "", "")
  | NoAvailableToken => ("No available token", "", "")
  | Chosen token tenantURL sessionID => (token, tenantURL, sessionID)
  end.

(** The result policy after the loop. *)
Definition choose (q : Queues) : St Selection :=
  if (0 <? List.length (availableTokens q))%nat then
    let* randomIndex := rand_Intn (List.length (availableTokens q)) in
    ret (Chosen (nth randomIndex (availableTokens q) "")
                (nth randomIndex (availableTenantURLs q) "")
                (nth randomIndex (availableSessionIDs q) ""))
  else if (0 <? List.length (cooldownTokens q))%nat then
    let* randomIndex := rand_Intn (List.length (cooldownTokens q)) in
    ret (Chosen (nth randomIndex (cooldownTokens q) "")
                (nth randomIndex (cooldownTenantURLs q) "")
                (nth randomIndex (cooldownSessionIDs q) ""))
  else ret NoAvailableToken.

(** The loop over the enumerated keys, then the result policy. *)
Definition selectAmong (now : Z) (exclude : option string)
  (keys : list string) : St Selection :=
  let* q := scanKeys now exclude keys noQueues in
  choose q.

Definition selectToken (now : Z) (exclude : option string) : St Selection :=
  let* r := config.RedisKeys "token:*" in
  match r with
  | Err _ => ret NoToken
  | Ok keys =>
      if (List.length keys =? 0)%nat then ret NoToken
      else selectAmong now exclude keys
  end.

Definition GetAvailableToken (now : Z) : St (string * string * string) :=
  let* s := selectToken now None in ret (returned s).

Definition GetNextAvailableToken (now : Z) (excludeToken : string)
  : St (string * string * string) :=
  let* s := selectToken now (Some excludeToken) in ret (returned s).

(** *** The retry/switch controller *)

(** [retryCount] as [SwitchTokenAndRetry] reads it: 0 unless the context
    holds an [int] under "retry_count". *)
Definition retryCountOf (c : gin.Context) : Z :=
  match gin.Get "retry_count" c with
  | Some (AInt n) => n
  | _ => 0%Z
  end.

(** manager.go:432-443 *)
Definition releaseCurrent (now : Z) (c : gin.Context) (currentToken : string)
  : Op unit :=
  match gin.Get "token_lock" c with
  | Some (AMutex currentLock) =>
      lift (SetTokenRequestStatus currentToken
              {| InProgress := false; LastRequestAt := now |}) ;;;
      Unlock currentLock
  | _ => done tt
  end.

(** manager.go:445-476 *)
Definition acquireNext (now : Z) (c : gin.Context) (retryCount : Z)
  (nextToken nextTenantURL nextSessionID : string) : Op (bool * gin.Context) :=
  let! newLock := lift (GetTokenLock nextToken) in
  Lock newLock ;;;
  let! err := lift (SetTokenRequestStatus nextToken
                      {| InProgress := true; LastRequestAt := now |}) in
  match err with
  | Some _ =>
      Unlock newLock ;;;
      lift (log Error "更新新Token请求状态失败") ;;;
      done (false, c)
  | None =>
      let c := gin.Set' "token" (AString nextToken) c in
      let c := gin.Set' "tenant_url" (AString nextTenantURL) c in
      let c := gin.Set' "session_id" (AString nextSessionID) c in
      let c := gin.Set' "token_lock" (AMutex newLock) c in
      let c := gin.Set' "retry_count" (AInt (wrap64 (retryCount + 1))) c in
      lift (log Info "Token切换成功，准备重试") ;;;
      done (true, c)
  end.

(** manager.go:423-476 *)
Definition selectAndTransfer (now : Z) (c : gin.Context)
  (currentToken : string) (retryCount : Z) : Op (bool * gin.Context) :=
  let! '(nextToken, nextTenantURL, nextSessionID) :=
    lift (GetNextAvailableToken now currentToken) in
  if String.eqb nextToken "No token" || String.eqb nextToken "No available token"
  then
    lift (log Warn "没有其他可用Token进行重试") ;;;
    done (false, c)
  else
    releaseCurrent now c currentToken ;;;
    acquireNext now c retryCount nextToken nextTenantURL nextSessionID.

Definition SwitchTokenAndRetry (now : Z) (c : gin.Context) (maxRetries : Z)
  : Op (bool * gin.Context) :=
  match gin.Get "token" c with
  | None => done (false, c)
  | Some (AString currentToken) =>
      let retryCount := retryCountOf c in
      if (maxRetries <=? retryCount)%Z then
        lift (log Warn "已达到最大重试次数，停止重试") ;;;
        done (false, c)
      else
        let! err := lift (SetTokenCoolStatus now currentToken (5 * time.Minute)) in
        lift (match err with
              | Some _ => log Error "设置Token冷却状态失败"
              | None => log Info "Token因429错误被加入5分钟冷却"
              end) ;;;
        selectAndTransfer now c currentToken retryCount
  | Some _ => done (false, c)
  end.

End manager.
End token.

(** ** Package middleware *)
Module middleware.
Import token.

Section middleware.
Context `{!JSON TokenRequestStatus} `{!JSON TokenCoolStatus}.

Definition TokenConcurrencyMiddleware (cfg : AppConfig) (now : Z)
  (c : gin.Context) : Op gin.Context :=
  if negb (HasSuffix (gin.Path c) "/chat/completions") &&
     negb (HasSuffix (gin.Path c) "/messages")
  then done (gin.Next c)
  else if String.eqb (CodingMode cfg) "true" then
    let token := CodingToken cfg in
    let tenantURL := TenantURL cfg in
    let c := gin.Set' "token" (AString token) c in
    let c := gin.Set' "tenant_url" (AString tenantURL) c in
    done (gin.Next c)
  else
    let! '(tokenStr, tenantURL, sessionID) := lift (GetAvailableToken now) in
    if String.eqb tokenStr "No token" then
      done (gin.Abort (gin.JSON 429 "当前无可用token，请在页面添加" c))
    else if String.eqb tokenStr "No available token" || String.eqb tenantURL ""
    then
      done (gin.Abort (gin.JSON 429 "当前请求过多，请稍后再试" c))
    else
      let! lock := lift (GetTokenLock tokenStr) in
      Lock lock ;;;
      let! err := lift (SetTokenRequestStatus tokenStr
                          {| InProgress := true; LastRequestAt := now |}) in
      match err with
      | Some _ =>
          Unlock lock ;;;
          done (gin.Abort (gin.JSON 500 "更新token请求状态失败" c))
      | None =>
          lift (log Info "本次请求使用的token: ") ;;;
          let c := gin.Set' "token_lock" (AMutex lock) c in
          let c := gin.Set' "token" (AString tokenStr) c in
          let c := gin.Set' "tenant_url" (AString tenantURL) c in
          let c := gin.Set' "session_id" (AString sessionID) c in
          done (gin.Next c)
      end.

Definition SwitchTokenAndRetry (now : Z) (c : gin.Context) (maxRetries : Z)
  : Op (bool * gin.Context) :=
  token.SwitchTokenAndRetry now c maxRetries.

End middleware.
End middleware.

(** ** Package api: the tenant endpoint validator *)
Module api.

(** The candidates after the recorded endpoint: d20 down to d0, then i5
    down to i0. *)
Definition countdown (n : nat) : list nat := rev (seq 0 (S n)).

Definition fallbackURLs : list string :=
  map (fun i => "https://d" ++ Sprintf_d i ++ ".api.augmentcode.com/") (countdown 20)
  ++ map (fun i => "https://i" ++ Sprintf_d i ++ ".api.augmentcode.com/") (countdown 5).

(** The two loops that append every address not yet in [uniqueTenantURLs]. *)
Fixpoint addUnique (urls : list string) (unique : gset string)
  (tenantURLsToTest : list string) : list string :=
  match urls with
  | [] => tenantURLsToTest
  | newTenantURL :: urls' =>
      if bool_decide (newTenantURL ∈ unique)
      then addUnique urls' unique tenantURLsToTest
      else addUnique urls' ({[newTenantURL]} ∪ unique)
             (tenantURLsToTest ++ [newTenantURL])
  end.

(** [currentTenantURL] is the empty string when the read fails. *)
Definition tenantURLsToTest (current : result string) : list string :=
  let currentTenantURL := match current with Ok u => u | Err _ => "" end in
  let first :=
    if is_ok current && negb (String.eqb currentTenantURL "")
    then [currentTenantURL] else [] in
  let unique : gset string :=
    if negb (String.eqb currentTenantURL "") then {[currentTenantURL]} else ∅ in
  addUnique fallbackURLs unique first.

Definition subscriptionInactiveMsg : string := "Your subscription for account".
Definition inactiveMsg : string := "is inactive".
Definition suspendedMsg : string :=
  "has been suspended. To continue, [purchase a subscription](https://app.augmentcode.com/account)".
Definition outOfMessagesMsg : string := "You are out of user messages for account".

Definition subscriptionMarker (responseContent : string) : bool :=
  (contains responseContent subscriptionInactiveMsg &&
   (contains responseContent inactiveMsg || contains responseContent suspendedMsg))
  || contains responseContent outOfMessagesMsg.

(** What the closure run on one response leaves in [isInvalid] and
    [foundValid]. *)
Inductive Finding : Type :=
| Invalid
| Valid (tenantURL : string)
| Undecided.

Definition status_is (r : Response) (code : Z) : bool := (StatusCode r =? code)%Z.

(** The function literal of part_001:460-542. *)
Definition inspect (cfg : AppConfig) (tokenKey tenantURL : string)
  (resp : Response) : St Finding :=
  let n := String.length (chunk resp) in
  let readOk := match readErr resp with None => true | Some _ => false end in
  if status_is resp 401 then
    if readOk && (0 <? n)%nat && contains (chunk resp) "Invalid token" then
      let* err := config.RedisHSet tokenKey "status" "disabled" in
      match err with
      | Some _ => log Printf "标记token为不可用失败"
      | None => ret tt
      end ;;
      log Info "token: 已被标记为不可用,返回401未授权" ;;
      ret Invalid
    else ret Undecided
  else if status_is resp 200 || status_is resp 402 then
    if readOk && (0 <? n)%nat then
      let responseContent := chunk resp in
      if String.eqb (RemoveFree cfg) "true" && subscriptionMarker responseContent
      then
        let* err := config.RedisHSet tokenKey "status" "disabled" in
        match err with
        | Some _ => log Printf "标记token为不可用失败"
        | None => ret tt
        end ;;
        log Info "token: 检测到订阅异状态，TOKEN已标记为不可用" ;;
        ret Invalid
      else
        let* err := config.RedisHSet tokenKey "tenant_url" tenantURL in
        match err with
        | Some _ => ret Undecided
        | None =>
            let* err := config.RedisHSet tokenKey "status" "active" in
            match err with
            | Some _ => log Printf "标记token为可用失败"
            | None => ret tt
            end ;;
            log Info "token: 更新租户地址成功" ;;
            ret (Valid tenantURL)
        end
    else ret Undecided
  else ret Undecided.

(** The probing loop of part_001:438-553. *)
Fixpoint probe (cfg : AppConfig) (token sessionID : string)
  (urls : list string) : St (result string) :=
  match urls with
  | [] => ret (Err "未找到有效的租户地址")
  | tenantURL :: urls' =>
      fun w =>
        match upstream w (tenantURL ++ "chat-stream") token sessionID with
        | BadRequest => probe cfg token sessionID urls' w
        | NoResponse _ =>
            (uuid_New ;;
             (fun w => (tt, emit (EvHTTP (tenantURL ++ "chat-stream")) w)) ;;
             log Printf "请求失败" ;;
             probe cfg token sessionID urls') w
        | Responds resp =>
            (uuid_New ;;
             (fun w => (tt, emit (EvHTTP (tenantURL ++ "chat-stream")) w)) ;;
             let* finding := inspect cfg ("token:" ++ token) tenantURL resp in
             match finding with
             | Invalid => ret (Err "token被标记为不可用")
             | Valid tenantURLResult => ret (Ok tenantURLResult)
             | Undecided => probe cfg token sessionID urls'
             end) w
        end
  end.

(** [jsonData] is the outcome of [json.Marshal(testMsg)]. *)
Definition CheckTokenTenantURL (cfg : AppConfig) (jsonData : result string)
  (token sessionID : string) : St (result string) :=
  match jsonData with
  | Err e => ret (Err ("序列化测试消息失败: " ++ e))
  | Ok _ =>
      let tokenKey := "token:" ++ token in
      let* currentTenantURL := config.RedisHGet tokenKey "tenant_url" in
      probe cfg token sessionID (tenantURLsToTest currentTenantURL)
  end.

End api.

(** ** The vocabulary of the specification

    The eligibility filter of the selection algorithm (spec, section 4.1,
    filters 1 to 6), phrased over the store by means of the getters of
    [manager.go]. *)
Section pool.
Context `{!JSON token.TokenRequestStatus} `{!JSON token.TokenCoolStatus}.
Import token.

(** The credential pool: the keys the store enumerates for "token:*". *)
Definition pool (w : World) : list string := config.keys_of w "token:*".

(** The credential a key stands for. *)
Definition tokenOf (key : string) : string := string_drop 6 key.

Definition requestStatusOf (w : World) (token : string)
  : result TokenRequestStatus := (GetTokenRequestStatus token w).1.

Definition coolStatusOf (now : Z) (w : World) (token : string)
  : result TokenCoolStatus := (GetTokenCoolStatus now token w).1.

Definition chatUsageCount (w : World) (token : string) : Z :=
  (getTokenChatUsageCount token w).1.

Definition agentUsageCount (w : World) (token : string) : Z :=
  (getTokenAgentUsageCount token w).1.

Definition tenantEndpoint (w : World) (key : string) : result string :=
  config.lookup_field w key "tenant_url".

(** Filter 1. *)
Definition disabled (w : World) (key : string) : bool :=
  match config.lookup_field w key "status" with
  | Ok s => String.eqb s "disabled"
  | Err _ => false
  end.

(** Filter 2. *)
Definition excluded (exclude : option string) (token : string) : bool :=
  match exclude with
  | Some x => String.eqb token x
  | None => false
  end.

(** Filters 3 and 4: the request status is readable, no request is in
    progress and the last one is at least three seconds old. *)
Definition idle (now : Z) (w : World) (token : string) : bool :=
  match requestStatusOf w token with
  | Ok st =>
      negb (InProgress st) &&
      negb (time.Since now (LastRequestAt st) <? 3 * time.Second)%Z
  | Err _ => false
  end.

(** Filter 5. *)
Definition overQuota (w : World) (token : string) : bool :=
  (3000 <=? chatUsageCount w token)%Z || (50 <=? agentUsageCount w token)%Z.

Definition eligible (now : Z) (exclude : option string) (w : World)
  (key : string) : bool :=
  negb (disabled w key) &&
  negb (excluded exclude (tokenOf key)) &&
  idle now w (tokenOf key) &&
  negb (overQuota w (tokenOf key)) &&
  is_ok (tenantEndpoint w key).

(** Filter 6: [Some true] in cooldown, [Some false] not in cooldown,
    [None] when the cooldown record cannot be decoded. *)
Definition cooling (now : Z) (w : World) (token : string) : option bool :=
  match coolStatusOf now w token with
  | Ok cs => Some (InCool cs)
  | Err _ => None
  end.

Definition inAvailable (now : Z) (exclude : option string) (w : World)
  (key : string) : bool :=
  eligible now exclude w key &&
  match cooling now w (tokenOf key) with Some false => true | _ => false end.

Definition inCooling (now : Z) (exclude : option string) (w : World)
  (key : string) : bool :=
  eligible now exclude w key &&
  match cooling now w (tokenOf key) with Some true => true | _ => false end.

(** Two worlds that differ at most in trace, counters, locks and the
    "session_id" fields: the selection loop changes nothing else. *)
Definition agree_entry (e e' : option Entry) : Prop :=
  match e, e' with
  | None, None => True
  | Some (EString v t), Some (EString v' t') => v = v' ∧ t = t'
  | Some (EHash h), Some (EHash h') =>
      ∀ f : string, f ≠ "session_id" → h !! f = h' !! f
  | _, _ => False
  end.

Definition agree (w w' : World) : Prop :=
  faulty w = faulty w' ∧ ∀ k : string, agree_entry (redis w !! k) (redis w' !! k).

(** The endpoint the loop files a key under. *)
Definition urlOf (w : World) (key : string) : string :=
  match tenantEndpoint w key with Ok u => u | Err _ => "" end.

(** What a selection started in [w] may yield, whatever the random draw:
    the result policy of the spec, section 4.1. *)
Inductive Yields (now : Z) (exclude : option string) (w : World)
  : Selection → Prop :=
| yields_unreadable :
    faulty w (KEYS "token:*") = true →
    Yields now exclude w NoToken
| yields_empty :
    faulty w (KEYS "token:*") = false →
    pool w = [] →
    Yields now exclude w NoToken
| yields_available key sessionID :
    faulty w (KEYS "token:*") = false →
    key ∈ pool w →
    inAvailable now exclude w key = true →
    Yields now exclude w (Chosen (tokenOf key) (urlOf w key) sessionID)
| yields_cooling key sessionID :
    faulty w (KEYS "token:*") = false →
    (∀ k, k ∈ pool w → inAvailable now exclude w k = false) →
    key ∈ pool w →
    inCooling now exclude w key = true →
    Yields now exclude w (Chosen (tokenOf key) (urlOf w key) sessionID)
| yields_saturated :
    faulty w (KEYS "token:*") = false →
    pool w ≠ [] →
    (∀ k, k ∈ pool w → inAvailable now exclude w k = false) →
    (∀ k, k ∈ pool w → inCooling now exclude w k = false) →
    Yields now exclude w NoAvailableToken.

(** The selection algorithm of the spec under one name: without an
    exclusion it is [GetAvailableToken], with one [GetNextAvailableToken]. *)
Definition SelectionAlgorithm (now : Z) (exclude : option string)
  : St (string * string * string) :=
  match exclude with
  | None => GetAvailableToken now
  | Some excludeToken => GetNextAvailableToken now excludeToken
  end.

(** The same world with the cooldown record of [token] removed. *)
Definition withoutCoolStatus (token : string) (w : World) : World :=
  set_redis (delete ("token_cool_status:" ++ token) (redis w)) w.

(** [w] holds a cooldown record for [token] that ended before [now];
    [w'] holds none and is otherwise the same store. *)
Definition twin (now : Z) (token : string) (w w' : World) : Prop :=
  faulty w = faulty w' ∧
  uuid_src w = uuid_src w' ∧ uuid_used w = uuid_used w' ∧
  rand_src w = rand_src w' ∧ rand_used w = rand_used w' ∧
  (∀ k, k ≠ "token_cool_status:" ++ token → redis w !! k = redis w' !! k) ∧
  redis w' !! ("token_cool_status:" ++ token) = None ∧
  ∃ coolStatusJSON ttl cs,
    redis w !! ("token_cool_status:" ++ token) = Some (EString coolStatusJSON ttl) ∧
    faulty w (GET ("token_cool_status:" ++ token)) = false ∧
    Unmarshal coolStatusJSON = Ok cs ∧ (CoolEnd cs < now)%Z.

(** Two runs of a computation from twin worlds: results related by [R],
    worlds still twins. *)
Definition sim (now : Z) (token : string) {A} (R : A → A → Prop)
  (c c' : St A) : Prop :=
  ∀ w w', twin now token w w' →
          R (c w).1 (c' w').1 ∧ twin now token (c w).2 (c' w').2.

(** Both worlds give the same answer to "is it in cooldown?". *)
Definition sameCooling (a a' : result TokenCoolStatus) : Prop :=
  match a, a' with
  | Ok cs, Ok cs' => InCool cs = InCool cs'
  | Err _, Err _ => True
  | _, _ => False
  end.

(** The two sentinels as the callers see them. *)
Definition isSentinel (r : string * string * string) : Prop :=
  r = returned NoToken ∨ r = returned NoAvailableToken.

End pool.

(** ** Further vocabulary of the properties *)

(** The lock registry is sound: every registered mutex exists and no two
    tokens share one. *)
Definition registry_ok (w : World) : Prop :=
  (∀ t m, tokenLocks w !! t = Some m → (m < List.length (mutexes w))%nat) ∧
  (∀ t t' m, tokenLocks w !! t = Some m → tokenLocks w !! t' = Some m → t = t').

(** The store serves the reads and writes of a key's "session_id". *)
Definition sessionServed (w : World) (key : string) : Prop :=
  faulty w (HGET key "session_id") = false ∧
  ∀ v, faulty w (HSET key "session_id" v) = false.

(** Every queued credential is listed with a session id, and that id is
    the one the store holds for it (if the store serves the field). *)
Definition sessionsBound (w : World) (tokens sessionIDs : list string) : Prop :=
  List.length sessionIDs = List.length tokens ∧
  ∀ i t, tokens !! i = Some t →
    ∃ s, sessionIDs !! i = Some s ∧
         (sessionServed w ("token:" ++ t) →
          config.lookup_field w ("token:" ++ t) "session_id" = Ok s).

Section switching.
Context `{!JSON token.TokenRequestStatus} `{!JSON token.TokenCoolStatus}.
Import token.

(** The context a successful switch hands back (manager.go:463-468). *)
Definition switched (c : gin.Context) (retryCount : Z)
  (nextToken nextTenantURL nextSessionID : string) (newLock : nat) : gin.Context :=
  gin.Set' "retry_count" (AInt (wrap64 (retryCount + 1)))
    (gin.Set' "token_lock" (AMutex newLock)
       (gin.Set' "session_id" (AString nextSessionID)
          (gin.Set' "tenant_url" (AString nextTenantURL)
             (gin.Set' "token" (AString nextToken) c)))).

(** The world after the cooldown attempt of the switch and its log line
    (manager.go:410-421). *)
Definition cooled (now : Z) (currentToken : string) (w : World) : World :=
  let (err, w1) := SetTokenCoolStatus now currentToken (5 * time.Minute) w in
  match err with
  | Some _ => emit (EvLog Error "设置Token冷却状态失败") w1
  | None => emit (EvLog Info "Token因429错误被加入5分钟冷却") w1
  end.

End switching.

(** The routes the concurrency middleware gates. *)
Definition gated (c : gin.Context) : bool :=
  HasSuffix (gin.Path c) "/chat/completions" || HasSuffix (gin.Path c) "/messages".

(** An answer that makes the validator give the credential up: a 401
    carrying "Invalid token", or in strict mode a 200 or 402 carrying a
    subscription marker. *)
Definition rejects (cfg : AppConfig) (resp : Response) : bool :=
  let readOk := match readErr resp with None => true | Some _ => false end in
  let n := String.length (chunk resp) in
  if api.status_is resp 401
  then readOk && (0 <? n)%nat && contains (chunk resp) "Invalid token"
  else (api.status_is resp 200 || api.status_is resp 402) &&
       (readOk && (0 <? n)%nat) &&
       (String.eqb (RemoveFree cfg) "true" && api.subscriptionMarker (chunk resp)).

(** An answer that makes the validator keep the endpoint: a readable 200
    or 402 that is not a strict-mode rejection. *)
Definition accepts (cfg : AppConfig) (resp : Response) : bool :=
  let readOk := match readErr resp with None => true | Some _ => false end in
  let n := String.length (chunk resp) in
  negb (api.status_is resp 401) &&
  (api.status_is resp 200 || api.status_is resp 402) &&
  (readOk && (0 <? n)%nat) &&
  negb (String.eqb (RemoveFree cfg) "true" && api.subscriptionMarker (chunk resp)).

(** ** Package api: the listing handler's pages *)
Module listing.

(** [a[low:high]] on a slice whose capacity is at least [high]: a
    run-time panic unless [0 <= low <= high]. *)
Definition slice {A} (a : list A) (low high : Z) : option (list A) :=
  if (0 <=? low)%Z && (low <=? high)%Z && (high <=? Z.of_nat (List.length a))%Z
  then Some (take (Z.to_nat (high - low)) (drop (Z.to_nat low) a))
  else None.

(** The answer of GetRedisTokenHandler, part_001:190-197. *)
Record Listing (A : Type) : Type := {
  tokens : list A;
  total : Z;
  page : Z;
  page_size : Z;
  total_pages : Z;
}.
Arguments tokens {A} _.
Arguments total {A} _.
Arguments page {A} _.
Arguments page_size {A} _.
Arguments total_pages {A} _.

(** part_001:52-54 and 163-197 on the sorted [tokenList]; [None] is the
    panic of the slice expression. *)
Definition pageWindow {A} (pageNum pageSizeNum : Z) (tokenList : list A)
  : option (Listing A) :=
  let pageNum := if (pageNum <? 1)%Z then 1%Z else pageNum in
  let totalItems := Z.of_nat (List.length tokenList) in
  if (0 <? pageSizeNum)%Z then
    let totalPages :=
      Z.quot (wrap64 (wrap64 (totalItems + pageSizeNum) - 1)) pageSizeNum in
    let pageNum :=
      if (totalPages <? pageNum)%Z && (0 <? totalPages)%Z then totalPages
      else pageNum in
    let startIndex := wrap64 (wrap64 (pageNum - 1) * pageSizeNum) in
    let endIndex := wrap64 (startIndex + pageSizeNum) in
    if (startIndex <? totalItems)%Z then
      let endIndex := if (totalItems <? endIndex)%Z then totalItems else endIndex in
      match slice tokenList startIndex endIndex with
      | Some tokenList =>
          Some {| tokens := tokenList; total := totalItems; page := pageNum;
                  page_size := pageSizeNum; total_pages := totalPages |}
      | None => None
      end
    else
      Some {| tokens := []; total := totalItems; page := pageNum;
              page_size := pageSizeNum; total_pages := totalPages |}
  else
    Some {| tokens := tokenList; total := totalItems; page := pageNum;
            page_size := pageSizeNum; total_pages := 1 |}.

(** part_001:46-50: the two query parameters after [c.DefaultQuery]; the
    errors of [strconv.Atoi] are dropped. *)
Definition listingOf {A} (page pageSize : string) (tokenList : list A)
  : option (Listing A) :=
  let pageNum := (strconv.Atoi page).1 in
  let pageSizeNum := (strconv.Atoi pageSize).1 in
  pageWindow pageNum pageSizeNum tokenList.

End listing.

(** ** Package api: adding credentials and the session-id migration

    [config.RedisExists] and [config.RedisHExists] are, like the other
    helpers of package [config], not part of the sources at hand; they
    are modelled as the store's EXISTS and HEXISTS.  Whether one of them
    fails is given by [unreachable], in the way [faulty] gives it for
    the commands of the selection path; the two read-only commands leave
    no entry in the trace. *)
Module admin.

Inductive Query : Type :=
| EXISTS (key : string)
| HEXISTS (key field : string).

Definition RedisExists (unreachable : Query -> bool) (key : string)
  : St (result bool) :=
  fun w =>
    (if unreachable (EXISTS key) then Err "redis: connection failure"
     else Ok (bool_decide (is_Some (redis w !! key))),
     w).

Definition RedisHExists (unreachable : Query -> bool) (key field : string)
  : St (result bool) :=
  fun w =>
    (if unreachable (HEXISTS key field) then Err "redis: connection failure"
     else match redis w !! key with
          | Some (EHash h) => Ok (bool_decide (is_Some (h !! field)))
          | Some (EString _ _) => Err "WRONGTYPE"
          | None => Ok false
          end,
     w).

(** part_001:201-235 *)
Definition SaveTokenToRedis (unreachable : Query -> bool)
  (token tenantURL : string) : St (option string) :=
  let tokenKey := "token:" ++ token in
  let* exists_ := RedisExists unreachable tokenKey in
  match exists_ with
  | Err e => ret (Some e)
  | Ok true => ret None
  | Ok false =>
      let* err := config.RedisHSet tokenKey "tenant_url" tenantURL in
      match err with
      | Some e => ret (Some e)
      | None =>
          let* sessionID := uuid_New in
          let* err := config.RedisHSet tokenKey "session_id" sessionID in
          match err with
          | Some e => ret (Some e)
          | None =>
              let* err := config.RedisHSet tokenKey "status" "active" in
              match err with
              | Some e => ret (Some e)
              | None => config.RedisHSet tokenKey "remark" ""
              end
          end
      end
  end.

Record TokenItem : Type := {
  Token : string;
  TenantUrl : string;
}.

(** The loop of AddTokenHandler, part_001:337-354, on the items still to
    come, with [successCount] and [failedTokens] so far. *)
Fixpoint saveAll (unreachable : Query -> bool) (tokens : list TokenItem)
  (successCount : Z) (failedTokens : list string) : St (Z * list string) :=
  match tokens with
  | [] => ret (successCount, failedTokens)
  | item :: tokens' =>
      if String.eqb (Token item) "" || String.eqb (TenantUrl item) ""
      then saveAll unreachable tokens' successCount (failedTokens ++ [Token item])
      else
        let* err := SaveTokenToRedis unreachable (Token item) (TenantUrl item) in
        match err with
        | Some _ =>
            saveAll unreachable tokens' successCount (failedTokens ++ [Token item])
        | None =>
            saveAll unreachable tokens' (wrap64 (successCount + 1)) failedTokens
        end
  end.

(** What AddTokenHandler hands to [c.JSON]; [failed] holds
    "failed_tokens" and "failed_count", present only when a save
    failed. *)
Inductive Reply : Type :=
| Refused (code : Z) (error : string)
| Added (total success_count : Z) (failed : option (list string * Z)).

(** part_001:317-369; [tokens] is the outcome of [c.ShouldBindJSON]. *)
Definition AddTokenHandler (unreachable : Query -> bool)
  (tokens : result (list TokenItem)) : St Reply :=
  match tokens with
  | Err _ => ret (Refused 400 "无效的请求数据")
  | Ok [] => ret (Refused 400 "token列表为空")
  | Ok tokens =>
      let* '(successCount, failedTokens) := saveAll unreachable tokens 0 [] in
      ret (Added (Z.of_nat (List.length tokens)) successCount
             (match failedTokens with
              | [] => None
              | _ => Some (failedTokens, Z.of_nat (List.length failedTokens))
              end))
  end.

(** The loop body of MigrateTokensSessionID, part_001:745-769; a log
    entry is recorded by its first argument. *)
Definition migrateKey (unreachable : Query -> bool) (key : string) : St unit :=
  let* status := config.RedisHGet key "status" in
  if match status with Ok status => String.eqb status "disabled" | Err _ => false end
  then ret tt
  else
    let* exists_ := RedisHExists unreachable key "session_id" in
    match exists_ with
    | Err _ => log Error "check session_id field of token %s failed: %v"
    | Ok true => ret tt
    | Ok false =>
        let* sessionID := uuid_New in
        let* err := config.RedisHSet key "session_id" sessionID in
        match err with
        | Some _ => log Error "add session_id field to token %s failed: %v"
        | None => log Info "add session_id field to token %s success"
        end
    end.

(** part_001:649-662; the counter of the listing, which unlike the one of
    package token gives 0 when [strconv.Atoi] reports an error. *)
Definition getTokenChatUsageCount (token : string) : St Z :=
  let countKey := "token_usage_chat:" ++ token in
  let* r := config.RedisGet countKey in
  match r with
  | Err _ => ret 0%Z
  | Ok count =>
      match (strconv.Atoi count).2 with
      | Some _ => ret 0%Z
      | None => ret (strconv.Atoi count).1
      end
  end.

(** part_001:665-678 *)
Definition getTokenAgentUsageCount (token : string) : St Z :=
  let countKey := "token_usage_agent:" ++ token in
  let* r := config.RedisGet countKey in
  match r with
  | Err _ => ret 0%Z
  | Ok count =>
      match (strconv.Atoi count).2 with
      | Some _ => ret 0%Z
      | None => ret (strconv.Atoi count).1
      end
  end.

Fixpoint migrateKeys (unreachable : Query -> bool) (keys : list string)
  : St unit :=
  match keys with
  | [] => ret tt
  | key :: keys' => migrateKey unreachable key ;; migrateKeys unreachable keys'
  end.

(** part_001:738-773 *)
Definition MigrateTokensSessionID (unreachable : Query -> bool)
  : St (option string) :=
  let* keys := config.RedisKeys "token:*" in
  match keys with
  | Err e => ret (Some ("获取token列表失败: " ++ e))
  | Ok keys =>
      migrateKeys unreachable keys ;;
      log Info "migrate session_id field to all tokens success!" ;;
      ret None
  end.

End admin.

(** Every session id of [w] is still the session id in [w']. *)
Definition sessionsKept (w w' : World) : Prop :=
  ∀ k h s, redis w !! k = Some (EHash h) → h !! "session_id" = Some s →
           ∃ h', redis w' !! k = Some (EHash h') ∧ h' !! "session_id" = Some s.

(** The fields SaveTokenToRedis gives a new credential. *)
Definition freshFields (tenantURL sessionID : string) : gmap string string :=
  <["remark" := ""]> (<["status" := "active"]>
    (<["session_id" := sessionID]> {["tenant_url" := tenantURL]})).

(** ** Concrete pools

    A toy codec stands in for [encoding/json] where a statement is run on
    a concrete world: a status is written as T or F followed by the
    instant in decimal. *)
Module scenario.
Import token.

Definition encode (b : bool) (t : Z) : string :=
  (if b then "T" else "F") ++ pretty (Z.to_N t).

Definition decode (s : string) : option (bool * Z) :=
  match s with
  | String "T"%char r => z ← strconv.unsigned r; Some (true, z)
  | String "F"%char r => z ← strconv.unsigned r; Some (false, z)
  | _ => None
  end.

#[export] Instance requestStatusJSON : JSON TokenRequestStatus := {|
  Marshal st := Ok (encode (InProgress st) (LastRequestAt st));
  Unmarshal s :=
    match decode s with
    | Some (b, t) => Ok {| InProgress := b; LastRequestAt := t |}
    | None => Err "json: cannot unmarshal"
    end |}.

#[export] Instance coolStatusJSON : JSON TokenCoolStatus := {|
  Marshal st := Ok (encode (InCool st) (CoolEnd st));
  Unmarshal s :=
    match decode s with
    | Some (b, t) => Ok {| InCool := b; CoolEnd := t |}
    | None => Err "json: cannot unmarshal"
    end |}.

(** A codec that cannot encode, for the paths where [json.Marshal] fails. *)
Definition brokenCoolStatusJSON : JSON TokenCoolStatus := {|
  Marshal _ := Err "json: unsupported value";
  Unmarshal s := Err "json: cannot unmarshal" |}.

(** Some instant of the year 2025. *)
Definition t0 : Z := 63900000000000000000.

Definition healthy : Cmd → bool := fun _ => false.

Definition silent : string → string → string → Exchange :=
  fun _ _ _ => NoResponse "dial tcp: i/o timeout".

Definition world (d : gmap string Entry) (f : Cmd → bool)
  (net : string → string → string → Exchange) : World :=
  {| redis := d; faulty := f; mutexes := []; tokenLocks := ∅;
     uuid_src := fun n => "uuid-" ++ pretty n; uuid_used := 0;
     rand_src := fun n => n; rand_used := 0;
     upstream := net; trace := [] |}.

Definition credential (tenantURL : string) : Entry :=
  EHash {[ "tenant_url" := tenantURL; "status" := "active" ]}.

(** A pool of one credential that passes every filter. *)
Definition onlyA : gmap string Entry :=
  {[ "token:A" := credential "https://d1.api.augmentcode.com/" ]}.

(** A (available) and B (in cooldown for five more minutes). *)
Definition poolAB : gmap string Entry :=
  <[ "token:A" := credential "https://d1.api.augmentcode.com/" ]>
  (<[ "token:B" := credential "https://d2.api.augmentcode.com/" ]>
  {[ "token_cool_status:B" := EString (encode true (t0 + 5 * time.Minute)) (5 * time.Minute) ]}).

(** A with its agent quota used up, next to B. *)
Definition poolQuota : gmap string Entry :=
  <[ "token:A" := credential "https://d1.api.augmentcode.com/" ]>
  (<[ "token:B" := credential "https://d2.api.augmentcode.com/" ]>
  {[ "token_usage_agent:A" := EString "50" 0 ]}).

(** A without a tenant endpoint, next to B. *)
Definition poolNoEndpoint : gmap string Entry :=
  <[ "token:A" := EHash {[ "status" := "active" ]} ]>
  {[ "token:B" := credential "https://d2.api.augmentcode.com/" ]}.

(** A whose cooldown ended a second ago. *)
Definition poolExpired : gmap string Entry :=
  <[ "token:A" := credential "https://d1.api.augmentcode.com/" ]>
  {[ "token_cool_status:A" := EString (encode true (t0 - time.Second)) (5 * time.Minute) ]}.

(** A single credential, named like the sentinel. *)
Definition poolNamedNoToken : gmap string Entry :=
  {[ "token:No token" := credential "https://d1.api.augmentcode.com/" ]}.

(** A store that cannot enumerate keys. *)
Definition noKeys : Cmd → bool :=
  fun c => match c with KEYS _ => true | _ => false end.

(** A store that serves no GET. *)
Definition noGet : Cmd → bool :=
  fun c => match c with GET _ => true | _ => false end.

(** A store that refuses every SET. *)
Definition noSet : Cmd → bool :=
  fun c => match c with SET _ _ _ => true | _ => false end.

Definition request (keys : gmap string Any) : gin.Context :=
  {| gin.Path := "/v1/chat/completions"; gin.Keys := keys;
     gin.Written := None; gin.Aborted := false; gin.Passed := false |}.

Definition appConfig : AppConfig :=
  {| CodingMode := "false"; CodingToken := ""; TenantURL := "";
     RemoveFree := "true"; UserAgent := "augment2api" |}.

(** An upstream that answers 200 with an empty body on every endpoint. *)
Definition emptyBody : string → string → string → Exchange :=
  fun _ _ _ => Responds {| StatusCode := 200; chunk := ""; readErr := Some "EOF" |}.

(** An upstream whose d20 endpoint answers 200 with a body. *)
Definition d20Answers : string → string → string → Exchange :=
  fun url _ _ =>
    if String.eqb url "https://d20.api.augmentcode.com/chat-stream"
    then Responds {| StatusCode := 200; chunk := "data: hello"; readErr := None |}
    else NoResponse "dial tcp: i/o timeout".


(** A request on a route the middleware does not gate. *)
Definition modelsRequest : gin.Context :=
  {| gin.Path := "/v1/models"; gin.Keys := ∅;
     gin.Written := None; gin.Aborted := false; gin.Passed := false |}.

(** An upstream that turns every credential away. *)
Definition unauthorized : string → string → string → Exchange :=
  fun _ _ _ =>
    Responds {| StatusCode := 401; chunk := "Invalid token"; readErr := None |}.

(** A store that serves every EXISTS and HEXISTS. *)
Definition reachable : admin.Query → bool := fun _ => false.

(** A store that refuses to write the "remark" field. *)
Definition noRemark : Cmd → bool :=
  fun c => match c with HSET _ field _ => String.eqb field "remark" | _ => false end.

(** Five names in the descending order of the listing. *)
Definition fiveTokens : list string := ["e"; "d"; "c"; "b"; "a"].

End scenario.

(** * Properties *)

Import token.

#[local] Arguments string_drop : simpl never.
#[local] Arguments String.append : simpl never.

Section selection.
Context `{!JSON TokenRequestStatus} `{!JSON TokenCoolStatus}.

Lemma agree_entry_refl e : agree_entry e e.
Proof. destruct e as [[v t|h]|]; simpl; auto. Qed.

Lemma agree_entry_trans e1 e2 e3 :
  agree_entry e1 e2 → agree_entry e2 e3 → agree_entry e1 e3.
Proof.
  destruct e1 as [[v1 t1|h1]|], e2 as [[v2 t2|h2]|], e3 as [[v3 t3|h3]|];
    simpl; try tauto.
  - intros [-> ->] [-> ->]; auto.
  - intros H12 H23 f Hf. rewrite H12, H23; auto.
Qed.

Lemma agree_refl w : agree w w.
Proof. split; [reflexivity | intros k; apply agree_entry_refl]. Qed.

Lemma agree_trans w1 w2 w3 : agree w1 w2 → agree w2 w3 → agree w1 w3.
Proof.
  intros [Hf Hr] [Hf' Hr']. split; [congruence |].
  intros k. eapply agree_entry_trans; eauto.
Qed.

Lemma agree_emit w0 w e : agree w0 w → agree w0 (emit e w).
Proof. intros [Hf Hr]. split; simpl; auto. Qed.

Lemma agree_uuid w0 w n : agree w0 w → agree w0 (set_uuid_used n w).
Proof. intros [Hf Hr]. split; simpl; auto. Qed.

Lemma agree_rand w0 w n : agree w0 w → agree w0 (set_rand_used n w).
Proof. intros [Hf Hr]. split; simpl; auto. Qed.

Lemma lookup_string_agree w0 w k :
  agree w0 w → config.lookup_string w k = config.lookup_string w0 k.
Proof.
  intros [Hf Hr]. unfold config.lookup_string. rewrite Hf.
  specialize (Hr k).
  destruct (redis w0 !! k) as [[v t|h]|], (redis w !! k) as [[v' t'|h']|];
    simpl in Hr; try tauto.
  destruct Hr as [-> ->]. reflexivity.
Qed.

Lemma lookup_field_agree w0 w k f :
  agree w0 w → f ≠ "session_id" →
  config.lookup_field w k f = config.lookup_field w0 k f.
Proof.
  intros [Hf Hr] Hne. unfold config.lookup_field. rewrite Hf.
  specialize (Hr k).
  destruct (redis w0 !! k) as [[v t|h]|], (redis w !! k) as [[v' t'|h']|];
    simpl in Hr; try tauto.
  rewrite (Hr f Hne). reflexivity.
Qed.

(** Writing the "session_id" field of a hash keeps the worlds in
    agreement. *)
Lemma agree_session w0 w key sessionID :
  agree w0 w →
  is_ok (config.lookup_field w key "tenant_url") = true →
  agree w0 (config.RedisHSet key "session_id" sessionID w).2.
Proof.
  intros Hag Hurl. unfold config.RedisHSet.
  destruct (faulty w _); [apply agree_emit, Hag|].
  unfold config.lookup_field in Hurl.
  destruct (faulty w (HGET _ _)); [discriminate|].
  destruct (redis w !! key) as [[v t|h]|] eqn:Hk; try discriminate.
  destruct Hag as [Hf Hr]. split; [exact Hf|]. simpl.
  intros k. destruct (decide (key = k)) as [<-|Hne].
  - rewrite lookup_insert_eq. specialize (Hr key). rewrite Hk in Hr.
    destruct (redis w0 !! key) as [[v' t'|h']|]; simpl in *; try tauto.
    intros f Hfne. rewrite lookup_insert_ne by congruence. auto.
  - rewrite lookup_insert_ne by exact Hne. apply Hr.
Qed.

Lemma requestStatusOf_agree w0 w token :
  agree w0 w → requestStatusOf w token = requestStatusOf w0 token.
Proof.
  intros Hag. unfold requestStatusOf, GetTokenRequestStatus, bind, config.RedisGet.
  rewrite (lookup_string_agree w0 w _ Hag).
  destruct (config.lookup_string w0 _); simpl; [|reflexivity].
  destruct (Unmarshal a); reflexivity.
Qed.

Lemma coolStatusOf_agree now w0 w token :
  agree w0 w → coolStatusOf now w token = coolStatusOf now w0 token.
Proof.
  intros Hag. unfold coolStatusOf, GetTokenCoolStatus, bind, config.RedisGet.
  rewrite (lookup_string_agree w0 w _ Hag).
  destruct (config.lookup_string w0 _); simpl; [|reflexivity].
  destruct (Unmarshal a); [|reflexivity].
  destruct (_ && _); reflexivity.
Qed.

Lemma chatUsageCount_agree w0 w token :
  agree w0 w → chatUsageCount w token = chatUsageCount w0 token.
Proof.
  intros Hag. unfold chatUsageCount, getTokenChatUsageCount, bind, config.RedisGet.
  rewrite (lookup_string_agree w0 w _ Hag).
  destruct (config.lookup_string w0 _); reflexivity.
Qed.

Lemma agentUsageCount_agree w0 w token :
  agree w0 w → agentUsageCount w token = agentUsageCount w0 token.
Proof.
  intros Hag. unfold agentUsageCount, getTokenAgentUsageCount, bind, config.RedisGet.
  rewrite (lookup_string_agree w0 w _ Hag).
  destruct (config.lookup_string w0 _); reflexivity.
Qed.

(** The getters change nothing but the trace. *)
Lemma GetTokenRequestStatus_run token w :
  GetTokenRequestStatus token w =
  (requestStatusOf w token, emit (EvRedis (GET ("token_status:" ++ token))) w).
Proof.
  unfold requestStatusOf, GetTokenRequestStatus, bind, config.RedisGet.
  destruct (config.lookup_string w _); simpl; [|reflexivity].
  destruct (Unmarshal a); reflexivity.
Qed.

Lemma GetTokenCoolStatus_run now token w :
  GetTokenCoolStatus now token w =
  (coolStatusOf now w token, emit (EvRedis (GET ("token_cool_status:" ++ token))) w).
Proof.
  unfold coolStatusOf, GetTokenCoolStatus, bind, config.RedisGet.
  destruct (config.lookup_string w _); simpl; [|reflexivity].
  destruct (Unmarshal a); [|reflexivity].
  destruct (_ && _); reflexivity.
Qed.

Lemma getTokenChatUsageCount_run token w :
  getTokenChatUsageCount token w =
  (chatUsageCount w token, emit (EvRedis (GET ("token_usage_chat:" ++ token))) w).
Proof.
  unfold chatUsageCount, getTokenChatUsageCount, bind, config.RedisGet.
  destruct (config.lookup_string w _); reflexivity.
Qed.

Lemma getTokenAgentUsageCount_run token w :
  getTokenAgentUsageCount token w =
  (agentUsageCount w token, emit (EvRedis (GET ("token_usage_agent:" ++ token))) w).
Proof.
  unfold agentUsageCount, getTokenAgentUsageCount, bind, config.RedisGet.
  destruct (config.lookup_string w _); reflexivity.
Qed.

Lemma scanKey_spec now exclude key q w0 w :
  agree w0 w →
  ∃ sessionID,
    (scanKey now exclude key q w).1 =
      (if inAvailable now exclude w0 key
       then appendAvailable (tokenOf key) (urlOf w0 key) sessionID q
       else if inCooling now exclude w0 key
       then appendCooldown (tokenOf key) (urlOf w0 key) sessionID q
       else q) ∧
    agree w0 (scanKey now exclude key q w).2.
Proof.
  intros Hag.
  unfold inAvailable, inCooling, eligible, idle, overQuota, cooling, disabled, urlOf, tenantEndpoint.
  unfold scanKey, bind, config.RedisHGet.
  rewrite (lookup_field_agree w0 w key "status" Hag) by discriminate.
  destruct (match config.lookup_field w0 key "status" with Ok s => _ | Err _ => _ end) eqn:Hdis; simpl.
  { exists "". split; [reflexivity | apply agree_emit, Hag]. }
  fold (tokenOf key). unfold excluded.
  destruct (match exclude with Some x => _ | None => _ end) eqn:Hex; simpl.
  { exists "". split; [reflexivity | apply agree_emit, Hag]. }
  rewrite GetTokenRequestStatus_run.
  set (w1 := emit _ w). assert (Hag1 : agree w0 w1) by apply agree_emit, Hag.
  rewrite (requestStatusOf_agree w0 w1 _ Hag1).
  set (w2 := emit _ w1). assert (Hag2 : agree w0 w2) by apply agree_emit, Hag1.
  destruct (requestStatusOf w0 (tokenOf key)) as [st|e]; simpl;
    [| exists ""; split; [reflexivity | exact Hag2] ].
  destruct (InProgress st); simpl;
    [ exists ""; split; [reflexivity | exact Hag2] |].
  destruct (time.Since now (LastRequestAt st) <? 3 * time.Second)%Z; simpl;
    [ exists ""; split; [reflexivity | exact Hag2] |].
  rewrite getTokenChatUsageCount_run.
  rewrite getTokenAgentUsageCount_run.
  set (w3 := emit _ w2). assert (Hag3 : agree w0 w3) by apply agree_emit, Hag2.
  set (w4 := emit _ w3). assert (Hag4 : agree w0 w4) by apply agree_emit, Hag3.
  rewrite (chatUsageCount_agree w0 w2 _ Hag2).
  rewrite (agentUsageCount_agree w0 w3 _ Hag3).
  destruct (3000 <=? chatUsageCount w0 (tokenOf key))%Z; simpl;
    [ exists ""; split; [reflexivity | exact Hag4] |].
  destruct (50 <=? agentUsageCount w0 (tokenOf key))%Z; simpl;
    [ exists ""; split; [reflexivity | exact Hag4] |].
  pose proof (lookup_field_agree w0 w4 key "tenant_url" Hag4 ltac:(discriminate)) as Hurl.
  rewrite Hurl.
  set (w5 := emit _ w4). assert (Hag5 : agree w0 w5) by apply agree_emit, Hag4.
  destruct (config.lookup_field w0 key "tenant_url") as [url|e] eqn:Hu; simpl;
    [| exists ""; split; [reflexivity | exact Hag5] ].
  set (w6 := emit _ w5). assert (Hag6 : agree w0 w6) by apply agree_emit, Hag5.
  destruct (config.lookup_field w5 key "session_id") as [sid|e] eqn:Hsid.
  - unfold ret. rewrite GetTokenCoolStatus_run.
    rewrite (coolStatusOf_agree now w0 w6 _ Hag6).
    set (w7 := emit _ w6). assert (Hag7 : agree w0 w7) by apply agree_emit, Hag6.
    exists sid.
    destruct (coolStatusOf now w0 (tokenOf key)) as [cs|e']; simpl;
      [| split; [reflexivity | exact Hag7] ].
    destruct (InCool cs); simpl; split; try reflexivity; exact Hag7.
  - unfold bind, ret, uuid_New.
    set (w7 := set_uuid_used _ w6).
    assert (Hag7 : agree w0 w7) by apply agree_uuid, Hag6.
    pose proof (agree_session w0 w7 key (uuid_src w6 (uuid_used w6)) Hag7) as Hag8.
    destruct (config.RedisHSet key "session_id" _ w7) as [err w8] eqn:Hset.
    simpl in Hag8.
    assert (Hag8' : agree w0 w8).
    { apply Hag8. change (config.lookup_field w7 key "tenant_url") with (config.lookup_field w4 key "tenant_url").
      rewrite Hurl. reflexivity. }
    rewrite GetTokenCoolStatus_run.
    rewrite (coolStatusOf_agree now w0 w8 _ Hag8').
    set (w9 := emit _ w8). assert (Hag9 : agree w0 w9) by apply agree_emit, Hag8'.
    exists (uuid_src w6 (uuid_used w6)).
    destruct (coolStatusOf now w0 (tokenOf key)) as [cs|e']; simpl;
      [| split; [reflexivity | exact Hag9] ].
    destruct (InCool cs); simpl; split; try reflexivity; exact Hag9.
Qed.

Lemma inAvailable_not_inCooling now exclude w key :
  inAvailable now exclude w key = true → inCooling now exclude w key = false.
Proof.
  unfold inAvailable, inCooling.
  destruct (eligible now exclude w key); [|discriminate]. simpl.
  destruct (cooling now w (tokenOf key)) as [[|]|]; congruence.
Qed.

(** The queues after the loop: the keys that pass the filter, in
    enumeration order, split by cooldown. *)
Lemma scanKeys_spec now exclude keys : ∀ q w0 w,
  agree w0 w →
  let r := scanKeys now exclude keys q w in
  agree w0 r.2 ∧
  availableTokens r.1 =
    (availableTokens q ++ (tokenOf <$> List.filter (inAvailable now exclude w0) keys))%list ∧
  availableTenantURLs r.1 =
    (availableTenantURLs q ++ (urlOf w0 <$> List.filter (inAvailable now exclude w0) keys))%list ∧
  cooldownTokens r.1 =
    (cooldownTokens q ++ (tokenOf <$> List.filter (inCooling now exclude w0) keys))%list ∧
  cooldownTenantURLs r.1 =
    (cooldownTenantURLs q ++ (urlOf w0 <$> List.filter (inCooling now exclude w0) keys))%list.
Proof.
  induction keys as [|key keys IH]; intros q w0 w Hag; simpl.
  - rewrite !app_nil_r. auto using agree_refl.
  - unfold bind.
    destruct (scanKey_spec now exclude key q w0 w Hag) as (sid & Hq & Hag').
    destruct (scanKey now exclude key q w) as [q' w']. simpl in Hq, Hag'.
    specialize (IH q' w0 w' Hag'). simpl in IH.
    destruct IH as (Hag'' & Ha & Hau & Hc & Hcu).
    split; [exact Hag''|].
    rewrite Ha, Hau, Hc, Hcu, Hq.
    destruct (inAvailable now exclude w0 key) eqn:Hav.
    + rewrite (inAvailable_not_inCooling _ _ _ _ Hav). simpl.
      rewrite <- !app_assoc. auto.
    + destruct (inCooling now exclude w0 key); simpl;
        rewrite <- ?app_assoc; auto.
Qed.

Lemma rand_Intn_lt n w : (0 < n)%nat → ((rand_Intn n w).1 < n)%nat.
Proof. intros Hn. simpl. apply Nat.mod_upper_bound. lia. Qed.

Lemma nth_fmap_lookup {A} (f : A → string) (l : list A) (i : nat) :
  (i < List.length l)%nat →
  ∃ x, l !! i = Some x ∧ nth i (f <$> l) "" = f x.
Proof.
  intros Hi. destruct (lookup_lt_is_Some_2 l i Hi) as [x Hx].
  exists x. split; [exact Hx|].
  apply nth_lookup_Some with (d := ""). rewrite list_lookup_fmap, Hx. reflexivity.
Qed.

Lemma filter_nil_all {A} (f : A → bool) (l : list A) :
  List.filter f l = [] → ∀ x, x ∈ l → f x = false.
Proof.
  intros Hnil x Hx. destruct (f x) eqn:Hfx; [|reflexivity].
  assert (Hin : In x (List.filter f l)).
  { apply filter_In. split; [apply list_elem_of_In, Hx | exact Hfx]. }
  rewrite Hnil in Hin. destruct Hin.
Qed.

Lemma lookup_filter_elem {A} (f : A → bool) (l : list A) i x :
  List.filter f l !! i = Some x → x ∈ l ∧ f x = true.
Proof.
  intros Hx. apply list_elem_of_lookup_2, list_elem_of_In, filter_In in Hx.
  destruct Hx as [Hin Hf]. split; [apply list_elem_of_In, Hin | exact Hf].
Qed.

(** Whatever the random draw, the selection follows the result policy. *)
Theorem selectToken_yields now exclude w :
  Yields now exclude w (selectToken now exclude w).1.
Proof.
  unfold selectToken, selectAmong, bind, config.RedisKeys.
  destruct (faulty w (KEYS "token:*")) eqn:Hk; [apply yields_unreadable, Hk|].
  fold (pool w).
  destruct (pool w) as [|k0 ks] eqn:Hp; [apply yields_empty; auto|].
  rewrite <- Hp. replace (List.length (pool w) =? 0)%nat with false
    by (rewrite Hp; reflexivity).
  assert (Hag : agree w (emit (EvRedis (KEYS "token:*")) w))
    by apply agree_emit, agree_refl.
  pose proof (scanKeys_spec now exclude (pool w) noQueues w _ Hag) as Hs.
  destruct (scanKeys now exclude (pool w) noQueues _) as [q w']. simpl in Hs.
  destruct Hs as (_ & Ha & Hau & Hc & Hcu).
  unfold choose. rewrite Ha, Hau, Hc, Hcu.
  set (A := List.filter (inAvailable now exclude w) (pool w)).
  set (C := List.filter (inCooling now exclude w) (pool w)).
  rewrite !length_fmap.
  destruct (0 <? List.length A)%nat eqn:HA.
  - apply Nat.ltb_lt in HA. unfold bind, ret.
    pose proof (rand_Intn_lt (List.length A) w' HA) as Hi.
    destruct (rand_Intn (List.length A) w') as [i w'']. simpl in Hi |- *.
    destruct (nth_fmap_lookup tokenOf A i Hi) as (key & Hkey & ->).
    destruct (nth_fmap_lookup (urlOf w) A i Hi) as (key' & Hkey' & ->).
    assert (key' = key) as -> by congruence.
    apply lookup_filter_elem in Hkey as [Hin Hav].
    apply yields_available; auto.
  - apply Nat.ltb_ge in HA.
    assert (HAnil : A = []) by (destruct A; simpl in HA; [reflexivity | lia]).
    destruct (0 <? List.length C)%nat eqn:HC.
    + apply Nat.ltb_lt in HC. unfold bind, ret.
      pose proof (rand_Intn_lt (List.length C) w' HC) as Hi.
      destruct (rand_Intn (List.length C) w') as [i w'']. simpl in Hi |- *.
      destruct (nth_fmap_lookup tokenOf C i Hi) as (key & Hkey & ->).
      destruct (nth_fmap_lookup (urlOf w) C i Hi) as (key' & Hkey' & ->).
      assert (key' = key) as -> by congruence.
      apply lookup_filter_elem in Hkey as [Hin Hco].
      apply yields_cooling; auto.
      apply filter_nil_all, HAnil.
    + apply Nat.ltb_ge in HC.
      assert (HCnil : C = []) by (destruct C; simpl in HC; [reflexivity | lia]).
      unfold ret. simpl. apply yields_saturated; auto.
      * rewrite Hp. discriminate.
      * apply filter_nil_all, HAnil.
      * apply filter_nil_all, HCnil.
Qed.
(** Every enumerated key is "token:" followed by its credential. *)
Lemma glob_token key :
  config.glob "token:*" key = true → key = "token:" ++ string_drop 6 key.
Proof.
  intros Hg.
  do 6 (destruct key as [|? key]; [discriminate Hg|];
        cbn [config.glob] in Hg; apply andb_prop in Hg as [Hc Hg];
        apply Ascii.eqb_eq in Hc; subst).
  reflexivity.
Qed.

Lemma pool_key w key : key ∈ pool w → key = "token:" ++ tokenOf key.
Proof.
  unfold pool, config.keys_of. intros Hin.
  apply list_elem_of_In, filter_In in Hin as [_ Hg].
  apply glob_token, Hg.
Qed.

Lemma tokenOf_key token : tokenOf ("token:" ++ token) = token.
Proof. reflexivity. Qed.

Lemma returned_inv sel t u s :
  returned sel = (t, u, s) → sel = Chosen t u s ∨ isSentinel (t, u, s).
Proof.
  destruct sel; simpl; intros Hr.
  - right. left. symmetry. exact Hr.
  - right. right. symmetry. exact Hr.
  - left. congruence.
Qed.

Lemma SelectionAlgorithm_returned now exclude w :
  (SelectionAlgorithm now exclude w).1 = returned (selectToken now exclude w).1.
Proof.
  unfold SelectionAlgorithm, GetAvailableToken, GetNextAvailableToken, bind, ret.
  destruct exclude; destruct (selectToken now _ w); reflexivity.
Qed.

(** A chosen credential sits in one of the two partitions. *)
Lemma Yields_Chosen now exclude w t u s :
  Yields now exclude w (Chosen t u s) →
  ∃ key, key ∈ pool w ∧ tokenOf key = t ∧ urlOf w key = u ∧
         (inAvailable now exclude w key = true ∨
          inCooling now exclude w key = true ∧
          ∀ k, k ∈ pool w → inAvailable now exclude w k = false).
Proof.
  inversion 1; subst; exists key; auto 10.
Qed.

Lemma inAvailable_cooling now exclude w key :
  inAvailable now exclude w key = true →
  eligible now exclude w key = true ∧ cooling now w (tokenOf key) = Some false.
Proof.
  unfold inAvailable. intros Hav. apply andb_prop in Hav as [He Hc].
  split; [exact He|]. destruct (cooling now w (tokenOf key)) as [[|]|]; congruence.
Qed.

Lemma inCooling_cooling now exclude w key :
  inCooling now exclude w key = true →
  eligible now exclude w key = true ∧ cooling now w (tokenOf key) = Some true.
Proof.
  unfold inCooling. intros Hav. apply andb_prop in Hav as [He Hc].
  split; [exact He|]. destruct (cooling now w (tokenOf key)) as [[|]|]; congruence.
Qed.

(** A key that fails the filter is never the one chosen. *)
Lemma ineligible_never_chosen now exclude w token :
  (∀ key, key ∈ pool w → tokenOf key = token → eligible now exclude w key = false) →
  (∀ u s, (selectToken now exclude w).1 ≠ Chosen token u s) ∧
  ((SelectionAlgorithm now exclude w).1.1.1 = token →
   isSentinel (SelectionAlgorithm now exclude w).1).
Proof.
  intros Hinel.
  assert (Hno : ∀ u s, (selectToken now exclude w).1 ≠ Chosen token u s).
  { intros u s Hsel.
    pose proof (selectToken_yields now exclude w) as Hy. rewrite Hsel in Hy.
    apply Yields_Chosen in Hy as (key & Hin & Htok & _ & Hpart).
    specialize (Hinel key Hin Htok).
    destruct Hpart as [Hav | [Hco _]].
    - apply inAvailable_cooling in Hav as [He _]. congruence.
    - apply inCooling_cooling in Hco as [He _]. congruence. }
  split; [exact Hno|].
  rewrite SelectionAlgorithm_returned.
  destruct (returned _) as [[t u] s] eqn:Hr. simpl. intros ->.
  apply returned_inv in Hr as [Hsel | Hs]; [|exact Hs].
  exfalso. exact (Hno u s Hsel).
Qed.

(** ** C1 *)

(** C1. If some eligible credential is not in cooldown, the selection
    (either function) yields such a credential, or the pool-unreadable
    answer when the enumeration itself fails; in particular a chosen
    credential is never in cooldown.  Conversely a credential in cooldown
    is chosen only when no eligible credential is out of cooldown. *)
Theorem C1_available_preferred now exclude w :
  ((∃ key, key ∈ pool w ∧ inAvailable now exclude w key = true) →
   (∀ t u s, (selectToken now exclude w).1 = Chosen t u s →
             cooling now w t = Some false) ∧
   let r := (SelectionAlgorithm now exclude w).1 in
   (faulty w (KEYS "token:*") = true ∧ r = returned NoToken) ∨
   (∃ key s, key ∈ pool w ∧ inAvailable now exclude w key = true ∧
             cooling now w (tokenOf key) = Some false ∧
             r = (tokenOf key, urlOf w key, s))) ∧
  (∀ t u s, (selectToken now exclude w).1 = Chosen t u s →
            cooling now w t = Some true →
            ∀ key, key ∈ pool w → inAvailable now exclude w key = false).
Proof.
  pose proof (selectToken_yields now exclude w) as Hy.
  split.
  - intros (key0 & Hin0 & Hav0).
    assert (Hchosen : ∀ t u s, (selectToken now exclude w).1 = Chosen t u s →
              ∃ key, key ∈ pool w ∧ inAvailable now exclude w key = true ∧
                     tokenOf key = t ∧ urlOf w key = u).
    { intros t u s Hsel. rewrite Hsel in Hy.
      apply Yields_Chosen in Hy as (key & Hin & Htok & Hurl & Hpart).
      destruct Hpart as [Hav | [_ Hnone]].
      - exists key. auto.
      - rewrite (Hnone key0 Hin0) in Hav0. discriminate. }
    split.
    + intros t u s Hsel.
      destruct (Hchosen t u s Hsel) as (key & _ & Hav & <- & _).
      apply inAvailable_cooling in Hav as [_ Hc]. exact Hc.
    + rewrite SelectionAlgorithm_returned.
      destruct ((selectToken now exclude w).1) as [| |t u s] eqn:Hsel.
      * left. split; [|reflexivity].
        inversion Hy as [Hf|Hf Hp| | |]; [exact Hf|].
        rewrite Hp in Hin0. inversion Hin0.
      * exfalso. inversion Hy as [| | | |Hf Hp Hnone _].
        rewrite (Hnone key0 Hin0) in Hav0. discriminate.
      * right. destruct (Hchosen t u s eq_refl) as (key & Hin & Hav & <- & <-).
        exists key, s. repeat split; auto.
        apply inAvailable_cooling in Hav as [_ Hc]. exact Hc.
  - intros t u s Hsel Hcool key Hin.
    rewrite Hsel in Hy.
    apply Yields_Chosen in Hy as (key' & Hin' & Htok & _ & Hpart).
    destruct Hpart as [Hav | [_ Hnone]]; [|auto].
    apply inAvailable_cooling in Hav as [_ Hc]. congruence.
Qed.

(** ** C3 *)

(** C3. A credential whose chat count has reached 3000 or whose agent
    count has reached 50 is never chosen, by either function, whatever
    its cooldown and request status: if its name comes back at all, what
    came back is one of the two sentinels. *)
Theorem C3_quota_disqualifies now exclude w token :
  (3000 ≤ chatUsageCount w token ∨ 50 ≤ agentUsageCount w token)%Z →
  (∀ u s, (selectToken now exclude w).1 ≠ Chosen token u s) ∧
  ((SelectionAlgorithm now exclude w).1.1.1 = token →
   isSentinel (SelectionAlgorithm now exclude w).1).
Proof.
  intros Hq. apply ineligible_never_chosen.
  intros key _ Htok. unfold eligible, overQuota. rewrite Htok.
  assert (Hover : ((3000 <=? chatUsageCount w token)%Z
                   || (50 <=? agentUsageCount w token)%Z) = true).
  { apply orb_true_iff. destruct Hq; [left | right]; apply Z.leb_le; assumption. }
  rewrite Hover. rewrite andb_false_r. reflexivity.
Qed.

(** ** C2 *)

Lemma eligible_exclude now x w key :
  eligible now (Some x) w key =
  eligible now None w key && negb (String.eqb (tokenOf key) x).
Proof.
  unfold eligible, excluded.
  destruct (disabled w key), (tokenOf key =? x), (idle now w (tokenOf key)),
    (overQuota w (tokenOf key)), (is_ok (tenantEndpoint w key)); reflexivity.
Qed.

(** C2. [GetNextAvailableToken] never chooses the excluded credential; when
    the excluded credential is the only one that would pass the filter,
    the answer is "No available token". *)
Theorem C2_exclusion_respected now X w :
  (∀ u s, (selectToken now (Some X) w).1 ≠ Chosen X u s) ∧
  ((GetNextAvailableToken now X w).1.1.1 = X →
   isSentinel (GetNextAvailableToken now X w).1) ∧
  (faulty w (KEYS "token:*") = false →
   "token:" ++ X ∈ pool w →
   (∀ key, key ∈ pool w → eligible now None w key = true → tokenOf key = X) →
   (GetNextAvailableToken now X w).1 = ("No available token", "", "")).
Proof.
  assert (Hinel : ∀ key, key ∈ pool w → tokenOf key = X →
                         eligible now (Some X) w key = false).
  { intros key _ Htok. rewrite eligible_exclude, Htok, String.eqb_refl.
    apply andb_false_r. }
  destruct (ineligible_never_chosen now (Some X) w X Hinel) as [Hno Hs].
  split; [exact Hno|]. split; [exact Hs|].
  intros Hf HX Honly.
  change (GetNextAvailableToken now X w) with (SelectionAlgorithm now (Some X) w).
  rewrite SelectionAlgorithm_returned.
  pose proof (selectToken_yields now (Some X) w) as Hy.
  assert (Hnone : ∀ key, key ∈ pool w → eligible now (Some X) w key = false).
  { intros key Hin. rewrite eligible_exclude.
    destruct (eligible now None w key) eqn:He; [|reflexivity].
    rewrite (Honly key Hin He), String.eqb_refl. reflexivity. }
  inversion Hy as [Hf'|Hf' Hp|key s Hf' Hin Hav|key s Hf' _ Hin Hco|]; subst.
  - congruence.
  - rewrite Hp in HX. inversion HX.
  - apply inAvailable_cooling in Hav as [He _]. rewrite (Hnone key Hin) in He. discriminate.
  - apply inCooling_cooling in Hco as [He _]. rewrite (Hnone key Hin) in He. discriminate.
  - reflexivity.
Qed.

(** ** C7 *)

(** C7. A credential without a recorded tenant endpoint enters neither
    queue of the loop and is never chosen. *)
Theorem C7_endpoint_required now exclude w token :
  is_ok (tenantEndpoint w ("token:" ++ token)) = false →
  (let q := (scanKeys now exclude (pool w) noQueues
               (emit (EvRedis (KEYS "token:*")) w)).1 in
   (token ∉ availableTokens q) ∧ (token ∉ cooldownTokens q)) ∧
  (∀ u s, (selectToken now exclude w).1 ≠ Chosen token u s) ∧
  ((SelectionAlgorithm now exclude w).1.1.1 = token →
   isSentinel (SelectionAlgorithm now exclude w).1).
Proof.
  intros Hno.
  assert (Hinel : ∀ key, key ∈ pool w → tokenOf key = token →
                         eligible now exclude w key = false).
  { intros key Hin Htok. apply pool_key in Hin. rewrite Htok in Hin. subst key.
    unfold eligible. rewrite Hno. apply andb_false_r. }
  split; [|apply ineligible_never_chosen, Hinel].
  assert (Hag : agree w (emit (EvRedis (KEYS "token:*")) w))
    by apply agree_emit, agree_refl.
  destruct (scanKeys_spec now exclude (pool w) noQueues w _ Hag)
    as (_ & Ha & _ & Hc & _).
  cbv zeta. rewrite Ha, Hc. simpl.
  split; intros Hin; apply list_elem_of_fmap in Hin as (key & Htok & Hk);
    apply list_elem_of_In, filter_In in Hk as [Hk Hpart];
    apply list_elem_of_In in Hk; symmetry in Htok.
  - apply inAvailable_cooling in Hpart as [He _].
    rewrite (Hinel key Hk Htok) in He. discriminate.
  - apply inCooling_cooling in Hpart as [He _].
    rewrite (Hinel key Hk Htok) in He. discriminate.
Qed.

(** ** C5 *)

(** A chosen credential comes from a pool key of its name that the
    loop filed in a queue, with the endpoint the store holds for it. *)
Lemma Chosen_filed now exclude w t u s :
  (selectToken now exclude w).1 = Chosen t u s →
  faulty w (KEYS "token:*") = false ∧
  "token:" ++ t ∈ pool w ∧
  (inAvailable now exclude w ("token:" ++ t) = true ∨
   inCooling now exclude w ("token:" ++ t) = true) ∧
  config.lookup_field w ("token:" ++ t) "tenant_url" = Ok u.
Proof.
  intros Hsel.
  pose proof (selectToken_yields now exclude w) as Hy. rewrite Hsel in Hy.
  assert (Hf : faulty w (KEYS "token:*") = false) by (inversion Hy; assumption).
  apply Yields_Chosen in Hy as (key & Hin & Htok & Hurl & Hpart).
  pose proof (pool_key w key Hin) as Hkey. rewrite Htok in Hkey. subst key.
  split; [exact Hf|]. split; [exact Hin|].
  assert (He : eligible now exclude w ("token:" ++ t) = true).
  { destruct Hpart as [Hav | [Hco _]].
    - apply inAvailable_cooling in Hav as [He _]. exact He.
    - apply inCooling_cooling in Hco as [He _]. exact He. }
  split; [destruct Hpart as [Hav | [Hco _]]; auto|].
  unfold eligible in He. apply andb_prop in He as [_ Hep].
  unfold urlOf, tenantEndpoint in Hurl, Hep.
  destruct (config.lookup_field w ("token:" ++ t) "tenant_url"); [|discriminate].
  congruence.
Qed.

(** The token string the caller receives is a sentinel's text when the
    sentinel was returned, or when the credential chosen bears that
    name. *)
Lemma returned_token sel sentinel :
  (returned sel).1.1 = sentinel ↔
  (sel = NoToken ∧ sentinel = "No token") ∨
  (sel = NoAvailableToken ∧ sentinel = "No available token") ∨
  ∃ u s, sel = Chosen sentinel u s.
Proof.
  destruct sel as [| |t u s]; cbn [returned fst].
  - split; [auto | intros [[_ ->] | [[? _] | (u & s & ?)]]; [reflexivity | discriminate..]].
  - split; [auto | intros [[? _] | [[_ ->] | (u & s & ?)]]; [discriminate | reflexivity | discriminate]].
  - split; [intros <-; eauto | intros [[? _] | [[? _] | (u' & s' & [= -> _ _])]];
      [discriminate | discriminate | reflexivity]].
Qed.

(** What the middleware does with the strings of [GetAvailableToken]:
    the token string alone decides between the two messages. *)
Lemma middleware_on_strings cfg now c w :
  negb (HasSuffix (gin.Path c) "/chat/completions") &&
  negb (HasSuffix (gin.Path c) "/messages") = false →
  String.eqb (CodingMode cfg) "true" = false →
  let tokenStr := (GetAvailableToken now w).1.1.1 in
  let tenantURL := (GetAvailableToken now w).1.1.2 in
  let w' := (GetAvailableToken now w).2 in
  (tokenStr = "No token" →
   middleware.TokenConcurrencyMiddleware cfg now c w =
     Returns (gin.Abort (gin.JSON 429 "当前无可用token，请在页面添加" c)) w') ∧
  (tokenStr ≠ "No token" →
   tokenStr = "No available token" ∨ tenantURL = "" →
   middleware.TokenConcurrencyMiddleware cfg now c w =
     Returns (gin.Abort (gin.JSON 429 "当前请求过多，请稍后再试" c)) w') ∧
  (gin.Passed c = false →
   ∀ c' w'', middleware.TokenConcurrencyMiddleware cfg now c w = Returns c' w'' →
     (c' = gin.Abort (gin.JSON 429 "当前无可用token，请在页面添加" c) →
      tokenStr = "No token") ∧
     (c' = gin.Abort (gin.JSON 429 "当前请求过多，请稍后再试" c) →
      tokenStr ≠ "No token" ∧ (tokenStr = "No available token" ∨ tenantURL = ""))).
Proof.
  intros Hpath Hmode. cbv zeta.
  remember (middleware.TokenConcurrencyMiddleware cfg now c w) as run eqn:Hrun.
  unfold middleware.TokenConcurrencyMiddleware in Hrun. rewrite Hpath, Hmode in Hrun.
  unfold andThen at 1, lift at 1 in Hrun.
  destruct (GetAvailableToken now w) as [[[tokenStr tenantURL] sessionID] w1].
  cbn [fst snd]. cbv beta iota in Hrun.
  destruct (String.eqb_spec tokenStr "No token") as [Hno | Hno].
  { unfold done in Hrun. subst run.
    split; [reflexivity|]. split; [contradiction|].
    intros _ c' w'' [= <- _]. split; [auto|].
    intros Heq. apply (f_equal gin.Written) in Heq. discriminate Heq. }
  split; [contradiction|].
  destruct (String.eqb tokenStr "No available token" || String.eqb tenantURL "") eqn:Hsat.
  { unfold done in Hrun. subst run.
    split; [reflexivity|].
    intros _ c' w'' [= <- _]. split.
    - intros Heq. apply (f_equal gin.Written) in Heq. discriminate Heq.
    - intros _. split; [exact Hno|].
      apply orb_prop in Hsat as [H | H]; apply String.eqb_eq in H; auto. }
  apply orb_false_iff in Hsat as [Hnat Hurl].
  apply String.eqb_neq in Hnat, Hurl.
  split; [intros _ [? | ?]; contradiction|].
  intros Hpassed c' w''. subst run.
  unfold andThen, lift.
  destruct (GetTokenLock tokenStr w1) as [lock w2]. cbv beta iota.
  destruct (Lock lock w2) as [[] w3|m w3|e w3]; try discriminate.
  destruct (SetTokenRequestStatus tokenStr _ w3) as [[e|] w4]; cbv beta iota.
  - destruct (Unlock lock w4) as [[] w5|m w5|e' w5]; try discriminate.
    unfold done. intros [= <- _].
    split; intros Heq; apply (f_equal gin.Written) in Heq; discriminate Heq.
  - unfold log, done. intros [= <- _].
    split; intros Heq; apply (f_equal gin.Passed) in Heq; cbn in Heq; congruence.
Qed.

(** C5, as the code has it, on the strings the caller receives.  The
    answer is ("No token", "", "") whenever the enumeration of the pool
    fails or finds no key, and ("No available token", "", "") whenever
    the enumeration finds keys and the loop files none of them in a
    queue.  Conversely the token string returned is a sentinel's text only
    in that sentinel's case or when the credential chosen bears that
    name, its key being in the pool and filed in a queue; so when no key
    of the pool bears a sentinel's name, each sentinel is returned exactly
    in its case.  The middleware tells the cases apart by the token string
    alone: the pool-empty message exactly when it is "No token", the
    saturation message exactly when it is not and either is "No available
    token" or comes with an empty endpoint. *)
Theorem C5_sentinels now exclude w :
  ((selectToken now exclude w).1 = NoToken ↔
   faulty w (KEYS "token:*") = true ∨ pool w = []) ∧
  ((selectToken now exclude w).1 = NoAvailableToken ↔
   faulty w (KEYS "token:*") = false ∧ pool w ≠ [] ∧
   ∀ key, key ∈ pool w →
          inAvailable now exclude w key = false ∧
          inCooling now exclude w key = false) ∧
  (SelectionAlgorithm now exclude w).1 = returned (selectToken now exclude w).1 ∧
  (faulty w (KEYS "token:*") = true ∨ pool w = [] →
   (SelectionAlgorithm now exclude w).1 = ("No token", "", "")) ∧
  (faulty w (KEYS "token:*") = false ∧ pool w ≠ [] ∧
   (∀ key, key ∈ pool w →
           inAvailable now exclude w key = false ∧
           inCooling now exclude w key = false) →
   (SelectionAlgorithm now exclude w).1 = ("No available token", "", "")) ∧
  ((SelectionAlgorithm now exclude w).1.1.1 = "No token" ↔
   (faulty w (KEYS "token:*") = true ∨ pool w = []) ∨
   ∃ u s, (selectToken now exclude w).1 = Chosen "No token" u s) ∧
  ((SelectionAlgorithm now exclude w).1.1.1 = "No available token" ↔
   (faulty w (KEYS "token:*") = false ∧ pool w ≠ [] ∧
    ∀ key, key ∈ pool w →
           inAvailable now exclude w key = false ∧
           inCooling now exclude w key = false) ∨
   ∃ u s, (selectToken now exclude w).1 = Chosen "No available token" u s) ∧
  (∀ t u s, (selectToken now exclude w).1 = Chosen t u s →
     faulty w (KEYS "token:*") = false ∧
     "token:" ++ t ∈ pool w ∧
     (inAvailable now exclude w ("token:" ++ t) = true ∨
      inCooling now exclude w ("token:" ++ t) = true) ∧
     config.lookup_field w ("token:" ++ t) "tenant_url" = Ok u) ∧
  ("token:" ++ "No token" ∉ pool w →
   ((SelectionAlgorithm now exclude w).1.1.1 = "No token" ↔
    faulty w (KEYS "token:*") = true ∨ pool w = []) ∧
   ((SelectionAlgorithm now exclude w).1 = ("No token", "", "") ↔
    faulty w (KEYS "token:*") = true ∨ pool w = [])) ∧
  ("token:" ++ "No available token" ∉ pool w →
   ((SelectionAlgorithm now exclude w).1.1.1 = "No available token" ↔
    faulty w (KEYS "token:*") = false ∧ pool w ≠ [] ∧
    ∀ key, key ∈ pool w →
           inAvailable now exclude w key = false ∧
           inCooling now exclude w key = false) ∧
   ((SelectionAlgorithm now exclude w).1 = ("No available token", "", "") ↔
    faulty w (KEYS "token:*") = false ∧ pool w ≠ [] ∧
    ∀ key, key ∈ pool w →
           inAvailable now exclude w key = false ∧
           inCooling now exclude w key = false)) ∧
  ∀ cfg c,
    negb (HasSuffix (gin.Path c) "/chat/completions") &&
    negb (HasSuffix (gin.Path c) "/messages") = false →
    String.eqb (CodingMode cfg) "true" = false →
    let tokenStr := (GetAvailableToken now w).1.1.1 in
    let tenantURL := (GetAvailableToken now w).1.1.2 in
    let w' := (GetAvailableToken now w).2 in
    (tokenStr = "No token" →
     middleware.TokenConcurrencyMiddleware cfg now c w =
       Returns (gin.Abort (gin.JSON 429 "当前无可用token，请在页面添加" c)) w') ∧
    (tokenStr ≠ "No token" →
     tokenStr = "No available token" ∨ tenantURL = "" →
     middleware.TokenConcurrencyMiddleware cfg now c w =
       Returns (gin.Abort (gin.JSON 429 "当前请求过多，请稍后再试" c)) w') ∧
    (gin.Passed c = false →
     ∀ c' w'', middleware.TokenConcurrencyMiddleware cfg now c w = Returns c' w'' →
       (c' = gin.Abort (gin.JSON 429 "当前无可用token，请在页面添加" c) →
        tokenStr = "No token") ∧
       (c' = gin.Abort (gin.JSON 429 "当前请求过多，请稍后再试" c) →
        tokenStr ≠ "No token" ∧
        (tokenStr = "No available token" ∨ tenantURL = ""))).
Proof.
  pose proof (selectToken_yields now exclude w) as Hy.
  assert (Htag1 : (selectToken now exclude w).1 = NoToken ↔
                  faulty w (KEYS "token:*") = true ∨ pool w = []).
  { split.
    + intros Hsel. rewrite Hsel in Hy. inversion Hy; auto.
    + intros Hcase. inversion Hy as [|Hf Hp|key s Hf Hin|key s Hf _ Hin|Hf Hp]; auto.
      * destruct Hcase as [Hf'|Hp]; [congruence|]. rewrite Hp in Hin. inversion Hin.
      * destruct Hcase as [Hf'|Hp]; [congruence|]. rewrite Hp in Hin. inversion Hin.
      * destruct Hcase as [Hf'|Hp']; [congruence|]. contradiction. }
  assert (Htag2 : (selectToken now exclude w).1 = NoAvailableToken ↔
                  faulty w (KEYS "token:*") = false ∧ pool w ≠ [] ∧
                  ∀ key, key ∈ pool w →
                         inAvailable now exclude w key = false ∧
                         inCooling now exclude w key = false).
  { split.
    + intros Hsel. rewrite Hsel in Hy. inversion Hy; auto.
    + intros (Hf & Hp & Hnone).
      inversion Hy as [Hf'|Hf' Hp'|key s Hf' Hin Hav|key s Hf' _ Hin Hco|]; auto.
      * congruence.
      * contradiction.
      * destruct (Hnone key Hin) as [Ha _]. congruence.
      * destruct (Hnone key Hin) as [_ Hc]. congruence. }
  pose proof (SelectionAlgorithm_returned now exclude w) as Hret.
  assert (Hstr1 : (SelectionAlgorithm now exclude w).1.1.1 = "No token" ↔
                  (faulty w (KEYS "token:*") = true ∨ pool w = []) ∨
                  ∃ u s, (selectToken now exclude w).1 = Chosen "No token" u s).
  { rewrite Hret, returned_token, <- Htag1. split.
    - intros [[Hs _] | [[_ Hs] | Hs]]; [auto | discriminate | auto].
    - intros [Hs | Hs]; auto. }
  assert (Hstr2 : (SelectionAlgorithm now exclude w).1.1.1 = "No available token" ↔
                  (faulty w (KEYS "token:*") = false ∧ pool w ≠ [] ∧
                   ∀ key, key ∈ pool w →
                          inAvailable now exclude w key = false ∧
                          inCooling now exclude w key = false) ∨
                  ∃ u s, (selectToken now exclude w).1 = Chosen "No available token" u s).
  { rewrite Hret, returned_token, <- Htag2. split.
    - intros [[_ Hs] | [[Hs _] | Hs]]; [discriminate | auto | auto].
    - intros [Hs | Hs]; auto. }
  assert (Hfiled : ∀ t u s, (selectToken now exclude w).1 = Chosen t u s →
            faulty w (KEYS "token:*") = false ∧
            "token:" ++ t ∈ pool w ∧
            (inAvailable now exclude w ("token:" ++ t) = true ∨
             inCooling now exclude w ("token:" ++ t) = true) ∧
            config.lookup_field w ("token:" ++ t) "tenant_url" = Ok u).
  { intros t u s. apply Chosen_filed. }
  split; [exact Htag1|]. split; [exact Htag2|]. split; [exact Hret|].
  split. { intros Hcase. apply Htag1 in Hcase. rewrite Hret, Hcase. reflexivity. }
  split. { intros Hcase. apply Htag2 in Hcase. rewrite Hret, Hcase. reflexivity. }
  split; [exact Hstr1|]. split; [exact Hstr2|]. split; [exact Hfiled|].
  split.
  { intros Hnone.
    assert (Hiff : (SelectionAlgorithm now exclude w).1.1.1 = "No token" ↔
                   faulty w (KEYS "token:*") = true ∨ pool w = []).
    { rewrite Hstr1. split; [|auto].
      intros [Hcase | (u & s & Hsel)]; [exact Hcase|].
      exfalso. apply Hnone. apply (Hfiled _ _ _ Hsel). }
    split; [exact Hiff|]. split.
    - intros Heq. apply Hiff. rewrite Heq. reflexivity.
    - intros Hcase. apply Htag1 in Hcase. rewrite Hret, Hcase. reflexivity. }
  split.
  { intros Hnone.
    assert (Hiff : (SelectionAlgorithm now exclude w).1.1.1 = "No available token" ↔
                   faulty w (KEYS "token:*") = false ∧ pool w ≠ [] ∧
                   ∀ key, key ∈ pool w →
                          inAvailable now exclude w key = false ∧
                          inCooling now exclude w key = false).
    { rewrite Hstr2. split; [|auto].
      intros [Hcase | (u & s & Hsel)]; [exact Hcase|].
      exfalso. apply Hnone. apply (Hfiled _ _ _ Hsel). }
    split; [exact Hiff|]. split.
    - intros Heq. apply Hiff. rewrite Heq. reflexivity.
    - intros Hcase. apply Htag2 in Hcase. rewrite Hret, Hcase. reflexivity. }
  intros cfg c. apply middleware_on_strings.
Qed.

(** ** C10 *)

Lemma Since_zero now : (3 * time.Second ≤ now)%Z →
  (time.Since now time.zero <? 3 * time.Second)%Z = false.
Proof.
  intros Hnow. apply Z.ltb_ge. unfold time.Since, time.Sub, time.zero.
  rewrite Z.sub_0_r.
  destruct (maxInt64 <? now)%Z eqn:Hmax.
  - unfold maxInt64, time.Second. lia.
  - destruct (now <? minInt64)%Z eqn:Hmin; [|exact Hnow].
    apply Z.ltb_lt in Hmin. unfold minInt64, time.Second in *. lia.
Qed.

Lemma unread_requestStatus w token :
  is_ok (config.lookup_string w ("token_status:" ++ token)) = false →
  requestStatusOf w token = Ok {| InProgress := false; LastRequestAt := time.zero |}.
Proof.
  unfold requestStatusOf, GetTokenRequestStatus, bind, config.RedisGet.
  destruct (config.lookup_string w _); [discriminate | reflexivity].
Qed.

Lemma unread_coolStatus now w token :
  is_ok (config.lookup_string w ("token_cool_status:" ++ token)) = false →
  coolStatusOf now w token = Ok {| InCool := false; CoolEnd := time.zero |}.
Proof.
  unfold coolStatusOf, GetTokenCoolStatus, bind, config.RedisGet.
  destruct (config.lookup_string w _); [discriminate | reflexivity].
Qed.

Lemma unread_chatUsageCount w token :
  is_ok (config.lookup_string w ("token_usage_chat:" ++ token)) = false →
  chatUsageCount w token = 0%Z.
Proof.
  unfold chatUsageCount, getTokenChatUsageCount, bind, config.RedisGet.
  destruct (config.lookup_string w _); [discriminate | reflexivity].
Qed.

Lemma unread_agentUsageCount w token :
  is_ok (config.lookup_string w ("token_usage_agent:" ++ token)) = false →
  agentUsageCount w token = 0%Z.
Proof.
  unfold agentUsageCount, getTokenAgentUsageCount, bind, config.RedisGet.
  destruct (config.lookup_string w _); [discriminate | reflexivity].
Qed.

(** A key filed as available leaves the selection with a credential. *)
Lemma available_is_chosen now exclude w key :
  faulty w (KEYS "token:*") = false →
  key ∈ pool w →
  inAvailable now exclude w key = true →
  ∃ t u s, (selectToken now exclude w).1 = Chosen t u s ∧
           (SelectionAlgorithm now exclude w).1 = (t, u, s).
Proof.
  intros Hf Hin Hav.
  pose proof (selectToken_yields now exclude w) as Hy.
  rewrite SelectionAlgorithm_returned.
  inversion Hy as [Hf'|Hf' Hp|k s _ _ _|k s _ _ _ _|_ _ Hnone _].
  - congruence.
  - rewrite Hp in Hin. inversion Hin.
  - eauto.
  - eauto.
  - rewrite (Hnone key Hin) in Hav. discriminate.
Qed.

(** C10. A failed read of the store is answered with the defaults: no
    request in progress at the zero instant, not in cooldown, zero usage;
    a credential none of whose four records can be read therefore counts
    as idle, under quota and out of cooldown, and is filed as available. *)
Theorem C10_failed_reads_default now w token :
  (∀ e, config.lookup_string w ("token_status:" ++ token) = Err e →
        (GetTokenRequestStatus token w).1 =
          Ok {| InProgress := false; LastRequestAt := time.zero |}) ∧
  (∀ e, config.lookup_string w ("token_cool_status:" ++ token) = Err e →
        (GetTokenCoolStatus now token w).1 =
          Ok {| InCool := false; CoolEnd := time.zero |}) ∧
  (∀ e, config.lookup_string w ("token_usage_chat:" ++ token) = Err e →
        (getTokenChatUsageCount token w).1 = 0%Z) ∧
  (∀ e, config.lookup_string w ("token_usage_agent:" ++ token) = Err e →
        (getTokenAgentUsageCount token w).1 = 0%Z) ∧
  (is_ok (config.lookup_string w ("token_status:" ++ token)) = false →
   is_ok (config.lookup_string w ("token_cool_status:" ++ token)) = false →
   is_ok (config.lookup_string w ("token_usage_chat:" ++ token)) = false →
   is_ok (config.lookup_string w ("token_usage_agent:" ++ token)) = false →
   (3 * time.Second ≤ now)%Z →
   idle now w token = true ∧ overQuota w token = false ∧
   cooling now w token = Some false ∧
   (disabled w ("token:" ++ token) = false →
    is_ok (tenantEndpoint w ("token:" ++ token)) = true →
    inAvailable now None w ("token:" ++ token) = true ∧
    (faulty w (KEYS "token:*") = false → "token:" ++ token ∈ pool w →
     ∃ t u s, (selectToken now None w).1 = Chosen t u s ∧
              (GetAvailableToken now w).1 = (t, u, s)))).
Proof.
  split; [|split; [|split; [|split]]].
  - intros e He. apply unread_requestStatus. rewrite He. reflexivity.
  - intros e He. apply unread_coolStatus. rewrite He. reflexivity.
  - intros e He. apply unread_chatUsageCount. rewrite He. reflexivity.
  - intros e He. apply unread_agentUsageCount. rewrite He. reflexivity.
  - intros Hs Hc Hchat Hagent Hnow.
    assert (Hidle : idle now w token = true).
    { unfold idle. rewrite (unread_requestStatus w token Hs). simpl.
      rewrite Since_zero by assumption. reflexivity. }
    assert (Hquota : overQuota w token = false).
    { unfold overQuota.
      rewrite (unread_chatUsageCount w token Hchat),
        (unread_agentUsageCount w token Hagent). reflexivity. }
    assert (Hcool : cooling now w token = Some false).
    { unfold cooling. rewrite (unread_coolStatus now w token Hc). reflexivity. }
    split; [exact Hidle|]. split; [exact Hquota|]. split; [exact Hcool|].
    intros Hdis Hurl.
    assert (Hav : inAvailable now None w ("token:" ++ token) = true).
    { unfold inAvailable, eligible, excluded. rewrite tokenOf_key.
      rewrite Hidle, Hquota, Hcool, Hdis, Hurl. reflexivity. }
    split; [exact Hav|].
    intros Hf Hin.
    apply (available_is_chosen now None w ("token:" ++ token)); auto.
Qed.

End selection.

Section controller.
Context `{!JSON TokenRequestStatus} `{!JSON TokenCoolStatus}.

(** ** C4 *)

(** C4. With the retry budget used up the controller reports failure and
    leaves everything as it was, but for at most the warning it logs: no
    command reaches the store (no cooldown write, no selection), no mutex
    is released or taken, the request context is untouched. *)
Theorem C4_retry_bound now c maxRetries w :
  (maxRetries ≤ retryCountOf c)%Z →
  ∃ w',
    SwitchTokenAndRetry now c maxRetries w = Returns (false, c) w' ∧
    middleware.SwitchTokenAndRetry now c maxRetries w = Returns (false, c) w' ∧
    (w' = w ∨ w' = emit (EvLog Warn "已达到最大重试次数，停止重试") w) ∧
    redis w' = redis w ∧ mutexes w' = mutexes w ∧
    tokenLocks w' = tokenLocks w ∧
    ∀ ev, ev ∈ trace w' → ev ∈ trace w ∨ ∃ msg, ev = EvLog Warn msg.
Proof.
  intros Hmax. apply Z.leb_le in Hmax.
  unfold middleware.SwitchTokenAndRetry, SwitchTokenAndRetry.
  destruct (gin.Get "token" c) as [[currentToken|n|m]|].
  - rewrite Hmax. eexists. split; [reflexivity|]. split; [reflexivity|].
    split; [right; reflexivity|]. repeat split.
    simpl. intros ev Hev. apply elem_of_app in Hev as [Hev|Hev]; [left; exact Hev|].
    right. apply list_elem_of_singleton in Hev. eauto.
  - exists w. repeat split; auto.
  - exists w. repeat split; auto.
  - exists w. repeat split; auto.
Qed.

(** ** C6 *)




Lemma selectToken_agree now exclude w :
  agree w (selectToken now exclude w).2.
Proof.
  unfold selectToken, selectAmong, bind, config.RedisKeys.
  assert (Hag : agree w (emit (EvRedis (KEYS "token:*")) w))
    by apply agree_emit, agree_refl.
  destruct (if faulty w _ then _ else _) as [keys|e]; [|exact Hag].
  destruct (List.length keys =? 0)%nat; [exact Hag|].
  destruct (scanKeys_spec now exclude keys noQueues w _ Hag) as [Hag' _].
  destruct (scanKeys now exclude keys noQueues _) as [q w']. simpl in Hag'.
  unfold choose.
  destruct (0 <? _)%nat; [apply agree_rand, Hag'|].
  destruct (0 <? _)%nat; [apply agree_rand, Hag'|exact Hag'].
Qed.





























End controller.

(** ** C8 *)

Section expiry.
Context `{!JSON TokenRequestStatus} `{!JSON TokenCoolStatus}.
Variables (now : Z) (token : string).

#[local] Abbreviation twin := (twin now token).
#[local] Abbreviation sim := (sim now token).

Lemma sim_ret {A} (R : A → A → Prop) a a' : R a a' → sim R (ret a) (ret a').
Proof. intros HR w w' Htw. split; assumption. Qed.

Lemma sim_bind {A B} (R : A → A → Prop) (S : B → B → Prop) c c' k k' :
  sim R c c' → (∀ a a', R a a' → sim S (k a) (k' a')) →
  sim S (bind c k) (bind c' k').
Proof.
  intros Hc Hk w w' Htw. unfold bind.
  destruct (Hc w w' Htw) as [HR Htw'].
  destruct (c w) as [a w1], (c' w') as [a' w1']. simpl in *.
  apply (Hk a a' HR w1 w1' Htw').
Qed.

Lemma twin_emit e w w' : twin w w' → twin (emit e w) (emit e w').
Proof. intros Htw. exact Htw. Qed.

Lemma sim_RedisHGet key field :
  sim (λ a a', to_option a = to_option a' ∧
               (is_ok a = true → key ≠ "token_cool_status:" ++ token))
    (config.RedisHGet key field) (config.RedisHGet key field).
Proof.
  intros w w' Htw. split; [|apply twin_emit, Htw].
  destruct Htw as (Hf & _ & _ & _ & _ & Hr & Hnone & js & ttl & cs & Hck & _).
  simpl. unfold config.lookup_field. rewrite <- Hf.
  destruct (faulty w (HGET key field)); [split; [reflexivity | discriminate]|].
  destruct (decide (key = "token_cool_status:" ++ token)) as [->|Hne].
  - rewrite Hck, Hnone. split; [reflexivity | discriminate].
  - rewrite <- (Hr key Hne). split; [reflexivity | auto].
Qed.

Lemma sim_RedisGet key :
  key ≠ "token_cool_status:" ++ token →
  sim eq (config.RedisGet key) (config.RedisGet key).
Proof.
  intros Hne w w' Htw. split; [|apply twin_emit, Htw].
  destruct Htw as (Hf & _ & _ & _ & _ & Hr & _).
  simpl. unfold config.lookup_string. rewrite <- Hf, <- (Hr key Hne). reflexivity.
Qed.

Ltac sim_leaves :=
  repeat match goal with
         | |- sim _ (match ?x with _ => _ end) _ => destruct x
         | |- sim _ (if ?b then _ else _) _ => destruct b
         end;
  apply sim_ret; reflexivity.

Lemma sim_GetTokenRequestStatus t :
  sim eq (GetTokenRequestStatus t) (GetTokenRequestStatus t).
Proof.
  unfold GetTokenRequestStatus.
  eapply sim_bind; [apply sim_RedisGet; discriminate|].
  intros r r' <-. sim_leaves.
Qed.

Lemma sim_getTokenChatUsageCount t :
  sim eq (getTokenChatUsageCount t) (getTokenChatUsageCount t).
Proof.
  unfold getTokenChatUsageCount.
  eapply sim_bind; [apply sim_RedisGet; discriminate|].
  intros r r' <-. sim_leaves.
Qed.

Lemma sim_getTokenAgentUsageCount t :
  sim eq (getTokenAgentUsageCount t) (getTokenAgentUsageCount t).
Proof.
  unfold getTokenAgentUsageCount.
  eapply sim_bind; [apply sim_RedisGet; discriminate|].
  intros r r' <-. sim_leaves.
Qed.

Lemma append_inj_l (p a b : string) : p ++ a = p ++ b → a = b.
Proof.
  induction p as [|ch p IH]; simpl; intros Heq; [exact Heq|].
  injection Heq as Heq. apply IH, Heq.
Qed.

Lemma sim_GetTokenCoolStatus t :
  sim sameCooling (GetTokenCoolStatus now t) (GetTokenCoolStatus now t).
Proof.
  destruct (decide (t = token)) as [->|Hne].
  - intros w w' Htw. rewrite !GetTokenCoolStatus_run.
    split; [|apply twin_emit, Htw].
    destruct Htw as (Hf & _ & _ & _ & _ & _ & Hnone & js & ttl & cs & Hck & Hget & Hun & Hend).
    simpl. unfold coolStatusOf, GetTokenCoolStatus, bind, config.RedisGet,
      config.lookup_string.
    rewrite <- Hf, Hget, Hck, Hnone. simpl. rewrite Hun.
    unfold time.After.
    replace (CoolEnd cs <? now)%Z with true by (symmetry; apply Z.ltb_lt, Hend).
    destruct (InCool cs) eqn:Hic; simpl; [reflexivity | exact Hic].
  - unfold GetTokenCoolStatus.
    eapply sim_bind.
    + apply sim_RedisGet. intros Heq. apply Hne.
      apply (append_inj_l "token_cool_status:"), Heq.
    + intros r r' <-. destruct r as [js|e]; [|apply sim_ret; reflexivity].
      destruct (Unmarshal js) as [cs|e]; [|apply sim_ret; exact I].
      destruct (_ && _); apply sim_ret; reflexivity.
Qed.

Lemma sim_uuid_New : sim eq uuid_New uuid_New.
Proof.
  intros w w' Htw.
  destruct Htw as (Hf & Hus & Huu & Hrs & Hru & Hr & Hnone & Hrec).
  split; [simpl; congruence|].
  unfold twin. simpl. rewrite Huu. auto 10.
Qed.

Lemma sim_rand_Intn n : sim eq (rand_Intn n) (rand_Intn n).
Proof.
  intros w w' Htw.
  destruct Htw as (Hf & Hus & Huu & Hrs & Hru & Hr & Hnone & Hrec).
  split; [simpl; congruence|].
  unfold twin. simpl. rewrite Hru. auto 10.
Qed.

Lemma sim_RedisHSet key field value :
  key ≠ "token_cool_status:" ++ token →
  sim eq (config.RedisHSet key field value) (config.RedisHSet key field value).
Proof.
  intros Hne w w' Htw.
  destruct Htw as (Hf & Hus & Huu & Hrs & Hru & Hr & Hnone & Hrec).
  unfold config.RedisHSet. rewrite <- Hf, <- (Hr key Hne).
  assert (Hkeep : ∀ (e : Entry),
    twin (set_redis (<[key := e]> (redis w)) (emit (EvRedis (HSET key field value)) w))
         (set_redis (<[key := e]> (redis w')) (emit (EvRedis (HSET key field value)) w'))).
  { intros e. repeat split; simpl; auto.
    - intros k Hk. destruct (decide (key = k)) as [<-|Hkk].
      + rewrite !lookup_insert_eq. reflexivity.
      + rewrite !lookup_insert_ne by exact Hkk. apply Hr, Hk.
    - rewrite lookup_insert_ne by exact Hne. exact Hnone.
    - destruct Hrec as (js & ttl & cs & Hck & Hrest). exists js, ttl, cs.
      rewrite lookup_insert_ne by exact Hne. auto. }
  assert (Hsame : twin (emit (EvRedis (HSET key field value)) w)
                       (emit (EvRedis (HSET key field value)) w')).
  { repeat split; auto. }
  destruct (faulty w (HSET key field value)); [split; [reflexivity | exact Hsame]|].
  destruct (redis w !! key) as [[v t|h]|]; simpl;
    (split; [reflexivity|]); [exact Hsame | apply Hkeep | apply Hkeep].
Qed.

Lemma sim_scanKey exclude key q :
  sim eq (scanKey now exclude key q) (scanKey now exclude key q).
Proof.
  unfold scanKey.
  eapply sim_bind; [apply sim_RedisHGet|]. intros status status' [Hst _].
  replace (match status' with Ok s => s =? "disabled" | Err _ => false end)
    with (match status with Ok s => s =? "disabled" | Err _ => false end)
    by (destruct status, status'; simpl in Hst; congruence).
  destruct (match status with Ok s => _ | Err _ => _ end); [apply sim_ret; reflexivity|].
  destruct (match exclude with Some x => _ | None => _ end); [apply sim_ret; reflexivity|].
  eapply sim_bind; [apply sim_GetTokenRequestStatus|]. intros rs rs' <-.
  destruct rs as [rs|e]; [|apply sim_ret; reflexivity].
  destruct (InProgress rs); [apply sim_ret; reflexivity|].
  destruct (_ <? _)%Z; [apply sim_ret; reflexivity|].
  eapply sim_bind; [apply sim_getTokenChatUsageCount|]. intros chat chat' <-.
  eapply sim_bind; [apply sim_getTokenAgentUsageCount|]. intros agent agent' <-.
  destruct (3000 <=? chat)%Z; [apply sim_ret; reflexivity|].
  destruct (50 <=? agent)%Z; [apply sim_ret; reflexivity|].
  eapply sim_bind; [apply sim_RedisHGet|]. intros url url' [Hurl Hkey].
  destruct url as [url|e], url' as [url'|e']; simpl in Hurl; try discriminate;
    [|apply sim_ret; reflexivity].
  injection Hurl as <-. specialize (Hkey eq_refl).
  eapply sim_bind; [apply sim_RedisHGet|]. intros sid sid' [Hsid _].
  eapply sim_bind with (R := eq).
  - destruct sid as [sid|e], sid' as [sid'|e']; simpl in Hsid; try discriminate.
    + injection Hsid as <-. apply sim_ret. reflexivity.
    + eapply sim_bind; [apply sim_uuid_New|]. intros u u' <-.
      eapply sim_bind; [apply sim_RedisHSet, Hkey|]. intros err err' <-.
      apply sim_ret. reflexivity.
  - intros sessionID sessionID' <-.
    eapply sim_bind; [apply sim_GetTokenCoolStatus|]. intros cs cs' Hcs.
    destruct cs as [cs|e], cs' as [cs'|e']; simpl in Hcs; try contradiction;
      [|apply sim_ret; reflexivity].
    rewrite <- Hcs. destruct (InCool cs); apply sim_ret; reflexivity.
Qed.

Lemma sim_scanKeys exclude keys : ∀ q,
  sim eq (scanKeys now exclude keys q) (scanKeys now exclude keys q).
Proof.
  induction keys as [|key keys IH]; intros q; simpl.
  - apply sim_ret. reflexivity.
  - eapply sim_bind; [apply sim_scanKey|]. intros q' q'' <-. apply IH.
Qed.

Lemma sim_choose q : sim eq (choose q) (choose q).
Proof.
  unfold choose.
  destruct (0 <? _)%nat.
  { eapply sim_bind; [apply sim_rand_Intn|]. intros i i' <-. apply sim_ret. reflexivity. }
  destruct (0 <? _)%nat.
  { eapply sim_bind; [apply sim_rand_Intn|]. intros i i' <-. apply sim_ret. reflexivity. }
  apply sim_ret. reflexivity.
Qed.

Lemma twin_withoutCoolStatus w coolStatusJSON cs :
  config.lookup_string w ("token_cool_status:" ++ token) = Ok coolStatusJSON →
  Unmarshal coolStatusJSON = Ok cs →
  (CoolEnd cs < now)%Z →
  twin w (withoutCoolStatus token w).
Proof.
  intros Hget Hun Hend. unfold config.lookup_string in Hget.
  destruct (faulty w (GET _)) eqn:Hf; [discriminate|].
  destruct (redis w !! _) as [[v ttl|h]|] eqn:Hk; try discriminate.
  injection Hget as ->.
  repeat split; simpl; auto.
  - intros k Hne. symmetry. apply lookup_delete_ne. congruence.
  - apply lookup_delete_eq.
  - exists coolStatusJSON, ttl, cs. auto.
Qed.

End expiry.

Section expiry_claim.
Context `{!JSON TokenRequestStatus} `{!JSON TokenCoolStatus}.

(** C8. A cooldown record whose end lies in the past reads as "not in
    cooldown", and the selection handles the credential as it would with
    no record at all: over whatever keys the store enumerates, the loop
    fills the same queues and the result policy makes the same choice. *)
Theorem C8_expired_cooldown now w token coolStatusJSON cs :
  config.lookup_string w ("token_cool_status:" ++ token) = Ok coolStatusJSON →
  Unmarshal coolStatusJSON = Ok cs →
  (CoolEnd cs < now)%Z →
  (GetTokenCoolStatus now token w).1 =
    Ok {| InCool := false; CoolEnd := CoolEnd cs |} ∧
  cooling now w token = Some false ∧
  cooling now (withoutCoolStatus token w) token = Some false ∧
  ∀ exclude keys,
    (scanKeys now exclude keys noQueues w).1 =
    (scanKeys now exclude keys noQueues (withoutCoolStatus token w)).1 ∧
    (selectAmong now exclude keys w).1 =
    (selectAmong now exclude keys (withoutCoolStatus token w)).1.
Proof.
  intros Hget Hun Hend.
  assert (Hread : (GetTokenCoolStatus now token w).1 =
            Ok {| InCool := false; CoolEnd := CoolEnd cs |}).
  { unfold GetTokenCoolStatus, bind, config.RedisGet. rewrite Hget. simpl.
    rewrite Hun. unfold time.After.
    replace (CoolEnd cs <? now)%Z with true by (symmetry; apply Z.ltb_lt, Hend).
    destruct cs as [[|] e]; reflexivity. }
  pose proof (twin_withoutCoolStatus now token w _ _ Hget Hun Hend) as Htw.
  split; [exact Hread|].
  split; [unfold cooling, coolStatusOf; rewrite Hread; reflexivity|].
  split.
  - destruct (sim_GetTokenCoolStatus now token token _ _ Htw) as [Hsame _].
    rewrite Hread in Hsame. unfold cooling, coolStatusOf.
    destruct ((GetTokenCoolStatus now token (withoutCoolStatus token w)).1);
      simpl in Hsame; [|contradiction].
    rewrite <- Hsame. reflexivity.
  - intros exclude keys. split.
    + apply (sim_scanKeys now token exclude keys noQueues _ _ Htw).
    + apply (sim_bind now token eq eq _ _ _ _
               (sim_scanKeys now token exclude keys noQueues)
               (λ q q' (Hq : q = q'),
                  eq_ind q (λ q', sim now token eq (choose q) (choose q'))
                    (sim_choose now token q) q' Hq) _ _ Htw).
Qed.
End expiry_claim.

(** ** C9 *)

Section validator.

Lemma length_pos (s : string) : s ≠ "" → (0 <? String.length s)%nat = true.
Proof. destruct s; [congruence | reflexivity]. Qed.

(** A write of a field that goes through leaves a hash with the field. *)
Lemma RedisHSet_None key field value w :
  (config.RedisHSet key field value w).1 = None →
  ∃ h, config.RedisHSet key field value w =
         (None, set_redis (<[key := EHash (<[field := value]> h)]> (redis w))
                  (emit (EvRedis (HSET key field value)) w)).
Proof.
  unfold config.RedisHSet.
  destruct (faulty w (HSET key field value)); [discriminate|].
  destruct (redis w !! key) as [[v t|h]|]; [discriminate | |]; intros _.
  - exists h. reflexivity.
  - exists ∅. rewrite insert_empty. reflexivity.
Qed.

Lemma RedisHSet_hash key field value w h :
  redis w !! key = Some (EHash h) →
  config.RedisHSet key field value w =
    if faulty w (HSET key field value)
    then (Some "redis: connection failure", emit (EvRedis (HSET key field value)) w)
    else (None, set_redis (<[key := EHash (<[field := value]> h)]> (redis w))
                  (emit (EvRedis (HSET key field value)) w)).
Proof. intros Hk. unfold config.RedisHSet. rewrite Hk. reflexivity. Qed.

Lemma RedisHSet_result_ext key field value w w' :
  faulty w = faulty w' → redis w = redis w' →
  (config.RedisHSet key field value w).1 = (config.RedisHSet key field value w').1.
Proof.
  intros Hf Hr. unfold config.RedisHSet. rewrite Hf, Hr.
  destruct (faulty w' _); [reflexivity|].
  destruct (redis w' !! key) as [[v t|h]|]; reflexivity.
Qed.

(** What the closure does with an answer it accepts. *)
Lemma inspect_accepts cfg tokenKey tenantURL resp :
  (StatusCode resp = 200 ∨ StatusCode resp = 402)%Z →
  readErr resp = None →
  chunk resp ≠ "" →
  String.eqb (RemoveFree cfg) "true" && api.subscriptionMarker (chunk resp) = false →
  api.inspect cfg tokenKey tenantURL resp =
    (let* err := config.RedisHSet tokenKey "tenant_url" tenantURL in
     match err with
     | Some _ => ret api.Undecided
     | None =>
         let* err := config.RedisHSet tokenKey "status" "active" in
         match err with
         | Some _ => log Printf "标记token为可用失败"
         | None => ret tt
         end ;;
         log Info "token: 更新租户地址成功" ;;
         ret (api.Valid tenantURL)
     end).
Proof.
  intros Hcode Hread Hchunk Hmarker. unfold api.inspect, api.status_is.
  assert (H401 : (StatusCode resp =? 401)%Z = false)
    by (apply Z.eqb_neq; lia).
  assert (Hok : ((StatusCode resp =? 200)%Z || (StatusCode resp =? 402)%Z) = true).
  { apply orb_true_iff. destruct Hcode as [-> | ->]; [left | right]; reflexivity. }
  rewrite H401, Hok, Hread, (length_pos _ Hchunk), Hmarker. reflexivity.
Qed.

(** The run of the loop on a candidate whose answer is accepted. *)
Lemma probe_accepts cfg token sessionID tenantURL urls w resp :
  upstream w (tenantURL ++ "chat-stream") token sessionID = Responds resp →
  (StatusCode resp = 200 ∨ StatusCode resp = 402)%Z →
  readErr resp = None →
  chunk resp ≠ "" →
  String.eqb (RemoveFree cfg) "true" && api.subscriptionMarker (chunk resp) = false →
  (config.RedisHSet ("token:" ++ token) "tenant_url" tenantURL w).1 = None →
  ∃ h,
    api.probe cfg token sessionID (tenantURL :: urls) w =
    (Ok tenantURL,
     let key := "token:" ++ token in
     let w1 := emit (EvHTTP (tenantURL ++ "chat-stream"))
                 (set_uuid_used (S (uuid_used w)) w) in
     let w2 := set_redis (<[key := EHash (<["tenant_url" := tenantURL]> h)]> (redis w))
                 (emit (EvRedis (HSET key "tenant_url" tenantURL)) w1) in
     let w3 :=
       if faulty w (HSET key "status" "active")
       then emit (EvLog Printf "标记token为可用失败")
              (emit (EvRedis (HSET key "status" "active")) w2)
       else set_redis
              (<[key := EHash (<["status" := "active"]> (<["tenant_url" := tenantURL]> h))]>
                 (redis w2))
              (emit (EvRedis (HSET key "status" "active")) w2) in
     emit (EvLog Info "token: 更新租户地址成功") w3).
Proof.
  intros Hup Hcode Hread Hchunk Hmarker Hset.
  cbn [api.probe]. rewrite Hup.
  rewrite (inspect_accepts _ _ _ _ Hcode Hread Hchunk Hmarker).
  unfold bind, uuid_New. cbv beta iota.
  set (w1 := emit _ (set_uuid_used _ w)).
  assert (Hset1 : (config.RedisHSet ("token:" ++ token) "tenant_url" tenantURL w1).1 = None).
  { rewrite <- Hset. apply RedisHSet_result_ext; reflexivity. }
  destruct (RedisHSet_None _ _ _ _ Hset1) as [h ->].
  exists h. cbv beta iota.
  set (w2 := set_redis _ _).
  assert (Hk2 : redis w2 !! ("token:" ++ token)
                = Some (EHash (<["tenant_url" := tenantURL]> h)))
    by apply lookup_insert_eq.
  rewrite (RedisHSet_hash _ _ _ _ _ Hk2).
  change (faulty w2) with (faulty w).
  destruct (faulty w (HSET ("token:" ++ token) "status" "active")); reflexivity.
Qed.

(** C9, as the code has it.  When the candidate being probed answers 200
    or 402, the first read of the body gives at least one byte and no
    error, strict mode finds no subscription marker in it, and the store
    takes the write of the endpoint, then the validator records the
    endpoint, sends the write of status "active" (a failure of which is
    only printed), probes no further candidate and reports the endpoint. *)
Theorem C9_endpoint_recorded cfg token sessionID tenantURL urls w resp :
  upstream w (tenantURL ++ "chat-stream") token sessionID = Responds resp →
  (StatusCode resp = 200 ∨ StatusCode resp = 402)%Z →
  readErr resp = None →
  chunk resp ≠ "" →
  String.eqb (RemoveFree cfg) "true" && api.subscriptionMarker (chunk resp) = false →
  (config.RedisHSet ("token:" ++ token) "tenant_url" tenantURL w).1 = None →
  let r := api.probe cfg token sessionID (tenantURL :: urls) w in
  let statusFails := faulty w (HSET ("token:" ++ token) "status" "active") in
  r.1 = Ok tenantURL ∧
  (∃ h, redis r.2 !! ("token:" ++ token) = Some (EHash h) ∧
        h !! "tenant_url" = Some tenantURL ∧
        (statusFails = false → h !! "status" = Some "active")) ∧
  trace r.2 =
    (trace w ++
     [EvHTTP (tenantURL ++ "chat-stream");
      EvRedis (HSET ("token:" ++ token) "tenant_url" tenantURL);
      EvRedis (HSET ("token:" ++ token) "status" "active")] ++
     (if statusFails then [EvLog Printf "标记token为可用失败"] else []) ++
     [EvLog Info "token: 更新租户地址成功"])%list.
Proof.
  intros Hup Hcode Hread Hchunk Hmarker Hset r statusFails. subst r statusFails.
  destruct (probe_accepts cfg token sessionID tenantURL urls w resp
              Hup Hcode Hread Hchunk Hmarker Hset) as [h ->].
  cbv zeta. cbn [fst snd].
  split; [reflexivity|].
  destruct (faulty w (HSET ("token:" ++ token) "status" "active")).
  - split.
    + exists (<["tenant_url" := tenantURL]> h). cbn.
      split; [apply lookup_insert_eq|]. split; [apply lookup_insert_eq | discriminate].
    + cbn. rewrite <- !app_assoc. reflexivity.
  - split.
    + eexists. cbn. split; [apply lookup_insert_eq|].
      split; [rewrite lookup_insert_ne by discriminate; apply lookup_insert_eq|].
      intros _. apply lookup_insert_eq.
    + cbn. rewrite <- !app_assoc. reflexivity.
Qed.
End validator.

(** * Further properties of the code *)

Section registry.
Context `{!JSON TokenRequestStatus} `{!JSON TokenCoolStatus}.

Lemma GetTokenLock_registered token w :
  tokenLocks (GetTokenLock token w).2 !! token = Some (GetTokenLock token w).1.
Proof.
  unfold GetTokenLock. destruct (tokenLocks w !! token) eqn:Ht; simpl.
  - exact Ht.
  - apply lookup_insert_eq.
Qed.

Lemma GetTokenLock_ok token w :
  registry_ok w → registry_ok (GetTokenLock token w).2.
Proof.
  intros [Hin Hinj]. unfold GetTokenLock.
  destruct (tokenLocks w !! token) eqn:Ht; simpl; [split; assumption|].
  split.
  - intros t m. simpl. rewrite length_app. simpl.
    destruct (decide (token = t)) as [<-|Hne].
    + rewrite lookup_insert_eq. intros [= <-]. lia.
    + rewrite lookup_insert_ne by exact Hne. intros Hm.
      specialize (Hin t m Hm). lia.
  - intros t t' m. simpl.
    destruct (decide (token = t)) as [<-|Hne], (decide (token = t')) as [<-|Hne'];
      rewrite ?lookup_insert_eq, ?lookup_insert_ne by assumption.
    + reflexivity.
    + intros [= <-] Hm. specialize (Hin t' _ Hm). lia.
    + intros Hm [= <-]. specialize (Hin t _ Hm). lia.
    + apply Hinj.
Qed.

(** X1. GetTokenLock: one lock per credential.  The first lookup of a token
    registers a fresh, free mutex; every later lookup returns that same
    mutex and changes nothing; locks of other tokens, and the state of
    every mutex that existed, stay as they were. *)
Theorem GetTokenLock_one_per_token token w :
  registry_ok w →
  let lock := (GetTokenLock token w).1 in
  let w' := (GetTokenLock token w).2 in
  registry_ok w' ∧
  GetTokenLock token w' = (lock, w') ∧
  (tokenLocks w !! token = None → mutexes w' !! lock = Some false) ∧
  (∀ other, other ≠ token → tokenLocks w' !! other = tokenLocks w !! other) ∧
  (∀ m held, mutexes w !! m = Some held → mutexes w' !! m = Some held) ∧
  (∀ other, other ≠ token → (GetTokenLock other w').1 ≠ lock) ∧
  redis w' = redis w ∧ trace w' = trace w.
Proof.
  intros Hok lock w'. subst lock w'.
  pose proof (GetTokenLock_ok token w Hok) as Hok'.
  pose proof (GetTokenLock_registered token w) as Hreg.
  split; [exact Hok'|].
  split.
  { unfold GetTokenLock at 1. rewrite Hreg.
    destruct (GetTokenLock token w); reflexivity. }
  split.
  { intros Hnone. unfold GetTokenLock. rewrite Hnone. simpl.
    rewrite lookup_app_r by lia. rewrite Nat.sub_diag. reflexivity. }
  split.
  { intros other Hne. unfold GetTokenLock.
    destruct (tokenLocks w !! token); simpl; [reflexivity|].
    apply lookup_insert_ne. congruence. }
  split.
  { intros m held Hm. unfold GetTokenLock.
    destruct (tokenLocks w !! token); simpl; [exact Hm|].
    apply lookup_app_l_Some, Hm. }
  split.
  { intros other Hne Heq.
    pose proof (GetTokenLock_ok other _ Hok') as [_ Hinj].
    pose proof (GetTokenLock_registered other (GetTokenLock token w).2) as Hreg'.
    rewrite Heq in Hreg'.
    assert (Hkeep : tokenLocks (GetTokenLock other (GetTokenLock token w).2).2
                      !! token = Some (GetTokenLock token w).1).
    { unfold GetTokenLock at 1.
      destruct (tokenLocks (GetTokenLock token w).2 !! other); simpl; [exact Hreg|].
      rewrite lookup_insert_ne by exact Hne. exact Hreg. }
    apply Hne. apply (Hinj _ _ _ Hreg' Hkeep). }
  unfold GetTokenLock. destruct (tokenLocks w !! token); split; reflexivity.
Qed.

(** ** Status records: what is written is what is read *)

Lemma status_key_inj (a b : string) : "token_status:" ++ a = "token_status:" ++ b → a = b.
Proof. apply append_inj_l. Qed.

Lemma requestStatus_ext w w' t :
  config.lookup_string w' ("token_status:" ++ t)
    = config.lookup_string w ("token_status:" ++ t) →
  (GetTokenRequestStatus t w').1 = (GetTokenRequestStatus t w).1.
Proof.
  intros Heq. unfold GetTokenRequestStatus, bind, config.RedisGet. rewrite Heq.
  destruct (config.lookup_string w _) as [js|e]; [|reflexivity].
  destruct (Unmarshal js); reflexivity.
Qed.

(** X2. SetTokenRequestStatus then GetTokenRequestStatus: when the encoding
    decodes to the value and the store serves the two commands, the status
    read back is the status written, it is kept for one hour, and the
    status of every other token reads as before. *)
Theorem request_status_round_trip token status statusJSON w :
  Marshal status = Ok statusJSON →
  Unmarshal statusJSON = Ok status →
  faulty w (SET ("token_status:" ++ token) statusJSON time.Hour) = false →
  faulty w (GET ("token_status:" ++ token)) = false →
  let w' := (SetTokenRequestStatus token status w).2 in
  (SetTokenRequestStatus token status w).1 = None ∧
  (GetTokenRequestStatus token w').1 = Ok status ∧
  redis w' !! ("token_status:" ++ token) = Some (EString statusJSON time.Hour) ∧
  ∀ other, other ≠ token →
           (GetTokenRequestStatus other w').1 = (GetTokenRequestStatus other w).1.
Proof.
  intros Hm Hu Hset Hget w'. subst w'.
  unfold SetTokenRequestStatus. rewrite Hm. unfold config.RedisSet. rewrite Hset.
  cbn [fst snd].
  split; [reflexivity|]. split; [|split].
  - unfold GetTokenRequestStatus, bind, config.RedisGet, config.lookup_string.
    cbn [faulty redis set_redis emit fst snd]. rewrite Hget, lookup_insert_eq.
    cbn. rewrite Hu. reflexivity.
  - cbn. apply lookup_insert_eq.
  - intros other Hne. apply requestStatus_ext.
    unfold config.lookup_string. cbn [faulty redis set_redis emit].
    rewrite lookup_insert_ne; [reflexivity|].
    intros Heq. apply Hne. symmetry. apply status_key_inj, Heq.
Qed.

(** X3. SetTokenCoolStatus then GetTokenCoolStatus: a credential cooled at
    [now] for [duration] reads as in cooldown at every instant up to and
    including [now + duration], and as out of cooldown at every later
    instant for which the record is still in the store. *)
Theorem cool_status_round_trip now duration token coolStatusJSON w :
  Marshal {| InCool := true; CoolEnd := time.Add now duration |} = Ok coolStatusJSON →
  Unmarshal coolStatusJSON = Ok {| InCool := true; CoolEnd := time.Add now duration |} →
  faulty w (SET ("token_cool_status:" ++ token) coolStatusJSON duration) = false →
  faulty w (GET ("token_cool_status:" ++ token)) = false →
  let w' := (SetTokenCoolStatus now token duration w).2 in
  (SetTokenCoolStatus now token duration w).1 = None ∧
  redis w' !! ("token_cool_status:" ++ token) = Some (EString coolStatusJSON duration) ∧
  ∀ later,
    ((later ≤ now + duration)%Z →
     (GetTokenCoolStatus later token w').1
       = Ok {| InCool := true; CoolEnd := (now + duration)%Z |}) ∧
    ((now + duration < later)%Z →
     (GetTokenCoolStatus later token w').1
       = Ok {| InCool := false; CoolEnd := (now + duration)%Z |}).
Proof.
  intros Hm Hu Hset Hget w'. subst w'.
  unfold SetTokenCoolStatus. rewrite Hm. unfold config.RedisSet. rewrite Hset.
  cbn [fst snd].
  split; [reflexivity|]. split; [cbn; apply lookup_insert_eq|].
  intros later.
  unfold GetTokenCoolStatus, bind, config.RedisGet, config.lookup_string.
  cbn [faulty redis set_redis emit fst snd]. rewrite Hget, lookup_insert_eq.
  cbn [fst snd ret]. rewrite Hu. cbn [InCool CoolEnd andb].
  unfold time.After, time.Add. split; intros Hl.
  - replace (now + duration <? later)%Z with false by (symmetry; apply Z.ltb_ge; lia).
    reflexivity.
  - replace (now + duration <? later)%Z with true by (symmetry; apply Z.ltb_lt; lia).
    reflexivity.
Qed.

End registry.

Section selection_more.
Context `{!JSON TokenRequestStatus} `{!JSON TokenCoolStatus}.

(** ** What a selection guarantees about the credential it returns *)

(** X4. Selection is sound: a chosen credential is in the pool under the key
    "token:<token>", is not disabled and not excluded, has no request in
    progress and none in the last three seconds, is below both quotas,
    and the endpoint returned is the one the store holds for it. *)
Theorem selection_sound now exclude w t u s :
  (selectToken now exclude w).1 = Chosen t u s →
  "token:" ++ t ∈ pool w ∧
  config.lookup_field w ("token:" ++ t) "status" ≠ Ok "disabled" ∧
  exclude ≠ Some t ∧
  (∃ st, (GetTokenRequestStatus t w).1 = Ok st ∧ InProgress st = false ∧
         (3 * time.Second ≤ time.Since now (LastRequestAt st))%Z) ∧
  ((getTokenChatUsageCount t w).1 < 3000)%Z ∧
  ((getTokenAgentUsageCount t w).1 < 50)%Z ∧
  config.lookup_field w ("token:" ++ t) "tenant_url" = Ok u ∧
  (∃ cs, (GetTokenCoolStatus now t w).1 = Ok cs).
Proof.
  intros Hsel. pose proof (selectToken_yields now exclude w) as Hy.
  rewrite Hsel in Hy.
  apply Yields_Chosen in Hy as (key & Hin & Htok & Hurl & Hpart).
  pose proof (pool_key w key Hin) as Hkey. rewrite Htok in Hkey. subst key.
  assert (He : eligible now exclude w ("token:" ++ t) = true ∧
               is_Some (cooling now w t)).
  { destruct Hpart as [Hav | [Hco _]].
    - apply inAvailable_cooling in Hav as [He Hc]. rewrite Htok in Hc.
      split; [exact He | eauto].
    - apply inCooling_cooling in Hco as [He Hc]. rewrite Htok in Hc.
      split; [exact He | eauto]. }
  destruct He as [He Hcool].
  unfold eligible in He. rewrite Htok in He.
  apply andb_prop in He as [He Hep]. apply andb_prop in He as [He Hq].
  apply andb_prop in He as [He Hidle]. apply andb_prop in He as [Hdis Hex].
  split; [exact Hin|].
  split.
  { unfold disabled in Hdis. intros Heq. rewrite Heq in Hdis. discriminate. }
  split.
  { unfold excluded in Hex. intros ->. rewrite String.eqb_refl in Hex. discriminate. }
  split.
  { unfold idle, requestStatusOf in Hidle.
    destruct ((GetTokenRequestStatus t w).1) as [st|e]; [|discriminate].
    apply andb_prop in Hidle as [Hp Hs]. exists st. split; [reflexivity|].
    split; [destruct (InProgress st); [discriminate | reflexivity]|].
    apply negb_true_iff, Z.ltb_ge in Hs. exact Hs. }
  unfold overQuota, chatUsageCount, agentUsageCount in Hq.
  apply negb_true_iff, orb_false_iff in Hq as [Hc Ha].
  apply Z.leb_gt in Hc, Ha.
  split; [exact Hc|]. split; [exact Ha|].
  split.
  { unfold urlOf, tenantEndpoint in Hurl, Hep.
    destruct (config.lookup_field w ("token:" ++ t) "tenant_url"); [|discriminate].
    congruence. }
  unfold cooling, coolStatusOf in Hcool.
  destruct ((GetTokenCoolStatus now t w).1) as [cs|e]; [eauto|].
  destruct Hcool as [? Hnever]. discriminate.
Qed.

(** X5. With a single credential filed as available the random draw decides
    nothing: that credential is the one returned, with its endpoint. *)
Theorem single_available_is_returned now exclude w key :
  faulty w (KEYS "token:*") = false →
  key ∈ pool w →
  inAvailable now exclude w key = true →
  (∀ k, k ∈ pool w → inAvailable now exclude w k = true → k = key) →
  ∃ s, (selectToken now exclude w).1 = Chosen (tokenOf key) (urlOf w key) s ∧
       (SelectionAlgorithm now exclude w).1 = (tokenOf key, urlOf w key, s).
Proof.
  intros Hf Hin Hav Honly.
  pose proof (selectToken_yields now exclude w) as Hy.
  rewrite SelectionAlgorithm_returned.
  inversion Hy as [Hf'|Hf' Hp|k s _ Hk Hav'|k s _ Hnone Hk Hc|_ _ Hnone _].
  - congruence.
  - rewrite Hp in Hin. inversion Hin.
  - rewrite (Honly k Hk Hav'). exists s. split; reflexivity.
  - rewrite (Hnone key Hin) in Hav. discriminate.
  - rewrite (Hnone key Hin) in Hav. discriminate.
Qed.


(** ** What a selection does to the store *)

(** One iteration of the loop: the faults, the mutexes and the registry
    are untouched; the store is untouched or the key's hash has gained a
    "session_id" it could not be read to have; the queues are untouched or
    have gained the key's credential with a session id that the store
    holds afterwards. *)
Lemma scanKey_effect now exclude key q w :
  let q' := (scanKey now exclude key q w).1 in
  let w' := (scanKey now exclude key q w).2 in
  faulty w' = faulty w ∧ mutexes w' = mutexes w ∧ tokenLocks w' = tokenLocks w ∧
  (redis w' = redis w ∨
   is_ok (config.lookup_field w key "session_id") = false ∧
   ∃ h sid, redis w !! key = Some (EHash h) ∧
            redis w' = <[key := EHash (<["session_id" := sid]> h)]> (redis w)) ∧
  (q' = q ∨
   ∃ u sid,
     (q' = appendAvailable (tokenOf key) u sid q ∨
      q' = appendCooldown (tokenOf key) u sid q) ∧
     (sessionServed w key → config.lookup_field w' key "session_id" = Ok sid)).
Proof.
  cbv zeta. unfold scanKey, bind, config.RedisHGet.
  destruct (match config.lookup_field w key "status" with Ok s => _ | Err _ => _ end);
    [cbn; auto 10|].
  fold (tokenOf key).
  destruct (match exclude with Some x => _ | None => _ end); [cbn; auto 10|].
  rewrite GetTokenRequestStatus_run.
  destruct (requestStatusOf _ (tokenOf key)) as [st|e]; [|cbn; auto 10].
  destruct (InProgress st); [cbn; auto 10|].
  destruct (_ <? _)%Z; [cbn; auto 10|].
  rewrite getTokenChatUsageCount_run, getTokenAgentUsageCount_run.
  destruct (3000 <=? _)%Z; [cbn; auto 10|].
  destruct (50 <=? _)%Z; [cbn; auto 10|].
  set (w4 := emit _ (emit _ (emit _ (emit _ w)))).
  assert (Hfield : ∀ f, config.lookup_field w4 key f = config.lookup_field w key f)
    by reflexivity.
  rewrite Hfield.
  destruct (config.lookup_field w key "tenant_url") as [url|e] eqn:Hurl;
    [|cbn; auto 10].
  set (w5 := emit _ w4).
  change (config.lookup_field w5 key "session_id")
    with (config.lookup_field w key "session_id").
  destruct (config.lookup_field w key "session_id") as [sid|e] eqn:Hsid.
  - unfold ret. rewrite GetTokenCoolStatus_run.
    destruct (coolStatusOf now _ (tokenOf key)) as [cs|e]; [|cbn; auto 10].
    destruct (InCool cs); cbn [fst snd];
      (split; [reflexivity|]; split; [reflexivity|]; split; [reflexivity|];
       split; [left; reflexivity|]);
      right; exists url, sid; (split; [auto|]); intros _; exact Hsid.
  - unfold bind, ret, uuid_New.
    set (w6 := set_uuid_used _ (emit _ w5)).
    set (sid := uuid_src _ _).
    assert (Hkey : ∃ h, redis w !! key = Some (EHash h) ∧ h !! "tenant_url" = Some url).
    { unfold config.lookup_field in Hurl.
      destruct (faulty w (HGET key "tenant_url")); [discriminate|].
      destruct (redis w !! key) as [[v t|h]|]; try discriminate.
      exists h. split; [reflexivity|].
      destruct (h !! "tenant_url"); [congruence | discriminate]. }
    destruct Hkey as (h & Hk & _).
    assert (Hk6 : redis w6 !! key = Some (EHash h)) by exact Hk.
    rewrite (RedisHSet_hash _ _ _ _ _ Hk6).
    change (faulty w6) with (faulty w).
    destruct (faulty w (HSET key "session_id" sid)) eqn:Hf.
    + rewrite GetTokenCoolStatus_run.
      destruct (coolStatusOf now _ (tokenOf key)) as [cs|e']; [|cbn; auto 10].
      destruct (InCool cs); cbn [fst snd];
        (split; [reflexivity|]; split; [reflexivity|]; split; [reflexivity|];
         split; [left; reflexivity|]);
        right; exists url, sid; (split; [auto|]);
        intros [_ Hserve]; rewrite Hserve in Hf; discriminate.
    + rewrite GetTokenCoolStatus_run.
      set (w7 := set_redis _ _).
      assert (Hstore : redis w7 = <[key := EHash (<["session_id" := sid]> h)]> (redis w))
        by reflexivity.
      assert (Hbound : sessionServed w key →
                config.lookup_field (emit (EvRedis (GET ("token_cool_status:" ++ tokenOf key))) w7)
                  key "session_id" = Ok sid).
      { intros [Hget _]. unfold config.lookup_field. cbn [faulty emit redis].
        change (faulty w7) with (faulty w). rewrite Hget, Hstore, lookup_insert_eq.
        rewrite lookup_insert_eq. reflexivity. }
      destruct (coolStatusOf now _ (tokenOf key)) as [cs|e']; cbn [fst snd].
      * destruct (InCool cs); cbn [fst snd];
          (split; [reflexivity|]; split; [reflexivity|]; split; [reflexivity|];
           split; [right; split; [reflexivity|]; exists h, sid; auto|]);
          right; exists url, sid; auto.
      * split; [reflexivity|]. split; [reflexivity|]. split; [reflexivity|].
        split; [right; split; [reflexivity|]; exists h, sid; auto|].
        left. reflexivity.
Qed.


Lemma scanKey_keeps_session now exclude key q w k s :
  config.lookup_field w k "session_id" = Ok s →
  config.lookup_field (scanKey now exclude key q w).2 k "session_id" = Ok s.
Proof.
  intros Hs.
  destruct (scanKey_effect now exclude key q w) as (Hf & _ & _ & Hstore & _).
  unfold config.lookup_field in *. rewrite Hf.
  destruct Hstore as [-> | (Hno & h & sid & Hk & ->)]; [exact Hs|].
  destruct (decide (key = k)) as [<-|Hne].
  - unfold config.lookup_field in Hno. rewrite Hs in Hno. discriminate.
  - rewrite lookup_insert_ne by exact Hne. exact Hs.
Qed.

Lemma sessionsBound_mono w w' tokens sessionIDs :
  faulty w' = faulty w →
  (∀ k s, config.lookup_field w k "session_id" = Ok s →
          config.lookup_field w' k "session_id" = Ok s) →
  sessionsBound w tokens sessionIDs → sessionsBound w' tokens sessionIDs.
Proof.
  intros Hf Hkeep [Hlen Hb]. split; [exact Hlen|].
  intros i t Ht. destruct (Hb i t Ht) as (s & Hs & Hserved).
  exists s. split; [exact Hs|]. intros Hsv. apply Hkeep, Hserved.
  unfold sessionServed in *. rewrite <- Hf. exact Hsv.
Qed.

Lemma sessionsBound_snoc w tokens sessionIDs t s :
  sessionsBound w tokens sessionIDs →
  (sessionServed w ("token:" ++ t) →
   config.lookup_field w ("token:" ++ t) "session_id" = Ok s) →
  sessionsBound w (tokens ++ [t])%list (sessionIDs ++ [s])%list.
Proof.
  intros [Hlen Hb] Hnew. split; [rewrite !length_app, Hlen; reflexivity|].
  intros i t' Ht'.
  destruct (decide (i < List.length tokens)%nat) as [Hi|Hi].
  - rewrite lookup_app_l in Ht' by exact Hi.
    destruct (Hb i t' Ht') as (s' & Hs' & Hserved).
    exists s'. split; [|exact Hserved].
    rewrite lookup_app_l by (rewrite Hlen; exact Hi). exact Hs'.
  - rewrite lookup_app_r in Ht' by lia.
    destruct (i - List.length tokens)%nat as [|n] eqn:Hd; [|destruct n; discriminate].
    injection Ht' as <-. exists s. split; [|exact Hnew].
    rewrite lookup_app_r by lia. rewrite Hlen, Hd. reflexivity.
Qed.

Lemma scanKeys_effect now exclude keys : ∀ q w,
  (∀ key, key ∈ keys → key = "token:" ++ tokenOf key) →
  sessionsBound w (availableTokens q) (availableSessionIDs q) →
  sessionsBound w (cooldownTokens q) (cooldownSessionIDs q) →
  let q' := (scanKeys now exclude keys q w).1 in
  let w' := (scanKeys now exclude keys q w).2 in
  faulty w' = faulty w ∧ mutexes w' = mutexes w ∧ tokenLocks w' = tokenLocks w ∧
  (∀ k s, config.lookup_field w k "session_id" = Ok s →
          config.lookup_field w' k "session_id" = Ok s) ∧
  sessionsBound w' (availableTokens q') (availableSessionIDs q') ∧
  sessionsBound w' (cooldownTokens q') (cooldownSessionIDs q').
Proof.
  induction keys as [|key keys IH]; intros q w Hkeys Ha Hc; cbv zeta.
  - cbn. auto 10.
  - cbn [scanKeys]. unfold bind.
    destruct (scanKey_effect now exclude key q w) as (Hf & Hm & Ht & _ & Hq).
    pose proof (scanKey_keeps_session now exclude key q w) as Hkeep.
    destruct (scanKey now exclude key q w) as [q1 w1]. cbn [fst snd] in *.
    assert (Hkey : key = "token:" ++ tokenOf key)
      by (apply Hkeys; apply list_elem_of_here).
    assert (Ha1 : sessionsBound w1 (availableTokens q1) (availableSessionIDs q1) ∧
                  sessionsBound w1 (cooldownTokens q1) (cooldownSessionIDs q1)).
    { pose proof (sessionsBound_mono w w1 _ _ Hf Hkeep Ha) as Ha'.
      pose proof (sessionsBound_mono w w1 _ _ Hf Hkeep Hc) as Hc'.
      destruct Hq as [-> | (u & sid & Happ & Hbound)]; [auto|].
      assert (Hnew : sessionServed w1 ("token:" ++ tokenOf key) →
                config.lookup_field w1 ("token:" ++ tokenOf key) "session_id" = Ok sid).
      { rewrite <- Hkey. intros Hsv. apply Hbound.
        unfold sessionServed in *. rewrite <- Hf. exact Hsv. }
      destruct Happ as [-> | ->]; cbn; split; auto using sessionsBound_snoc. }
    destruct Ha1 as [Ha1 Hc1].
    specialize (IH q1 w1 (λ k Hk, Hkeys k (list_elem_of_further _ _ _ Hk)) Ha1 Hc1).
    cbv zeta in IH.
    destruct (scanKeys now exclude keys q1 w1) as [q2 w2]. cbn [fst snd] in *.
    destruct IH as (Hf2 & Hm2 & Ht2 & Hkeep2 & Ha2 & Hc2).
    repeat split; try congruence; try (apply Ha2); try (apply Hc2).
    intros k s Hs. apply Hkeep2, Hkeep, Hs.
Qed.

Lemma sessionsBound_nil w : sessionsBound w [] [].
Proof. split; [reflexivity|]. intros i t Ht. rewrite lookup_nil in Ht. discriminate. Qed.

Lemma nth_lookup_default (l : list string) i x : l !! i = Some x → nth i l "" = x.
Proof. intros Hx. apply nth_lookup_Some with (d := ""). exact Hx. Qed.

(** What a whole selection leaves behind, and what it binds the chosen
    credential's session id to. *)
Lemma selectToken_effect now exclude w :
  let sel := (selectToken now exclude w).1 in
  let w' := (selectToken now exclude w).2 in
  faulty w' = faulty w ∧ mutexes w' = mutexes w ∧ tokenLocks w' = tokenLocks w ∧
  (∀ k s, config.lookup_field w k "session_id" = Ok s →
          config.lookup_field w' k "session_id" = Ok s) ∧
  (∀ t u s, sel = Chosen t u s → sessionServed w ("token:" ++ t) →
            config.lookup_field w' ("token:" ++ t) "session_id" = Ok s).
Proof.
  cbv zeta. unfold selectToken, selectAmong, bind, config.RedisKeys.
  destruct (faulty w (KEYS "token:*")).
  { cbn. repeat split; auto. intros; discriminate. }
  fold (pool w).
  destruct (List.length (pool w) =? 0)%nat.
  { cbn. repeat split; auto. intros; discriminate. }
  set (w0 := emit _ w).
  pose proof (scanKeys_effect now exclude (pool w) noQueues w0
                (λ k Hk, pool_key w k Hk) (sessionsBound_nil w0) (sessionsBound_nil w0))
    as Heff.
  cbv zeta in Heff.
  destruct (scanKeys now exclude (pool w) noQueues w0) as [q w1]. cbn [fst snd] in Heff.
  destruct Heff as (Hf & Hm & Ht & Hkeep & Ha & Hc).
  assert (Hserved : ∀ k, sessionServed w k → sessionServed w1 k).
  { intros k Hsv. unfold sessionServed in *. rewrite Hf. exact Hsv. }
  unfold choose.
  destruct (0 <? List.length (availableTokens q))%nat eqn:HA.
  - apply Nat.ltb_lt in HA. unfold bind, ret.
    pose proof (rand_Intn_lt _ w1 HA) as Hi.
    destruct (rand_Intn (List.length (availableTokens q)) w1) as [i w2] eqn:Hr.
    assert (Hw2 : w2 = set_rand_used (S (rand_used w1)) w1)
      by (unfold rand_Intn in Hr; congruence).
    cbn [fst snd] in *. subst w2.
    repeat split; auto.
    intros t u s [= <- _ <-] Hsv.
    destruct (lookup_lt_is_Some_2 _ _ Hi) as [t Ht'].
    destruct Ha as [_ Hb]. destruct (Hb i t Ht') as (s & Hs & Hbound).
    rewrite (nth_lookup_default _ _ _ Ht'), (nth_lookup_default _ _ _ Hs).
    rewrite (nth_lookup_default _ _ _ Ht') in Hsv.
    apply Hbound, Hserved, Hsv.
  - destruct (0 <? List.length (cooldownTokens q))%nat eqn:HC.
    + apply Nat.ltb_lt in HC. unfold bind, ret.
      pose proof (rand_Intn_lt _ w1 HC) as Hi.
      destruct (rand_Intn (List.length (cooldownTokens q)) w1) as [i w2] eqn:Hr.
      assert (Hw2 : w2 = set_rand_used (S (rand_used w1)) w1)
        by (unfold rand_Intn in Hr; congruence).
      cbn [fst snd] in *. subst w2.
      repeat split; auto.
      intros t u s [= <- _ <-] Hsv.
      destruct (lookup_lt_is_Some_2 _ _ Hi) as [t Ht'].
      destruct Hc as [_ Hb]. destruct (Hb i t Ht') as (s & Hs & Hbound).
      rewrite (nth_lookup_default _ _ _ Ht'), (nth_lookup_default _ _ _ Hs).
      rewrite (nth_lookup_default _ _ _ Ht') in Hsv.
      apply Hbound, Hserved, Hsv.
    + cbn. repeat split; auto. intros; discriminate.
Qed.

(** X6. The session id a selection returns is the one bound to the credential:
    afterwards the store holds it under the credential's "session_id", and
    a session id the store already held is returned as it is. *)
Theorem session_id_is_the_stored_one now exclude w t u s :
  (selectToken now exclude w).1 = Chosen t u s →
  sessionServed w ("token:" ++ t) →
  config.lookup_field (selectToken now exclude w).2 ("token:" ++ t) "session_id" = Ok s ∧
  (∀ s0, config.lookup_field w ("token:" ++ t) "session_id" = Ok s0 → s = s0).
Proof.
  intros Hsel Hsv.
  destruct (selectToken_effect now exclude w) as (_ & _ & _ & Hkeep & Hbound).
  pose proof (Hbound t u s Hsel Hsv) as Hs.
  split; [exact Hs|].
  intros s0 Hs0. apply Hkeep in Hs0. congruence.
Qed.


End selection_more.

Section switch.
Context `{!JSON TokenRequestStatus} `{!JSON TokenCoolStatus}.

Lemma SwitchTokenAndRetry_steps now c maxRetries w :
  SwitchTokenAndRetry now c maxRetries w =
  match gin.Get "token" c with
  | Some (AString currentToken) =>
      if (maxRetries <=? retryCountOf c)%Z
      then Returns (false, c) (emit (EvLog Warn "已达到最大重试次数，停止重试") w)
      else selectAndTransfer now c currentToken (retryCountOf c)
             (cooled now currentToken w)
  | _ => Returns (false, c) w
  end.
Proof.
  unfold SwitchTokenAndRetry, cooled.
  destruct (gin.Get "token" c) as [[currentToken|n|m]|]; try reflexivity.
  destruct (maxRetries <=? retryCountOf c)%Z; [reflexivity|].
  unfold andThen, lift.
  destruct (SetTokenCoolStatus now currentToken (5 * time.Minute) w) as [[e|] w1];
    reflexivity.
Qed.

Lemma SetTokenRequestStatus_effect token status w :
  let err := (SetTokenRequestStatus token status w).1 in
  let w' := (SetTokenRequestStatus token status w).2 in
  faulty w' = faulty w ∧ mutexes w' = mutexes w ∧ tokenLocks w' = tokenLocks w ∧
  (err = None →
   ∃ statusJSON, Marshal status = Ok statusJSON ∧
     redis w' = <["token_status:" ++ token := EString statusJSON time.Hour]> (redis w)) ∧
  (err ≠ None → redis w' = redis w).
Proof.
  cbv zeta. unfold SetTokenRequestStatus.
  destruct (Marshal status) as [js|e].
  - unfold config.RedisSet. destruct (faulty w _); cbn.
    + repeat split; auto. discriminate.
    + repeat split; auto; [eauto | congruence].
  - cbn. repeat split; auto. discriminate.
Qed.

(** ** Releasing the current credential (manager.go:432-443) *)

Lemma releaseCurrent_returns now c currentToken w w1 :
  releaseCurrent now c currentToken w = Returns tt w1 →
  faulty w1 = faulty w ∧ tokenLocks w1 = tokenLocks w ∧
  match gin.Get "token_lock" c with
  | Some (AMutex m) =>
      mutexes w !! m = Some true ∧ mutexes w1 = <[m := false]> (mutexes w)
  | _ => w1 = w
  end.
Proof.
  unfold releaseCurrent.
  destruct (gin.Get "token_lock" c) as [[?|?|m]|];
    try (unfold done; intros [= <-]; auto).
  unfold andThen, lift.
  destruct (SetTokenRequestStatus_effect currentToken
              {| InProgress := false; LastRequestAt := now |} w)
    as (Hf & Hm & Ht & _).
  destruct (SetTokenRequestStatus currentToken _ w) as [err w0]. cbn [fst snd] in *.
  cbv beta iota. unfold Unlock. rewrite Hm.
  destruct (mutexes w !! m) as [[|]|]; try discriminate.
  intros [= <-]. cbn. auto.
Qed.

Lemma releaseCurrent_store now c currentToken w w1 :
  releaseCurrent now c currentToken w = Returns tt w1 →
  ∀ k, k ≠ "token_status:" ++ currentToken → redis w1 !! k = redis w !! k.
Proof.
  unfold releaseCurrent.
  destruct (gin.Get "token_lock" c) as [[?|?|m]|];
    try (unfold done; intros [= <-]; reflexivity).
  unfold andThen, lift.
  destruct (SetTokenRequestStatus_effect currentToken
              {| InProgress := false; LastRequestAt := now |} w)
    as (_ & _ & _ & Hok & Hfail).
  destruct (SetTokenRequestStatus currentToken _ w) as [err w0]. cbn [fst snd] in *.
  cbv beta iota. unfold Unlock.
  destruct (mutexes w0 !! m) as [[|]|]; try discriminate.
  intros [= <-] k Hne. cbn.
  destruct err as [e|].
  - rewrite (Hfail ltac:(discriminate)). reflexivity.
  - destruct (Hok eq_refl) as (js & _ & ->). apply lookup_insert_ne. congruence.
Qed.

Lemma cooled_faulty now currentToken w : faulty (cooled now currentToken w) = faulty w.
Proof.
  unfold cooled, SetTokenCoolStatus.
  destruct (Marshal _) as [js|e]; [|reflexivity].
  unfold config.RedisSet. destruct (faulty w _); reflexivity.
Qed.

(** ** Taking the replacement (manager.go:445-476) *)

Lemma acquireNext_returns now c retryCount nextToken nextTenantURL nextSessionID w b c' w' :
  acquireNext now c retryCount nextToken nextTenantURL nextSessionID w
    = Returns (b, c') w' →
  let newLock := (GetTokenLock nextToken w).1 in
  let w1 := (GetTokenLock nextToken w).2 in
  mutexes w1 !! newLock = Some false ∧
  tokenLocks w' = tokenLocks w1 ∧ faulty w' = faulty w ∧
  if b
  then c' = switched c retryCount nextToken nextTenantURL nextSessionID newLock ∧
       mutexes w' = <[newLock := true]> (mutexes w1) ∧
       ∃ statusJSON,
         Marshal {| InProgress := true; LastRequestAt := now |} = Ok statusJSON ∧
         redis w' = <["token_status:" ++ nextToken := EString statusJSON time.Hour]> (redis w)
  else c' = c ∧ mutexes w' = mutexes w1 ∧ redis w' = redis w.
Proof.
  unfold acquireNext, andThen, lift.
  assert (Hlock : faulty (GetTokenLock nextToken w).2 = faulty w ∧
                  redis (GetTokenLock nextToken w).2 = redis w).
  { unfold GetTokenLock. destruct (tokenLocks w !! nextToken); auto. }
  destruct (GetTokenLock nextToken w) as [newLock w1]. cbn [fst snd] in *.
  destruct Hlock as [Hf1 Hr1]. cbv beta iota.
  unfold Lock at 1.
  destruct (mutexes w1 !! newLock) as [[|]|] eqn:Hheld; try discriminate.
  set (w2 := emit _ _).
  destruct (SetTokenRequestStatus_effect nextToken
              {| InProgress := true; LastRequestAt := now |} w2)
    as (Hf & Hm & Ht & Hok & Hfail).
  destruct (SetTokenRequestStatus nextToken _ w2) as [err w3]. cbn [fst snd] in *.
  cbv beta iota.
  assert (Hlen : (newLock < List.length (mutexes w1))%nat)
    by (eapply lookup_lt_Some; eauto).
  destruct err as [e|].
  - unfold Unlock. rewrite Hm. unfold w2 at 1. cbn [mutexes emit set_mutexes].
    rewrite list_lookup_insert_eq by exact Hlen.
    unfold done, log. cbn. intros [= <- <- <-]. cbn.
    split; [reflexivity|]. split; [rewrite Ht; reflexivity|].
    split; [rewrite Hf; exact Hf1|].
    split; [reflexivity|]. split.
    + rewrite list_insert_insert_eq. apply list_insert_id, Hheld.
    + rewrite (Hfail ltac:(discriminate)). exact Hr1.
  - unfold done, log. cbn. intros [= <- <- <-]. cbn.
    split; [reflexivity|]. split; [rewrite Ht; reflexivity|].
    split; [rewrite Hf; exact Hf1|].
    split; [reflexivity|]. split; [rewrite Hm; reflexivity|].
    destruct (Hok eq_refl) as (js & Hjs & Hredis). exists js.
    split; [exact Hjs|]. rewrite Hredis. unfold w2. cbn. rewrite Hr1. reflexivity.
Qed.



Lemma excluded_never_chosen now X w u s :
  (selectToken now (Some X) w).1 ≠ Chosen X u s.
Proof.
  apply (ineligible_never_chosen now (Some X) w X).
  intros key _ Htok. rewrite eligible_exclude, Htok, String.eqb_refl.
  apply andb_false_r.
Qed.

Lemma GetTokenLock_mutexes token w m held :
  mutexes w !! m = Some held → mutexes (GetTokenLock token w).2 !! m = Some held.
Proof.
  intros Hm. unfold GetTokenLock.
  destruct (tokenLocks w !! token); simpl; [exact Hm|].
  apply lookup_app_l_Some, Hm.
Qed.

Lemma GetTokenLock_registers token w :
  tokenLocks (GetTokenLock token w).2 !! token = Some (GetTokenLock token w).1.
Proof.
  unfold GetTokenLock. destruct (tokenLocks w !! token) eqn:Ht; simpl.
  - exact Ht.
  - apply lookup_insert_eq.
Qed.

Lemma wrap64_id z : (minInt64 ≤ z ≤ maxInt64)%Z → wrap64 z = z.
Proof.
  unfold wrap64, minInt64, maxInt64. intros Hz.
  rewrite Z.mod_small by lia. lia.
Qed.

(** What is known when the tail of the switch (selection and lock
    transfer) reports success. *)
Lemma selectAndTransfer_success now c currentToken retryCount w c' w' :
  selectAndTransfer now c currentToken retryCount w = Returns (true, c') w' →
  ∃ next u s lock statusJSON,
    next ≠ currentToken ∧
    c' = switched c retryCount next u s lock ∧
    tokenLocks w' !! next = Some lock ∧
    mutexes w' !! lock = Some true ∧
    Marshal {| InProgress := true; LastRequestAt := now |} = Ok statusJSON ∧
    redis w' !! ("token_status:" ++ next) = Some (EString statusJSON time.Hour) ∧
    (∀ m, gin.Get "token_lock" c = Some (AMutex m) → m ≠ lock →
          mutexes w' !! m = Some false) ∧
    (selectToken now (Some currentToken) w).1 = Chosen next u s ∧
    faulty w' = faulty w ∧
    (∀ k, k ≠ "token_status:" ++ currentToken → k ≠ "token_status:" ++ next →
          redis w' !! k = redis (selectToken now (Some currentToken) w).2 !! k).
Proof.
  unfold selectAndTransfer, andThen at 1, lift at 1, GetNextAvailableToken, bind, ret.
  pose proof (excluded_never_chosen now currentToken w) as Hex.
  destruct (selectToken_effect now (Some currentToken) w) as (Hfsel & _).
  destruct (selectToken now (Some currentToken) w) as [sel w1]. cbn [fst snd] in *.
  destruct (returned sel) as [[next u] s] eqn:Hret.
  destruct (_ || _) eqn:Hsent.
  { unfold andThen, lift, log, done. discriminate. }
  assert (Hsel : sel = Chosen next u s).
  { apply returned_inv in Hret as [Hsel | [Hs | Hs]]; [exact Hsel | |];
      injection Hs as -> _ _; discriminate Hsent. }
  assert (Hne : next ≠ currentToken).
  { intros ->. apply (Hex u s). exact Hsel. }
  unfold andThen.
  destruct (releaseCurrent now c currentToken w1) as [[] w2|m w2|e w2] eqn:Hrel;
    try discriminate.
  intros Hacq.
  pose proof (releaseCurrent_store _ _ _ _ _ Hrel) as Hstore.
  apply releaseCurrent_returns in Hrel as (Hfrel & _ & Hold).
  pose proof (acquireNext_returns _ _ _ _ _ _ _ _ _ _ Hacq) as Hnew.
  cbv zeta in Hnew.
  destruct Hnew as (Hfree & Htl & Hfacq & -> & Hmx & js & Hjs & Hredis).
  exists next, u, s, (GetTokenLock next w2).1, js.
  split; [exact Hne|]. split; [reflexivity|].
  split; [rewrite Htl; apply GetTokenLock_registers|].
  assert (Hlen : ((GetTokenLock next w2).1 < List.length (mutexes (GetTokenLock next w2).2))%nat)
    by (eapply lookup_lt_Some; eauto).
  split; [rewrite Hmx; apply list_lookup_insert_eq, Hlen|].
  split; [exact Hjs|].
  split; [rewrite Hredis; apply lookup_insert_eq|].
  split.
  { intros m Hm Hml. rewrite Hm in Hold. destruct Hold as [Hheld Hmx2].
    rewrite Hmx, list_lookup_insert_ne by congruence.
    apply GetTokenLock_mutexes. rewrite Hmx2.
    apply list_lookup_insert_eq. eapply lookup_lt_Some; eauto. }
  split; [exact Hsel|].
  split; [rewrite Hfacq, Hfrel; exact Hfsel|].
  intros k Hcur Hnext. rewrite Hredis, lookup_insert_ne by congruence.
  apply Hstore, Hcur.
Qed.

Lemma SwitchTokenAndRetry_tail now c maxRetries w c' w' :
  SwitchTokenAndRetry now c maxRetries w = Returns (true, c') w' →
  ∃ currentToken,
    gin.Get "token" c = Some (AString currentToken) ∧
    (retryCountOf c < maxRetries)%Z ∧
    selectAndTransfer now c currentToken (retryCountOf c) (cooled now currentToken w)
      = Returns (true, c') w'.
Proof.
  rewrite SwitchTokenAndRetry_steps.
  destruct (gin.Get "token" c) as [[currentToken|n|m]|]; try discriminate.
  destruct (maxRetries <=? retryCountOf c)%Z eqn:Hmax; [discriminate|].
  apply Z.leb_gt in Hmax. eauto.
Qed.

(** X8. A successful switch.  When SwitchTokenAndRetry reports success, the
    context names a replacement that differs from the credential it
    replaced, with the endpoint and the session id that
    GetNextAvailableToken returned for it, its lock and a retry count
    raised by exactly one.  The replacement was chosen by the selection
    that excludes the current credential; after the switch the store
    holds the endpoint in the context as the replacement's "tenant_url"
    and, when it serves that field, the session id in the context as its
    "session_id".  The replacement's lock is the registry's lock for it
    and is held; its request status is stored as in progress since [now]
    for one hour; and the lock the context held before has been
    released. *)
Theorem switch_success now c maxRetries w c' w' :
  SwitchTokenAndRetry now c maxRetries w = Returns (true, c') w' →
  (minInt64 ≤ retryCountOf c)%Z →
  (maxRetries ≤ maxInt64)%Z →
  ∃ currentToken next u s lock statusJSON,
    gin.Get "token" c = Some (AString currentToken) ∧
    next ≠ currentToken ∧
    gin.Get "token" c' = Some (AString next) ∧
    gin.Get "tenant_url" c' = Some (AString u) ∧
    gin.Get "session_id" c' = Some (AString s) ∧
    gin.Get "token_lock" c' = Some (AMutex lock) ∧
    retryCountOf c' = (retryCountOf c + 1)%Z ∧
    tokenLocks w' !! next = Some lock ∧
    mutexes w' !! lock = Some true ∧
    Marshal {| InProgress := true; LastRequestAt := now |} = Ok statusJSON ∧
    redis w' !! ("token_status:" ++ next) = Some (EString statusJSON time.Hour) ∧
    (∀ m, gin.Get "token_lock" c = Some (AMutex m) → m ≠ lock →
          mutexes w' !! m = Some false) ∧
    (GetNextAvailableToken now currentToken (cooled now currentToken w)).1
      = (next, u, s) ∧
    (selectToken now (Some currentToken) (cooled now currentToken w)).1
      = Chosen next u s ∧
    "token:" ++ next ∈ pool (cooled now currentToken w) ∧
    config.lookup_field (cooled now currentToken w) ("token:" ++ next) "tenant_url"
      = Ok u ∧
    config.lookup_field w' ("token:" ++ next) "tenant_url" = Ok u ∧
    (sessionServed w ("token:" ++ next) →
     config.lookup_field w' ("token:" ++ next) "session_id" = Ok s).
Proof.
  intros Hrun Hmin Hmax.
  destruct (SwitchTokenAndRetry_tail _ _ _ _ _ _ Hrun)
    as (currentToken & Htok & Hretry & Htail).
  destruct (selectAndTransfer_success _ _ _ _ _ _ _ Htail)
    as (next & u & s & lock & js & Hne & -> & Hreg & Hheld & Hjs & Hst & Hold
        & Hsel & Hfaulty & Hstore).
  exists currentToken, next, u, s, lock, js.
  assert (Hkey : ∀ key v,
    (key = "token" ∧ v = AString next) ∨ (key = "tenant_url" ∧ v = AString u) ∨
    (key = "session_id" ∧ v = AString s) ∨ (key = "token_lock" ∧ v = AMutex lock) ∨
    (key = "retry_count" ∧ v = AInt (wrap64 (retryCountOf c + 1))) →
    gin.Get key (switched c (retryCountOf c) next u s lock) = Some v).
  { intros key v Hcase. unfold switched, gin.Get, gin.Set'. cbn [gin.Keys].
    destruct Hcase as [[-> ->]|[[-> ->]|[[-> ->]|[[-> ->]|[-> ->]]]]];
      repeat (rewrite lookup_insert_ne by discriminate); apply lookup_insert_eq. }
  split; [exact Htok|]. split; [exact Hne|].
  split; [apply Hkey; auto|]. split; [apply Hkey; auto|].
  split; [apply Hkey; auto 6|]. split; [apply Hkey; auto 6|].
  split.
  { unfold retryCountOf at 1. rewrite (Hkey "retry_count" _ ltac:(auto 10)).
    apply wrap64_id. lia. }
  split; [exact Hreg|]. split; [exact Hheld|]. split; [exact Hjs|].
  split; [exact Hst|]. split; [exact Hold|].
  set (w0 := cooled now currentToken w) in *.
  split.
  { pose proof (SelectionAlgorithm_returned now (Some currentToken) w0) as Hret.
    cbn [SelectionAlgorithm] in Hret. rewrite Hret, Hsel. reflexivity. }
  split; [exact Hsel|].
  destruct (Chosen_filed now (Some currentToken) w0 next u s Hsel)
    as (_ & Hin & _ & Hurl).
  split; [exact Hin|]. split; [exact Hurl|].
  assert (Hfield : ∀ f, config.lookup_field w' ("token:" ++ next) f
                        = config.lookup_field
                            (selectToken now (Some currentToken) w0).2
                            ("token:" ++ next) f).
  { intros f. unfold config.lookup_field.
    destruct (selectToken_effect now (Some currentToken) w0) as (Hfsel & _).
    cbv zeta in Hfsel. rewrite Hfaulty, Hfsel.
    rewrite (Hstore ("token:" ++ next)) by discriminate. reflexivity. }
  split.
  { rewrite Hfield.
    rewrite (lookup_field_agree w0 _ _ "tenant_url"
               (selectToken_agree now (Some currentToken) w0)) by discriminate.
    exact Hurl. }
  intros Hserved. rewrite Hfield.
  destruct (selectToken_effect now (Some currentToken) w0) as (_ & _ & _ & _ & Hbound).
  apply (Hbound next u s Hsel).
  unfold sessionServed, w0. rewrite cooled_faulty. exact Hserved.
Qed.

(** X9. Failure leaves the request context alone: whenever the switch
    reports failure, for whatever reason, the context it hands back is
    the one it was given. *)
Theorem switch_failure_keeps_context now c maxRetries w c' w' :
  SwitchTokenAndRetry now c maxRetries w = Returns (false, c') w' → c' = c.
Proof.
  rewrite SwitchTokenAndRetry_steps.
  destruct (gin.Get "token" c) as [[currentToken|n|m]|]; try congruence.
  destruct (maxRetries <=? retryCountOf c)%Z; [congruence|].
  unfold selectAndTransfer, andThen at 1, lift at 1.
  destruct (GetNextAvailableToken now currentToken _) as [[[next u] s] w2].
  destruct (_ || _).
  { unfold andThen, lift, log, done. congruence. }
  unfold andThen.
  destruct (releaseCurrent now c currentToken w2) as [[] w3|m w3|e w3];
    try discriminate.
  intros Hacq. apply acquireNext_returns in Hacq. cbv zeta in Hacq.
  destruct Hacq as (_ & _ & _ & Hc & _). exact Hc.
Qed.



Lemma cooled_locks now currentToken w :
  mutexes (cooled now currentToken w) = mutexes w ∧
  tokenLocks (cooled now currentToken w) = tokenLocks w.
Proof.
  unfold cooled, SetTokenCoolStatus.
  destruct (Marshal _) as [js|e]; [|split; reflexivity].
  unfold config.RedisSet. destruct (faulty w _); split; reflexivity.
Qed.

(** X11. No replacement, no release.  When the selection that follows the
    cooldown finds no other credential, the switch reports failure with
    the context as it was and with every mutex and the registry as they
    were: the current credential's lock stays held. *)
Theorem switch_without_replacement now c maxRetries w currentToken :
  gin.Get "token" c = Some (AString currentToken) →
  (retryCountOf c < maxRetries)%Z →
  isSentinel (GetNextAvailableToken now currentToken (cooled now currentToken w)).1 →
  ∃ w', SwitchTokenAndRetry now c maxRetries w = Returns (false, c) w' ∧
        mutexes w' = mutexes w ∧ tokenLocks w' = tokenLocks w.
Proof.
  intros Htok Hretry Hsent.
  rewrite SwitchTokenAndRetry_steps, Htok.
  replace (maxRetries <=? retryCountOf c)%Z with false
    by (symmetry; apply Z.leb_gt, Hretry).
  unfold selectAndTransfer, andThen at 1, lift at 1.
  destruct (selectToken_effect now (Some currentToken) (cooled now currentToken w))
    as (_ & Hm & Ht & _).
  destruct (cooled_locks now currentToken w) as [Hm0 Ht0].
  unfold GetNextAvailableToken, bind, ret in *.
  destruct (selectToken now (Some currentToken) (cooled now currentToken w))
    as [sel w2]. cbn [fst snd] in *.
  destruct (returned sel) as [[next u] s].
  assert (Hcheck : (next =? "No token") || (next =? "No available token") = true).
  { destruct Hsent as [Hs | Hs]; injection Hs as -> _ _; reflexivity. }
  rewrite Hcheck. unfold andThen, lift, log, done.
  eexists. split; [reflexivity|]. cbn. split; congruence.
Qed.

End switch.

Section middleware_more.
Context `{!JSON TokenRequestStatus} `{!JSON TokenCoolStatus}.

Lemma gated_guard c :
  negb (HasSuffix (gin.Path c) "/chat/completions") &&
  negb (HasSuffix (gin.Path c) "/messages") = negb (gated c).
Proof. unfold gated. destruct (HasSuffix _ _), (HasSuffix _ _); reflexivity. Qed.

Lemma middleware_passes_ungated_aux cfg now c w :
  gated c = false ∨ CodingMode cfg = "true" →
  ∃ c', middleware.TokenConcurrencyMiddleware cfg now c w = Returns c' w ∧
        gin.Passed c' = true ∧ gin.Aborted c' = gin.Aborted c ∧
        gin.Written c' = gin.Written c ∧
        (gated c = false → gin.Keys c' = gin.Keys c) ∧
        (gated c = true →
         gin.Get "token" c' = Some (AString (CodingToken cfg)) ∧
         gin.Get "tenant_url" c' = Some (AString (TenantURL cfg))).
Proof.
  intros Hcase. unfold middleware.TokenConcurrencyMiddleware.
  rewrite gated_guard.
  destruct (gated c) eqn:Hg; cbn [negb].
  - destruct Hcase as [Hcase | Hmode]; [discriminate|].
    rewrite Hmode, String.eqb_refl.
    eexists. split; [reflexivity|]. cbn.
    repeat split; try discriminate.
    + unfold gin.Get. cbn. rewrite lookup_insert_ne by discriminate.
      apply lookup_insert_eq.
    + unfold gin.Get. cbn. apply lookup_insert_eq.
  - eexists. split; [reflexivity|]. cbn. repeat split; discriminate.
Qed.

(** X12. Requests the middleware does not gate.  On any other route, and on
    the gated routes in coding mode, the request is passed on at once: no
    command goes to the store, no lock is looked up or taken; only in
    coding mode are the configured token and endpoint put in the context. *)
Theorem middleware_passes_ungated cfg now c w :
  gated c = false ∨ CodingMode cfg = "true" →
  ∃ c', middleware.TokenConcurrencyMiddleware cfg now c w = Returns c' w ∧
        gin.Passed c' = true ∧ gin.Aborted c' = gin.Aborted c ∧
        gin.Written c' = gin.Written c ∧
        (gated c = false → gin.Keys c' = gin.Keys c) ∧
        (gated c = true →
         gin.Get "token" c' = Some (AString (CodingToken cfg)) ∧
         gin.Get "tenant_url" c' = Some (AString (TenantURL cfg))).
Proof. apply middleware_passes_ungated_aux. Qed.

(** The gated path of the middleware, step by step. *)
Lemma middleware_gated cfg now c w :
  gated c = true → String.eqb (CodingMode cfg) "true" = false →
  middleware.TokenConcurrencyMiddleware cfg now c w =
  (let! '(tokenStr, tenantURL, sessionID) := lift (GetAvailableToken now) in
   if String.eqb tokenStr "No token" then
     done (gin.Abort (gin.JSON 429 "当前无可用token，请在页面添加" c))
   else if String.eqb tokenStr "No available token" || String.eqb tenantURL ""
   then done (gin.Abort (gin.JSON 429 "当前请求过多，请稍后再试" c))
   else
     let! lock := lift (GetTokenLock tokenStr) in
     Lock lock ;;;
     let! err := lift (SetTokenRequestStatus tokenStr
                         {| InProgress := true; LastRequestAt := now |}) in
     match err with
     | Some _ =>
         Unlock lock ;;;
         done (gin.Abort (gin.JSON 500 "更新token请求状态失败" c))
     | None =>
         lift (log Info "本次请求使用的token: ") ;;;
         done (gin.Next
                 (gin.Set' "session_id" (AString sessionID)
                    (gin.Set' "tenant_url" (AString tenantURL)
                       (gin.Set' "token" (AString tokenStr)
                          (gin.Set' "token_lock" (AMutex lock) c)))))
     end) w.
Proof.
  intros Hg Hmode. unfold middleware.TokenConcurrencyMiddleware.
  rewrite gated_guard, Hg, Hmode. reflexivity.
Qed.

(** What the middleware does once a credential is selected
    (middleware.go, lock, status write, context). *)
Lemma middleware_take c now tokenStr tenantURL sessionID w c' w' :
  (let! lock := lift (GetTokenLock tokenStr) in
   Lock lock ;;;
   let! err := lift (SetTokenRequestStatus tokenStr
                       {| InProgress := true; LastRequestAt := now |}) in
   match err with
   | Some _ =>
       Unlock lock ;;;
       done (gin.Abort (gin.JSON 500 "更新token请求状态失败" c))
   | None =>
       lift (log Info "本次请求使用的token: ") ;;;
       done (gin.Next
               (gin.Set' "session_id" (AString sessionID)
                  (gin.Set' "tenant_url" (AString tenantURL)
                     (gin.Set' "token" (AString tokenStr)
                        (gin.Set' "token_lock" (AMutex lock) c)))))
   end) w = Returns c' w' →
  let lock := (GetTokenLock tokenStr w).1 in
  let w1 := (GetTokenLock tokenStr w).2 in
  mutexes w1 !! lock = Some false ∧ tokenLocks w' = tokenLocks w1 ∧
  ((c' = gin.Abort (gin.JSON 500 "更新token请求状态失败" c) ∧
    mutexes w' = mutexes w1 ∧ redis w' = redis w) ∨
   (c' = gin.Next
           (gin.Set' "session_id" (AString sessionID)
              (gin.Set' "tenant_url" (AString tenantURL)
                 (gin.Set' "token" (AString tokenStr)
                    (gin.Set' "token_lock" (AMutex lock) c)))) ∧
    mutexes w' = <[lock := true]> (mutexes w1) ∧
    ∃ statusJSON,
      Marshal {| InProgress := true; LastRequestAt := now |} = Ok statusJSON ∧
      redis w' = <["token_status:" ++ tokenStr := EString statusJSON time.Hour]> (redis w))).
Proof.
  unfold andThen, lift.
  assert (Hlock : redis (GetTokenLock tokenStr w).2 = redis w).
  { unfold GetTokenLock. destruct (tokenLocks w !! tokenStr); auto. }
  destruct (GetTokenLock tokenStr w) as [lock w1]. cbn [fst snd] in *.
  cbv beta iota. unfold Lock at 1.
  destruct (mutexes w1 !! lock) as [[|]|] eqn:Hheld; try discriminate.
  set (w2 := emit _ _).
  destruct (SetTokenRequestStatus_effect tokenStr
              {| InProgress := true; LastRequestAt := now |} w2)
    as (Hf & Hm & Ht & Hok & Hfail).
  destruct (SetTokenRequestStatus tokenStr _ w2) as [err w3]. cbn [fst snd] in *.
  cbv beta iota.
  assert (Hlen : (lock < List.length (mutexes w1))%nat)
    by (eapply lookup_lt_Some; eauto).
  destruct err as [e|].
  - unfold Unlock. rewrite Hm. unfold w2 at 1. cbn [mutexes emit set_mutexes].
    rewrite list_lookup_insert_eq by exact Hlen.
    unfold done. intros [= <- <-]. cbn.
    split; [reflexivity|]. split; [rewrite Ht; reflexivity|].
    left. split; [reflexivity|]. split.
    + rewrite list_insert_insert_eq. apply list_insert_id, Hheld.
    + rewrite (Hfail ltac:(discriminate)). exact Hlock.
  - unfold done, log. cbn. intros [= <- <-]. cbn.
    split; [reflexivity|]. split; [rewrite Ht; reflexivity|].
    right. split; [reflexivity|]. split; [rewrite Hm; reflexivity|].
    destruct (Hok eq_refl) as (js & Hjs & Hredis). exists js.
    split; [exact Hjs|]. rewrite Hredis. unfold w2. cbn. rewrite Hlock. reflexivity.
Qed.

(** X13. A request passed on by the middleware holds its credential.  When the
    middleware passes a gated request on, the credential in the context is
    the one the selection chose, its endpoint is not empty, the lock in
    the context is the registry's lock for that credential and is held,
    and the credential's request status is stored as in progress since
    [now], for one hour. *)
Theorem middleware_passes_with_lock cfg now c w c' w' :
  gated c = true →
  String.eqb (CodingMode cfg) "true" = false →
  gin.Passed c = false →
  middleware.TokenConcurrencyMiddleware cfg now c w = Returns c' w' →
  gin.Passed c' = true →
  ∃ t u s lock statusJSON,
    (selectToken now None w).1 = Chosen t u s ∧ u ≠ "" ∧
    gin.Get "token" c' = Some (AString t) ∧
    gin.Get "tenant_url" c' = Some (AString u) ∧
    gin.Get "session_id" c' = Some (AString s) ∧
    gin.Get "token_lock" c' = Some (AMutex lock) ∧
    tokenLocks w' !! t = Some lock ∧
    mutexes w' !! lock = Some true ∧
    Marshal {| InProgress := true; LastRequestAt := now |} = Ok statusJSON ∧
    redis w' !! ("token_status:" ++ t) = Some (EString statusJSON time.Hour).
Proof.
  intros Hg Hmode Hnot Hrun Hpassed.
  rewrite (middleware_gated cfg now c w Hg Hmode) in Hrun.
  unfold andThen at 1, lift at 1, GetAvailableToken, bind, ret in Hrun.
  destruct (selectToken now None w) as [sel w0]. cbn [fst].
  destruct (returned sel) as [[t u] s] eqn:Hret.
  destruct (t =? "No token") eqn:Hnt.
  { unfold done in Hrun. injection Hrun as <- _. cbn in Hpassed. congruence. }
  destruct (t =? "No available token") eqn:Hna; cbn [orb] in Hrun.
  { unfold done in Hrun. injection Hrun as <- _. cbn in Hpassed. congruence. }
  destruct (u =? "") eqn:Hu.
  { unfold done in Hrun. injection Hrun as <- _. cbn in Hpassed. congruence. }
  apply middleware_take in Hrun. cbv zeta in Hrun.
  destruct Hrun as (Hfree & Htl & [(-> & _) | (-> & Hmx & js & Hjs & Hredis)]).
  { cbn in Hpassed. congruence. }
  exists t, u, s, (GetTokenLock t w0).1, js.
  split.
  { apply returned_inv in Hret as [Hsel | [Hs | Hs]]; [exact Hsel | |];
      injection Hs as -> _ _; discriminate. }
  split; [intros ->; discriminate Hu|].
  unfold gin.Get, gin.Next, gin.Set'. cbn [gin.Keys].
  split; [rewrite !lookup_insert_ne by discriminate; apply lookup_insert_eq|].
  split; [rewrite lookup_insert_ne by discriminate; apply lookup_insert_eq|].
  split; [apply lookup_insert_eq|].
  split; [rewrite !lookup_insert_ne by discriminate; apply lookup_insert_eq|].
  split; [rewrite Htl; apply GetTokenLock_registers|].
  split.
  { rewrite Hmx. apply list_lookup_insert_eq. eapply lookup_lt_Some; eauto. }
  split; [exact Hjs|].
  rewrite Hredis. apply lookup_insert_eq.
Qed.

(** X14. A request the middleware turns away holds no lock.  When the middleware
    does not pass a request on, it has aborted it with status 429 or 500,
    left the context's keys alone, and every mutex that is held afterwards
    was held before. *)
Theorem middleware_rejection_holds_no_lock cfg now c w c' w' :
  gin.Passed c = false →
  middleware.TokenConcurrencyMiddleware cfg now c w = Returns c' w' →
  gin.Passed c' = false →
  gin.Aborted c' = true ∧
  (∃ code msg, gin.Written c' = Some (code, msg) ∧ (code = 429 ∨ code = 500)%Z) ∧
  gin.Keys c' = gin.Keys c ∧
  ∀ m, mutexes w' !! m = Some true → mutexes w !! m = Some true.
Proof.
  intros Hnot Hrun Hrej.
  destruct (gated c) eqn:Hg.
  2:{ destruct (middleware_passes_ungated_aux cfg now c w) as (c0 & Hrun0 & Hp & _);
        [left; exact Hg|].
      rewrite Hrun0 in Hrun. injection Hrun as <- _. congruence. }
  destruct (String.eqb (CodingMode cfg) "true") eqn:Hmode.
  { apply String.eqb_eq in Hmode.
    destruct (middleware_passes_ungated_aux cfg now c w) as (c0 & Hrun0 & Hp & _);
      [right; exact Hmode|].
    rewrite Hrun0 in Hrun. injection Hrun as <- _. congruence. }
  rewrite (middleware_gated cfg now c w Hg Hmode) in Hrun.
  unfold andThen at 1, lift at 1, GetAvailableToken, bind, ret in Hrun.
  destruct (selectToken_effect now None w) as (_ & Hm & _).
  destruct (selectToken now None w) as [sel w0]. cbn [fst snd] in *.
  destruct (returned sel) as [[t u] s].
  destruct (t =? "No token").
  { unfold done in Hrun. injection Hrun as <- <-. cbn.
    split; [reflexivity|]. split; [eauto|]. split; [reflexivity|].
    intros m. rewrite Hm. auto. }
  destruct ((t =? "No available token") || (u =? "")).
  { unfold done in Hrun. injection Hrun as <- <-. cbn.
    split; [reflexivity|]. split; [eauto|]. split; [reflexivity|].
    intros m. rewrite Hm. auto. }
  apply middleware_take in Hrun. cbv zeta in Hrun.
  destruct Hrun as (Hfree & Htl & [(-> & Hmx & _) | (-> & _)]).
  2:{ cbn in Hrej. discriminate. }
  cbn. split; [reflexivity|]. split; [eauto|]. split; [reflexivity|].
  intros m Hheld. rewrite Hmx in Hheld. rewrite <- Hm.
  unfold GetTokenLock in Hheld, Hfree.
  destruct (tokenLocks w0 !! t); cbn [fst snd mutexes set_mutexes set_tokenLocks] in *;
    [exact Hheld|].
  destruct (decide (m < List.length (mutexes w0))%nat) as [Hlt|Hge].
  - rewrite lookup_app_l in Hheld by exact Hlt. exact Hheld.
  - rewrite lookup_app_r in Hheld by lia.
    destruct (m - List.length (mutexes w0))%nat as [|[|n]]; discriminate.
Qed.

End middleware_more.

Section validator_more.

(** ** The candidate list *)

Lemma addUnique_spec urls : ∀ (unique : gset string) acc,
  NoDup acc → (∀ x, x ∈ acc → x ∈ unique) →
  NoDup (api.addUnique urls unique acc) ∧
  (∀ x, x ∈ api.addUnique urls unique acc ↔ x ∈ acc ∨ (x ∈ urls ∧ x ∉ unique)) ∧
  ∃ rest, api.addUnique urls unique acc = (acc ++ rest)%list.
Proof.
  induction urls as [|url urls IH]; intros unique acc Hnd Hsub; cbn [api.addUnique].
  - split; [exact Hnd|]. split.
    + intros x. split; [auto|]. intros [Hx | [Hx _]]; [exact Hx | inversion Hx].
    + exists []. rewrite app_nil_r. reflexivity.
  - case_bool_decide as Hin.
    + destruct (IH unique acc Hnd Hsub) as (Hnd' & Hmem & Hpre).
      split; [exact Hnd'|]. split; [|exact Hpre].
      intros x. rewrite Hmem. split.
      * intros [Hx | [Hx Hnx]]; [auto|]. right. split; [right; exact Hx | exact Hnx].
      * intros [Hx | [Hx Hnx]]; [auto|]. apply elem_of_cons in Hx as [-> | Hx];
          [contradiction | auto].
    + assert (Hnd1 : NoDup (acc ++ [url])%list).
      { apply NoDup_app. split; [exact Hnd|]. split; [|apply NoDup_singleton].
        intros x Hx Hx'. apply list_elem_of_singleton in Hx'. subst x.
        apply Hin, Hsub, Hx. }
      assert (Hsub1 : ∀ x, x ∈ (acc ++ [url])%list → x ∈ ({[url]} ∪ unique : gset string)).
      { intros x Hx. apply elem_of_app in Hx as [Hx | Hx].
        - apply elem_of_union_r, Hsub, Hx.
        - apply list_elem_of_singleton in Hx. subst x.
          apply elem_of_union_l, elem_of_singleton. reflexivity. }
      destruct (IH _ _ Hnd1 Hsub1) as (Hnd' & Hmem & rest & Hpre).
      split; [exact Hnd'|]. split.
      * intros x. rewrite Hmem. split.
        -- intros [Hx | [Hx Hn]].
           ++ apply elem_of_app in Hx as [Hx | Hx]; [left; exact Hx|].
              apply list_elem_of_singleton in Hx. subst x.
              right. split; [apply list_elem_of_here | exact Hin].
           ++ right. split; [apply list_elem_of_further, Hx|].
              intros Hu. apply Hn, elem_of_union_r, Hu.
        -- intros [Hx | [Hx Hn]].
           ++ left. apply elem_of_app. left. exact Hx.
           ++ destruct (decide (x = url)) as [-> | Hne].
              ** left. apply elem_of_app. right. apply list_elem_of_singleton.
                 reflexivity.
              ** right. apply elem_of_cons in Hx as [-> | Hx]; [contradiction|].
                 split; [exact Hx|]. intros Hu.
                 apply elem_of_union in Hu as [Hu | Hu]; [|contradiction].
                 apply elem_of_singleton in Hu. contradiction.
      * exists (url :: rest). rewrite Hpre, <- app_assoc. reflexivity.
Qed.

(** X15. The candidates of CheckTokenTenantURL: no endpoint is probed twice,
    every one of the 27 fixed endpoints is a candidate, nothing else is
    but the recorded endpoint, and a recorded, non-empty endpoint comes
    first. *)
Theorem candidates_are_deduplicated current :
  NoDup (api.tenantURLsToTest current) ∧
  (∀ u, u ∈ api.fallbackURLs → u ∈ api.tenantURLsToTest current) ∧
  (∀ u, u ∈ api.tenantURLsToTest current → u ∈ api.fallbackURLs ∨ current = Ok u) ∧
  (∀ u, current = Ok u → u ≠ "" → head (api.tenantURLsToTest current) = Some u) ∧
  (List.length api.fallbackURLs = 27)%nat.
Proof.
  assert (Hlen : List.length api.fallbackURLs = 27%nat) by (vm_compute; reflexivity).
  unfold api.tenantURLsToTest. revert Hlen.
  generalize api.fallbackURLs as F. intros F Hlen.
  destruct current as [u|e]; cbn [is_ok andb].
  - destruct (u =? "") eqn:Hu; cbn [negb].
    + destruct (addUnique_spec F ∅ [] NoDup_nil_2) as (Hnd & Hmem & _).
      { intros x Hx. inversion Hx. }
      split; [exact Hnd|]. split.
      { intros x Hx. apply Hmem. right. split; [exact Hx | apply not_elem_of_empty]. }
      split.
      { intros x Hx. apply Hmem in Hx as [Hx | [Hx _]]; [inversion Hx | auto]. }
      split; [|exact Hlen].
      intros u' [= <-] Hne. apply String.eqb_eq in Hu. contradiction.
    + destruct (addUnique_spec F {[u]} [u]) as (Hnd & Hmem & rest & Hpre).
      { apply NoDup_singleton. }
      { intros x Hx. apply list_elem_of_singleton in Hx. subst x.
        apply elem_of_singleton. reflexivity. }
      split; [exact Hnd|]. split.
      { intros x Hx. apply Hmem. destruct (decide (x = u)) as [-> | Hne].
        - left. apply list_elem_of_singleton. reflexivity.
        - right. split; [exact Hx|]. rewrite elem_of_singleton. exact Hne. }
      split.
      { intros x Hx. apply Hmem in Hx as [Hx | [Hx _]]; [|auto].
        apply list_elem_of_singleton in Hx. subst x. auto. }
      split; [|exact Hlen].
      intros u' [= <-] _. rewrite Hpre. reflexivity.
  - change (negb ("" =? "")) with false. cbn iota.
    destruct (addUnique_spec F ∅ [] NoDup_nil_2) as (Hnd & Hmem & _).
    { intros x Hx. inversion Hx. }
    split; [exact Hnd|]. split.
    { intros x Hx. apply Hmem. right. split; [exact Hx | apply not_elem_of_empty]. }
    split.
    { intros x Hx. apply Hmem in Hx as [Hx | [Hx _]]; [inversion Hx | auto]. }
    split; [|exact Hlen]. intros u' Hu'. discriminate.
Qed.

(** ** The closure and the loop *)

Lemma inspect_effect cfg key url resp w :
  faulty (api.inspect cfg key url resp w).2 = faulty w ∧
  upstream (api.inspect cfg key url resp w).2 = upstream w ∧
  (∀ k, k ≠ key → redis (api.inspect cfg key url resp w).2 !! k = redis w !! k) ∧
  match (api.inspect cfg key url resp w).1 with
  | api.Invalid =>
      rejects cfg resp = true ∧
      (faulty w (HSET key "status" "disabled") = false →
       (∀ v t, redis w !! key ≠ Some (EString v t)) →
       ∃ h, redis (api.inspect cfg key url resp w).2 !! key = Some (EHash h) ∧
            h !! "status" = Some "disabled")
  | api.Valid u =>
      u = url ∧ accepts cfg resp = true ∧
      ∃ h, redis (api.inspect cfg key url resp w).2 !! key = Some (EHash h) ∧
           h !! "tenant_url" = Some url
  | api.Undecided => redis (api.inspect cfg key url resp w).2 = redis w
  end.
Proof.
  unfold api.inspect, rejects, accepts.
  destruct (api.status_is resp 401) eqn:H401.
  - destruct (_ && _ && contains _ _) eqn:Hm; [|cbn; auto].
    unfold bind, config.RedisHSet, log, ret.
    destruct (faulty w (HSET key "status" "disabled")) eqn:Hf; cbn.
    + repeat split; auto; discriminate.
    + destruct (redis w !! key) as [[v t|h]|] eqn:Hk; cbn.
      * repeat split; auto. intros _ Hs. exfalso. eapply Hs. reflexivity.
      * repeat split; auto.
        -- intros k Hne. apply lookup_insert_ne. congruence.
        -- intros _ _. eexists. split; [apply lookup_insert_eq|].
           apply lookup_insert_eq.
      * repeat split; auto.
        -- intros k Hne. apply lookup_insert_ne. congruence.
        -- intros _ _. eexists. split; [apply lookup_insert_eq|].
           apply lookup_insert_eq.
  - destruct (api.status_is resp 200 || api.status_is resp 402) eqn:Hcode; [|cbn; auto].
    destruct (_ && (0 <? _)%nat) eqn:Hread; [|cbn; auto].
    destruct (_ && api.subscriptionMarker _) eqn:Hmark.
    + unfold bind, config.RedisHSet, log, ret.
      destruct (faulty w (HSET key "status" "disabled")) eqn:Hf; cbn.
      * repeat split; auto; discriminate.
      * destruct (redis w !! key) as [[v t|h]|] eqn:Hk; cbn.
        -- repeat split; auto. intros _ Hs. exfalso. eapply Hs. reflexivity.
        -- repeat split; auto.
           ++ intros k Hne. apply lookup_insert_ne. congruence.
           ++ intros _ _. eexists. split; [apply lookup_insert_eq|].
              apply lookup_insert_eq.
        -- repeat split; auto.
           ++ intros k Hne. apply lookup_insert_ne. congruence.
           ++ intros _ _. eexists. split; [apply lookup_insert_eq|].
              apply lookup_insert_eq.
    + unfold bind, config.RedisHSet, log, ret.
      destruct (faulty w (HSET key "tenant_url" url)) eqn:Hf; cbn; [auto|].
      destruct (redis w !! key) as [[v t|h]|] eqn:Hk; cbn; [auto| |].
      * rewrite lookup_insert_eq.
        destruct (faulty w (HSET key "status" "active")) eqn:Hf2; cbn.
        -- repeat split; auto.
           ++ intros k Hne. apply lookup_insert_ne. congruence.
           ++ eexists. split; [apply lookup_insert_eq|]. apply lookup_insert_eq.
        -- repeat split; auto.
           ++ intros k Hne. rewrite !lookup_insert_ne by congruence. reflexivity.
           ++ eexists. split; [apply lookup_insert_eq|].
              rewrite lookup_insert_ne by discriminate. apply lookup_insert_eq.
      * rewrite lookup_insert_eq.
        destruct (faulty w (HSET key "status" "active")) eqn:Hf2; cbn.
        -- repeat split; auto.
           ++ intros k Hne. apply lookup_insert_ne. congruence.
           ++ eexists. split; [apply lookup_insert_eq|]. apply lookup_insert_eq.
        -- repeat split; auto.
           ++ intros k Hne. rewrite !lookup_insert_ne by congruence. reflexivity.
           ++ eexists. split; [apply lookup_insert_eq|].
              rewrite lookup_insert_ne by discriminate. apply lookup_insert_eq.
Qed.

Lemma probe_BadRequest cfg token sessionID url urls w :
  upstream w (url ++ "chat-stream") token sessionID = BadRequest →
  api.probe cfg token sessionID (url :: urls) w = api.probe cfg token sessionID urls w.
Proof. intros Hup. cbn [api.probe]. rewrite Hup. reflexivity. Qed.

Lemma probe_NoResponse cfg token sessionID url urls w e :
  upstream w (url ++ "chat-stream") token sessionID = NoResponse e →
  api.probe cfg token sessionID (url :: urls) w =
  api.probe cfg token sessionID urls
    (emit (EvLog Printf "请求失败")
       (emit (EvHTTP (url ++ "chat-stream")) (set_uuid_used (S (uuid_used w)) w))).
Proof. intros Hup. cbn [api.probe]. rewrite Hup. reflexivity. Qed.

Lemma probe_Responds cfg token sessionID url urls w resp :
  upstream w (url ++ "chat-stream") token sessionID = Responds resp →
  api.probe cfg token sessionID (url :: urls) w =
  let w1 := emit (EvHTTP (url ++ "chat-stream")) (set_uuid_used (S (uuid_used w)) w) in
  match (api.inspect cfg ("token:" ++ token) url resp w1).1 with
  | api.Invalid =>
      (Err "token被标记为不可用", (api.inspect cfg ("token:" ++ token) url resp w1).2)
  | api.Valid u => (Ok u, (api.inspect cfg ("token:" ++ token) url resp w1).2)
  | api.Undecided =>
      api.probe cfg token sessionID urls
        (api.inspect cfg ("token:" ++ token) url resp w1).2
  end.
Proof.
  intros Hup. cbn [api.probe]. rewrite Hup.
  unfold bind, uuid_New. cbv beta iota zeta.
  destruct (api.inspect _ _ _ _ _) as [[|u|] w2]; reflexivity.
Qed.

Lemma probe_effect cfg token sessionID urls : ∀ w,
  faulty (api.probe cfg token sessionID urls w).2 = faulty w ∧
  upstream (api.probe cfg token sessionID urls w).2 = upstream w ∧
  (∀ k, k ≠ "token:" ++ token →
        redis (api.probe cfg token sessionID urls w).2 !! k = redis w !! k) ∧
  match (api.probe cfg token sessionID urls w).1 with
  | Ok u =>
      u ∈ urls ∧
      (∃ resp, upstream w (u ++ "chat-stream") token sessionID = Responds resp ∧
               accepts cfg resp = true) ∧
      ∃ h, redis (api.probe cfg token sessionID urls w).2 !! ("token:" ++ token)
             = Some (EHash h) ∧
           h !! "tenant_url" = Some u
  | Err e =>
      (e = "未找到有效的租户地址" ∧
       redis (api.probe cfg token sessionID urls w).2 = redis w) ∨
      (e = "token被标记为不可用" ∧
       (∃ u resp, u ∈ urls ∧
                  upstream w (u ++ "chat-stream") token sessionID = Responds resp ∧
                  rejects cfg resp = true) ∧
       (faulty w (HSET ("token:" ++ token) "status" "disabled") = false →
        (∀ v t, redis w !! ("token:" ++ token) ≠ Some (EString v t)) →
        ∃ h, redis (api.probe cfg token sessionID urls w).2 !! ("token:" ++ token)
               = Some (EHash h) ∧
             h !! "status" = Some "disabled"))
  end.
Proof.
  induction urls as [|url urls IH]; intros w.
  - cbn. do 3 (split; [reflexivity|]). left. split; reflexivity.
  - destruct (upstream w (url ++ "chat-stream") token sessionID) as [|e|resp] eqn:Hup.
    + rewrite (probe_BadRequest _ _ _ _ _ _ Hup).
      destruct (IH w) as (Hf & Hu & Hk & Hres).
      split; [exact Hf|]. split; [exact Hu|]. split; [exact Hk|].
      destruct (api.probe cfg token sessionID urls w).1 as [u|e].
      * destruct Hres as (Hin & Hresp & Hh).
        split; [right; exact Hin|]. split; [exact Hresp | exact Hh].
      * destruct Hres as [Hres | (He & (u & resp & Hin & Hresp) & Hh)]; [left; exact Hres|].
        right. split; [exact He|]. split; [|exact Hh].
        exists u, resp. split; [right; exact Hin | exact Hresp].
    + rewrite (probe_NoResponse _ _ _ _ _ _ _ Hup).
      set (w1 := emit _ (emit _ (set_uuid_used _ w))).
      destruct (IH w1) as (Hf & Hu & Hk & Hres).
      change (upstream w1) with (upstream w) in *.
      change (faulty w1) with (faulty w) in *.
      change (redis w1) with (redis w) in *.
      split; [exact Hf|]. split; [exact Hu|]. split; [exact Hk|].
      destruct (api.probe cfg token sessionID urls w1).1 as [u|e'].
      * destruct Hres as (Hin & Hresp & Hh).
        split; [right; exact Hin|]. split; [exact Hresp | exact Hh].
      * destruct Hres as [Hres | (He & (u & resp & Hin & Hresp) & Hh)]; [left; exact Hres|].
        right. split; [exact He|]. split; [|exact Hh].
        exists u, resp. split; [right; exact Hin | exact Hresp].
    + rewrite (probe_Responds _ _ _ _ _ _ _ Hup). cbv zeta.
      set (w1 := emit _ (set_uuid_used _ w)).
      pose proof (inspect_effect cfg ("token:" ++ token) url resp w1) as (Hf & Hu & Hk & Hres).
      change (upstream w1) with (upstream w) in *.
      change (faulty w1) with (faulty w) in *.
      change (redis w1) with (redis w) in *.
      set (w2 := (api.inspect cfg ("token:" ++ token) url resp w1).2) in *.
      destruct (api.inspect cfg ("token:" ++ token) url resp w1).1 as [|u|].
      * cbn [fst snd]. split; [exact Hf|]. split; [exact Hu|]. split; [exact Hk|].
        right. split; [reflexivity|]. destruct Hres as [Hrej Hh]. split; [|exact Hh].
        exists url, resp. split; [left | split; [exact Hup | exact Hrej]].
      * cbn [fst snd]. split; [exact Hf|]. split; [exact Hu|]. split; [exact Hk|].
        destruct Hres as (-> & Hacc & Hh).
        split; [left|]. split; [|exact Hh]. exists resp. split; [exact Hup | exact Hacc].
      * destruct (IH w2) as (Hf' & Hu' & Hk' & Hres').
        rewrite Hu, Hf, Hres in *.
        split; [exact Hf'|]. split; [exact Hu'|].
        split; [intros k Hne; rewrite (Hk' k Hne); reflexivity|].
        destruct (api.probe cfg token sessionID urls w2).1 as [u|e'].
        -- destruct Hres' as (Hin & Hresp & Hh).
           split; [right; exact Hin|]. split; [exact Hresp | exact Hh].
        -- destruct Hres' as [Hres' | (He & (u & resp' & Hin & Hresp) & Hh)];
             [left; exact Hres'|].
           right. split; [exact He|]. split; [|exact Hh].
           exists u, resp'. split; [right; exact Hin | exact Hresp].
Qed.

(** X16. An endpoint CheckTokenTenantURL returns is one of its candidates, it
    answered with an acceptable 200 or 402, and it is the endpoint the
    credential's hash holds afterwards; no other key of the store has
    changed. *)
Theorem validator_sound cfg jsonData token sessionID w u :
  (api.CheckTokenTenantURL cfg jsonData token sessionID w).1 = Ok u →
  let w' := (api.CheckTokenTenantURL cfg jsonData token sessionID w).2 in
  u ∈ api.tenantURLsToTest (config.lookup_field w ("token:" ++ token) "tenant_url") ∧
  (∃ resp, upstream w (u ++ "chat-stream") token sessionID = Responds resp ∧
           accepts cfg resp = true) ∧
  (∃ h, redis w' !! ("token:" ++ token) = Some (EHash h) ∧
        h !! "tenant_url" = Some u) ∧
  (∀ k, k ≠ "token:" ++ token → redis w' !! k = redis w !! k).
Proof.
  unfold api.CheckTokenTenantURL.
  destruct jsonData as [js|e]; [|discriminate].
  unfold bind, config.RedisHGet. cbv beta iota zeta.
  set (w0 := emit _ w).
  set (urls := api.tenantURLsToTest _).
  pose proof (probe_effect cfg token sessionID urls w0) as (_ & _ & Hk & Hres).
  intros Hok. rewrite Hok in Hres. destruct Hres as (Hin & Hresp & Hh).
  split; [exact Hin|]. split; [exact Hresp|]. split; [exact Hh | exact Hk].
Qed.

(** X17. Whenever CheckTokenTenantURL fails for any reason other than a
    rejected credential, it has written nothing to the store. *)
Theorem validator_failure_writes_nothing cfg jsonData token sessionID w e :
  (api.CheckTokenTenantURL cfg jsonData token sessionID w).1 = Err e →
  e ≠ "token被标记为不可用" →
  redis (api.CheckTokenTenantURL cfg jsonData token sessionID w).2 = redis w.
Proof.
  unfold api.CheckTokenTenantURL.
  destruct jsonData as [js|e']; [|reflexivity].
  unfold bind, config.RedisHGet. cbv beta iota zeta.
  set (w0 := emit _ w).
  set (urls := api.tenantURLsToTest _).
  pose proof (probe_effect cfg token sessionID urls w0) as (_ & _ & _ & Hres).
  intros Herr Hne. rewrite Herr in Hres.
  destruct Hres as [[_ Hr] | [He _]]; [exact Hr | contradiction].
Qed.

End validator_more.

Section validator_selection.
Context `{!JSON TokenRequestStatus} `{!JSON TokenCoolStatus}.

(** X18. A credential CheckTokenTenantURL rejects was rejected by one of its
    candidates, and once the "disabled" mark is stored no selection
    returns it, whatever the time and the exclusion. *)
Theorem rejected_token_is_never_selected cfg jsonData token sessionID w :
  (api.CheckTokenTenantURL cfg jsonData token sessionID w).1
    = Err "token被标记为不可用" →
  faulty w (HSET ("token:" ++ token) "status" "disabled") = false →
  faulty w (HGET ("token:" ++ token) "status") = false →
  (∀ v t, redis w !! ("token:" ++ token) ≠ Some (EString v t)) →
  let w' := (api.CheckTokenTenantURL cfg jsonData token sessionID w).2 in
  (∃ u resp,
     u ∈ api.tenantURLsToTest (config.lookup_field w ("token:" ++ token) "tenant_url") ∧
     upstream w (u ++ "chat-stream") token sessionID = Responds resp ∧
     rejects cfg resp = true) ∧
  disabled w' ("token:" ++ token) = true ∧
  ∀ now exclude u s, (selectToken now exclude w').1 ≠ Chosen token u s.
Proof.
  unfold api.CheckTokenTenantURL.
  destruct jsonData as [js|e'].
  2:{ cbn [ret fst]. intros He. discriminate He. }
  unfold bind, config.RedisHGet. cbv beta iota zeta.
  set (w0 := emit _ w).
  set (urls := api.tenantURLsToTest _).
  pose proof (probe_effect cfg token sessionID urls w0) as (Hf & _ & _ & Hres).
  intros Herr Hset Hget Hstr. rewrite Herr in Hres.
  destruct Hres as [[He _] | (_ & Hrej & Hh)]; [discriminate|].
  destruct (Hh Hset Hstr) as (h & Hk & Hs).
  set (w' := (api.probe cfg token sessionID urls w0).2) in *.
  assert (Hdis : disabled w' ("token:" ++ token) = true).
  { unfold disabled, config.lookup_field. rewrite Hf. change (faulty w0) with (faulty w).
    rewrite Hget, Hk, Hs. reflexivity. }
  split; [exact Hrej|]. split; [exact Hdis|].
  intros now exclude.
  apply (ineligible_never_chosen now exclude w' token).
  intros key Hin Htok. rewrite (pool_key _ _ Hin), Htok.
  unfold eligible. rewrite Hdis. reflexivity.
Qed.

End validator_selection.

Section pages.
Import listing.
Context {A : Type}.
Implicit Types tokenList : list A.

(** Within the range of [int], a page of a list that is not empty. *)
Lemma pageWindow_in_range pageNum pageSizeNum tokenList :
  (0 < pageSizeNum)%Z →
  (pageSizeNum + Z.of_nat (List.length tokenList) ≤ maxInt64)%Z →
  tokenList ≠ [] →
  let n := Z.of_nat (List.length tokenList) in
  let totalPages := ((n + pageSizeNum - 1) / pageSizeNum)%Z in
  let p := Z.min (Z.max 1 pageNum) totalPages in
  (1 ≤ p ≤ totalPages)%Z ∧ ((p - 1) * pageSizeNum < n)%Z ∧
  pageWindow pageNum pageSizeNum tokenList =
    Some {| tokens := take (Z.to_nat pageSizeNum)
                        (drop (Z.to_nat ((p - 1) * pageSizeNum)) tokenList);
            total := n; page := p; page_size := pageSizeNum;
            total_pages := totalPages |}.
Proof.
  intros Hps Hsum Hne n totalPages p.
  assert (Hn : (1 ≤ n)%Z).
  { subst n. destruct tokenList; [congruence | cbn [List.length]; lia]. }
  unfold maxInt64 in *.
  assert (Htp : (1 ≤ totalPages)%Z).
  { subst totalPages. apply Z.div_le_lower_bound; lia. }
  assert (Htp_lo : ((totalPages - 1) * pageSizeNum < n)%Z).
  { subst totalPages.
    pose proof (Z.mul_div_le (n + pageSizeNum - 1) pageSizeNum Hps). nia. }
  assert (Htp_hi : (n ≤ totalPages * pageSizeNum)%Z).
  { subst totalPages.
    pose proof (Z.mul_succ_div_gt (n + pageSizeNum - 1) pageSizeNum Hps). nia. }
  assert (Hp : (1 ≤ p ≤ totalPages)%Z) by (subst p; lia).
  assert (Hstart : ((p - 1) * pageSizeNum < n)%Z) by nia.
  split; [exact Hp|]. split; [exact Hstart|].
  unfold pageWindow.
  assert (Hpos : (0 <? pageSizeNum)%Z = true) by (apply Z.ltb_lt; lia).
  rewrite Hpos.
  fold n.
  rewrite (wrap64_id (n + pageSizeNum)) by (unfold minInt64, maxInt64; lia).
  rewrite (wrap64_id (n + pageSizeNum - 1)) by (unfold minInt64, maxInt64; lia).
  rewrite Z.quot_div_nonneg by lia. fold totalPages.
  assert (Hpage : (if (totalPages <? (if (pageNum <? 1)%Z then 1 else pageNum))%Z
                        && (0 <? totalPages)%Z
                   then totalPages
                   else if (pageNum <? 1)%Z then 1%Z else pageNum) = p).
  { subst p. destruct (Z.ltb_spec pageNum 1);
      destruct (Z.ltb_spec 0 totalPages); try lia;
      match goal with |- context [(?a <? ?b)%Z] => destruct (Z.ltb_spec a b) end;
      cbn [andb]; lia. }
  rewrite Hpage.
  rewrite (wrap64_id (p - 1)) by (unfold minInt64, maxInt64; lia).
  rewrite (wrap64_id ((p - 1) * pageSizeNum)) by (unfold minInt64, maxInt64; nia).
  rewrite (wrap64_id ((p - 1) * pageSizeNum + pageSizeNum))
    by (unfold minInt64, maxInt64; nia).
  assert (Hlt : ((p - 1) * pageSizeNum <? n)%Z = true) by (apply Z.ltb_lt; lia).
  rewrite Hlt.
  unfold slice. fold n.
  destruct (Z.ltb_spec n ((p - 1) * pageSizeNum + pageSizeNum)) as [Hend | Hend].
  - assert (Hok : (0 <=? (p - 1) * pageSizeNum)%Z && ((p - 1) * pageSizeNum <=? n)%Z
                  && (n <=? n)%Z = true).
    { rewrite !andb_true_iff, !Z.leb_le. nia. }
    rewrite Hok. do 2 f_equal.
    rewrite !take_ge; [reflexivity | |]; rewrite length_drop; subst n; nia.
  - assert (Hok : (0 <=? (p - 1) * pageSizeNum)%Z
                  && ((p - 1) * pageSizeNum <=? (p - 1) * pageSizeNum + pageSizeNum)%Z
                  && ((p - 1) * pageSizeNum + pageSizeNum <=? n)%Z = true).
    { rewrite !andb_true_iff, !Z.leb_le. nia. }
    rewrite Hok. do 3 f_equal. lia.
Qed.

(** X19. With a positive page size, and sizes that stay within [int], the
    listing of a non-empty list is the window of the requested page
    clamped into 1..total_pages: never empty, never longer than a page,
    and total_pages is the rounded-up quotient. *)
Theorem page_is_a_window pageNum pageSizeNum tokenList :
  (0 < pageSizeNum)%Z →
  (pageSizeNum + Z.of_nat (List.length tokenList) ≤ maxInt64)%Z →
  tokenList ≠ [] →
  ∃ r, pageWindow pageNum pageSizeNum tokenList = Some r ∧
       total r = Z.of_nat (List.length tokenList) ∧
       page_size r = pageSizeNum ∧
       total_pages r
         = ((Z.of_nat (List.length tokenList) + pageSizeNum - 1) / pageSizeNum)%Z ∧
       page r = Z.min (Z.max 1 pageNum) (total_pages r) ∧
       (1 ≤ page r ≤ total_pages r)%Z ∧
       tokens r = take (Z.to_nat pageSizeNum)
                    (drop (Z.to_nat ((page r - 1) * pageSizeNum)) tokenList) ∧
       tokens r ≠ [] ∧
       (Z.of_nat (List.length (tokens r)) ≤ pageSizeNum)%Z.
Proof.
  intros Hps Hsum Hne.
  destruct (pageWindow_in_range pageNum pageSizeNum tokenList Hps Hsum Hne)
    as (Hp & Hstart & Hrun).
  eexists. split; [exact Hrun|]. cbn [total page_size total_pages page tokens].
  do 6 (split; [first [reflexivity | exact Hp]|]).
  match type of Hstart with (?x < _)%Z => set (start := x) in * end.
  clearbody start. clear Hp Hrun.
  assert (Hn : (0 < List.length tokenList)%nat).
  { destruct tokenList; [congruence | cbn [List.length]; lia]. }
  split.
  - intros Hnil. apply (f_equal (@List.length A)) in Hnil.
    rewrite length_take, length_drop in Hnil. cbn [List.length] in Hnil. lia.
  - rewrite length_take. lia.
Qed.

(** X20. The pages partition the list: the item at index [i] is found on page
    [i / page_size + 1] at offset [i mod page_size]. *)
Theorem every_item_is_on_its_page pageSizeNum tokenList (i : nat) :
  (0 < pageSizeNum)%Z →
  (pageSizeNum + Z.of_nat (List.length tokenList) ≤ maxInt64)%Z →
  (i < List.length tokenList)%nat →
  ∃ r, pageWindow (Z.of_nat i / pageSizeNum + 1) pageSizeNum tokenList = Some r ∧
       page r = (Z.of_nat i / pageSizeNum + 1)%Z ∧
       tokens r !! Z.to_nat (Z.of_nat i mod pageSizeNum) = tokenList !! i.
Proof.
  intros Hps Hsum Hi.
  assert (Hne : tokenList ≠ []).
  { intros ->. cbn [List.length] in Hi. lia. }
  destruct (pageWindow_in_range (Z.of_nat i / pageSizeNum + 1) pageSizeNum
              tokenList Hps Hsum Hne) as (Hp & Hstart & Hrun).
  set (n := Z.of_nat (List.length tokenList)) in *.
  set (q := (Z.of_nat i / pageSizeNum)%Z) in *.
  assert (Hq : (0 ≤ q)%Z) by (subst q; apply Z.div_pos; lia).
  assert (Hdiv : (Z.of_nat i = pageSizeNum * q + Z.of_nat i mod pageSizeNum)%Z)
    by (subst q; apply Z.div_mod; lia).
  assert (Hmod : (0 ≤ Z.of_nat i mod pageSizeNum < pageSizeNum)%Z)
    by (apply Z.mod_pos_bound; lia).
  assert (Hle : (q + 1 ≤ (n + pageSizeNum - 1) / pageSizeNum)%Z).
  { apply Z.div_le_lower_bound; [lia|]. subst n. nia. }
  assert (Hpage : Z.min (Z.max 1 (q + 1)) ((n + pageSizeNum - 1) / pageSizeNum)
                  = (q + 1)%Z) by lia.
  rewrite Hpage in Hrun.
  eexists. split; [exact Hrun|]. cbn [page tokens]. split; [reflexivity|].
  rewrite lookup_take_lt by lia.
  rewrite lookup_drop. f_equal. nia.
Qed.

(** X21. Whatever the parameters, an answer reports the length of the list as
    total and carries a contiguous run of the list, in the order of the
    list. *)
Theorem page_is_contiguous pageNum pageSizeNum tokenList r :
  pageWindow pageNum pageSizeNum tokenList = Some r →
  total r = Z.of_nat (List.length tokenList) ∧
  ∃ before after, tokenList = (before ++ tokens r ++ after)%list.
Proof.
  unfold pageWindow.
  destruct (0 <? pageSizeNum)%Z.
  - match goal with |- context [(?a <? Z.of_nat _)%Z] => destruct (a <? _)%Z end.
    + match goal with |- context [slice ?l ?a ?b] =>
        generalize a b; intros lo hi end.
      unfold slice.
      destruct (_ && _ && _); [|discriminate].
      intros [= <-]. cbn [total tokens]. split; [reflexivity|].
      exists (take (Z.to_nat lo) tokenList),
             (drop (Z.to_nat (hi - lo)) (drop (Z.to_nat lo) tokenList)).
      rewrite take_drop, take_drop. reflexivity.
    + intros [= <-]. cbn [total tokens]. split; [reflexivity|].
      exists [], tokenList. reflexivity.
  - intros [= <-]. cbn [total tokens]. split; [reflexivity|].
    exists [], []. rewrite app_nil_r. reflexivity.
Qed.

Lemma wrap64_period z k : wrap64 (z + k * 2 ^ 64) = wrap64 z.
Proof.
  unfold wrap64. replace (z + k * 2 ^ 64 + 2 ^ 63)%Z with (z + 2 ^ 63 + k * 2 ^ 64)%Z by lia.
  rewrite Z_mod_plus_full. reflexivity.
Qed.

(** X22. Outside that range the slice expression panics: with the largest
    page size, page 3 of any list of two or more items; and on an empty
    list, a page number whose offset overflows. *)
Theorem paging_can_panic tokenList :
  (2 ≤ List.length tokenList)%nat →
  (Z.of_nat (List.length tokenList) ≤ maxInt64)%Z →
  listingOf "3" "9223372036854775807" tokenList = None ∧
  listingOf "4611686018427387905" "2" ([] : list A) = None.
Proof.
  intros Hlen Hmax. split; [|vm_compute; reflexivity].
  unfold listingOf.
  assert (H3 : (strconv.Atoi "3").1 = 3%Z) by (vm_compute; reflexivity).
  assert (Hps : (strconv.Atoi "9223372036854775807").1 = maxInt64)
    by (vm_compute; reflexivity).
  rewrite H3, Hps. unfold pageWindow.
  set (n := Z.of_nat (List.length tokenList)) in *.
  assert (Hn : (2 ≤ n)%Z) by (subst n; lia).
  change (3 <? 1)%Z with false. change (0 <? maxInt64)%Z with true. cbv iota.
  assert (Hx : wrap64 (wrap64 (n + maxInt64) - 1) = (n + maxInt64 - 2 ^ 64 - 1)%Z).
  { rewrite <- (wrap64_period (n + maxInt64) (-1)).
    rewrite (wrap64_id (n + maxInt64 + -1 * 2 ^ 64))
      by (unfold minInt64, maxInt64 in *; lia).
    rewrite wrap64_id by (unfold minInt64, maxInt64 in *; lia). lia. }
  rewrite Hx.
  assert (Htp : (Z.quot (n + maxInt64 - 2 ^ 64 - 1) maxInt64 ≤ 0)%Z).
  { change 0%Z with (Z.quot 0 maxInt64).
    apply Z.quot_le_mono; unfold maxInt64 in *; lia. }
  assert (Hclamp : (0 <? Z.quot (n + maxInt64 - 2 ^ 64 - 1) maxInt64)%Z = false)
    by (apply Z.ltb_ge; exact Htp).
  rewrite Hclamp, andb_false_r.
  assert (Hstart : wrap64 (wrap64 (3 - 1) * maxInt64) = (-2)%Z)
    by (vm_compute; reflexivity).
  rewrite Hstart.
  assert (Hlt : (-2 <? n)%Z = true) by (apply Z.ltb_lt; lia).
  rewrite Hlt. unfold slice.
  change (0 <=? -2)%Z with false. reflexivity.
Qed.

End pages.

Section saving.
Variable unreachable : admin.Query → bool.

(** SaveTokenToRedis never touches a credential that is already stored:
    it reports success, or the failure of the existence check, and leaves
    the world as it was, whatever endpoint it was given. *)
Lemma SaveTokenToRedis_existing token tenantURL w :
  is_Some (redis w !! ("token:" ++ token)) →
  admin.SaveTokenToRedis unreachable token tenantURL w =
    (if unreachable (admin.EXISTS ("token:" ++ token))
     then Some "redis: connection failure" else None, w).
Proof.
  intros Hex. unfold admin.SaveTokenToRedis, admin.RedisExists, bind.
  destruct (unreachable _); [reflexivity|].
  rewrite bool_decide_eq_true_2 by exact Hex. reflexivity.
Qed.

Lemma RedisHSet_run key field value w :
  config.RedisHSet key field value w =
    (if faulty w (HSET key field value) then Some "redis: connection failure"
     else match redis w !! key with
          | Some (EString _ _) => Some "WRONGTYPE"
          | _ => None
          end,
     if faulty w (HSET key field value) then emit (EvRedis (HSET key field value)) w
     else match redis w !! key with
          | Some (EString _ _) => emit (EvRedis (HSET key field value)) w
          | Some (EHash h) =>
              set_redis (<[key := EHash (<[field := value]> h)]> (redis w))
                (emit (EvRedis (HSET key field value)) w)
          | None =>
              set_redis (<[key := EHash {[field := value]}]> (redis w))
                (emit (EvRedis (HSET key field value)) w)
          end).
Proof.
  unfold config.RedisHSet. destruct (faulty w _); [reflexivity|].
  destruct (redis w !! key) as [[v t|h]|]; reflexivity.
Qed.

(** The run of SaveTokenToRedis on a credential that is not stored yet:
    how far it gets, and what it leaves under the key. *)
Lemma save_new_run token tenantURL w :
  redis w !! ("token:" ++ token) = None →
  unreachable (admin.EXISTS ("token:" ++ token)) = false →
  let key := "token:" ++ token in
  let sessionID := uuid_src w (uuid_used w) in
  let r := admin.SaveTokenToRedis unreachable token tenantURL w in
  faulty r.2 = faulty w ∧
  (∀ k, k ≠ key → redis r.2 !! k = redis w !! k) ∧
  if faulty w (HSET key "tenant_url" tenantURL)
  then is_Some r.1 ∧ redis r.2 = redis w
  else if faulty w (HSET key "session_id" sessionID)
  then is_Some r.1 ∧
       redis r.2 !! key = Some (EHash {["tenant_url" := tenantURL]})
  else if faulty w (HSET key "status" "active")
  then is_Some r.1 ∧
       redis r.2 !! key
         = Some (EHash (<["session_id" := sessionID]> {["tenant_url" := tenantURL]}))
  else if faulty w (HSET key "remark" "")
  then is_Some r.1 ∧
       redis r.2 !! key
         = Some (EHash (<["status" := "active"]>
                   (<["session_id" := sessionID]> {["tenant_url" := tenantURL]})))
  else r.1 = None ∧ uuid_used r.2 = S (uuid_used w) ∧
       redis r.2 !! key = Some (EHash (freshFields tenantURL sessionID)).
Proof.
  intros Hnone Hex key sessionID r.
  assert (Hr : r = admin.SaveTokenToRedis unreachable token tenantURL w) by reflexivity.
  clearbody r. revert Hr.
  unfold admin.SaveTokenToRedis, admin.RedisExists. fold key.
  change (redis w !! key = None) in Hnone.
  change (unreachable (admin.EXISTS key) = false) in Hex.
  unfold bind at 1. rewrite Hex, Hnone.
  rewrite bool_decide_eq_false_2 by (intros [? [=]]).
  unfold bind at 1. rewrite RedisHSet_run.
  destruct (faulty w (HSET key "tenant_url" tenantURL)) eqn:Hf1.
  { intros ->. cbn -[key]. split; [reflexivity|]. split; [reflexivity|].
    split; [eauto | reflexivity]. }
  rewrite Hnone. cbv beta iota.
  set (w1 := set_redis _ _).
  unfold bind at 1, uuid_New. cbv beta iota.
  change (uuid_src w1 (uuid_used w1)) with sessionID.
  set (w2 := set_uuid_used _ w1).
  assert (Hk2 : redis w2 !! key = Some (EHash {["tenant_url" := tenantURL]}))
    by apply lookup_insert_eq.
  assert (Ho2 : ∀ k, k ≠ key → redis w2 !! k = redis w !! k).
  { intros k Hne. apply lookup_insert_ne. congruence. }
  unfold bind at 1. rewrite RedisHSet_run. change (faulty w2) with (faulty w).
  destruct (faulty w (HSET key "session_id" sessionID)) eqn:Hf2.
  { intros ->. cbn -[key w2]. split; [reflexivity|]. split; [exact Ho2|].
    split; [eauto | exact Hk2]. }
  rewrite Hk2. cbv beta iota.
  set (w3 := set_redis _ _).
  assert (Hk3 : redis w3 !! key
                = Some (EHash (<["session_id" := sessionID]> {["tenant_url" := tenantURL]})))
    by apply lookup_insert_eq.
  assert (Ho3 : ∀ k, k ≠ key → redis w3 !! k = redis w !! k).
  { intros k Hne. subst w3. cbn -[w2].
    rewrite lookup_insert_ne by congruence. apply Ho2, Hne. }
  unfold bind at 1. rewrite RedisHSet_run. change (faulty w3) with (faulty w).
  destruct (faulty w (HSET key "status" "active")) eqn:Hf3.
  { intros ->. cbn -[key w3]. split; [reflexivity|]. split; [exact Ho3|].
    split; [eauto | exact Hk3]. }
  rewrite Hk3. cbv beta iota.
  set (w4 := set_redis _ _).
  assert (Hk4 : redis w4 !! key
                = Some (EHash (<["status" := "active"]>
                     (<["session_id" := sessionID]> {["tenant_url" := tenantURL]}))))
    by apply lookup_insert_eq.
  assert (Ho4 : ∀ k, k ≠ key → redis w4 !! k = redis w !! k).
  { intros k Hne. subst w4. cbn -[w3].
    rewrite lookup_insert_ne by congruence. apply Ho3, Hne. }
  rewrite RedisHSet_run. change (faulty w4) with (faulty w).
  destruct (faulty w (HSET key "remark" "")) eqn:Hf4.
  { intros ->. cbn -[key w4]. split; [reflexivity|]. split; [exact Ho4|].
    split; [eauto | exact Hk4]. }
  rewrite Hk4. intros ->. cbn -[key w4].
  split; [reflexivity|]. split.
  { intros k Hne. rewrite lookup_insert_ne by congruence. apply Ho4, Hne. }
  split; [reflexivity|]. split; [reflexivity|].
  apply lookup_insert_eq.
Qed.

Lemma SaveTokenToRedis_new token tenantURL w :
  redis w !! ("token:" ++ token) = None →
  (admin.SaveTokenToRedis unreachable token tenantURL w).1 = None →
  let w' := (admin.SaveTokenToRedis unreachable token tenantURL w).2 in
  redis w' !! ("token:" ++ token)
    = Some (EHash (freshFields tenantURL (uuid_src w (uuid_used w)))) ∧
  uuid_used w' = S (uuid_used w) ∧
  (∀ k, k ≠ "token:" ++ token → redis w' !! k = redis w !! k).
Proof.
  intros Hnone Hres.
  destruct (unreachable (admin.EXISTS ("token:" ++ token))) eqn:Hex.
  { exfalso. revert Hres.
    unfold admin.SaveTokenToRedis, admin.RedisExists, bind. rewrite Hex. discriminate. }
  pose proof (save_new_run token tenantURL w Hnone Hex) as (_ & Ho & Hrun).
  cbv zeta in Ho, Hrun |- *.
  repeat (destruct (faulty w _);
          [destruct Hrun as [[e He] _]; rewrite He in Hres; discriminate|]).
  destruct Hrun as (_ & Hu & Hk). auto.
Qed.

(** X23. A save that succeeds on a credential not stored before leaves exactly
    the four fields under its key, with a session id drawn for it, and
    no other key changed. *)
Theorem save_new_stores_four_fields token tenantURL w :
  redis w !! ("token:" ++ token) = None →
  (admin.SaveTokenToRedis unreachable token tenantURL w).1 = None →
  let w' := (admin.SaveTokenToRedis unreachable token tenantURL w).2 in
  redis w' !! ("token:" ++ token)
    = Some (EHash (freshFields tenantURL (uuid_src w (uuid_used w)))) ∧
  uuid_used w' = S (uuid_used w) ∧
  (∀ k, k ≠ "token:" ++ token → redis w' !! k = redis w !! k).
Proof. apply SaveTokenToRedis_new. Qed.

(** X24. A save that broke off after its first write is never completed: the
    key exists, so every later save of the credential reports success
    and writes nothing, while the hash still lacks the remark. *)
Theorem save_is_not_resumed token tenantURL w e :
  redis w !! ("token:" ++ token) = None →
  unreachable (admin.EXISTS ("token:" ++ token)) = false →
  faulty w (HSET ("token:" ++ token) "tenant_url" tenantURL) = false →
  (admin.SaveTokenToRedis unreachable token tenantURL w).1 = Some e →
  let w' := (admin.SaveTokenToRedis unreachable token tenantURL w).2 in
  (∃ h, redis w' !! ("token:" ++ token) = Some (EHash h) ∧ h !! "remark" = None) ∧
  ∀ tenantURL', admin.SaveTokenToRedis unreachable token tenantURL' w' = (None, w').
Proof.
  intros Hnone Hex Hf1 Hres.
  pose proof (save_new_run token tenantURL w Hnone Hex) as (_ & _ & Hrun).
  cbv zeta in Hrun |- *. rewrite Hf1 in Hrun. clear Hf1.
  assert (Hh : ∃ h, redis (admin.SaveTokenToRedis unreachable token tenantURL w).2
                      !! ("token:" ++ token) = Some (EHash h) ∧ h !! "remark" = None).
  { repeat (destruct (faulty w _);
            [destruct Hrun as [_ Hk]; eexists; split; [exact Hk | reflexivity]|]).
    destruct Hrun as (He & _). rewrite He in Hres. discriminate. }
  split; [exact Hh|].
  intros tenantURL'. destruct Hh as (h & Hk & _).
  rewrite SaveTokenToRedis_existing by (rewrite Hk; eauto).
  rewrite Hex. reflexivity.
Qed.

End saving.

Section saving_selection.
Context `{!JSON TokenRequestStatus} `{!JSON TokenCoolStatus}.
Variable unreachable : admin.Query → bool.

Lemma glob_star s : config.glob "*" s = true.
Proof.
  cbn [config.glob]. induction s as [|c s IH].
  - reflexivity.
  - rewrite IH. apply orb_true_r.
Qed.

Lemma glob_token_prefix token : config.glob "token:*" ("token:" ++ token) = true.
Proof. apply (glob_star token). Qed.

Lemma absent_unread w k : redis w !! k = None → is_ok (config.lookup_string w k) = false.
Proof.
  intros Hk. unfold config.lookup_string. rewrite Hk.
  destruct (faulty w _); reflexivity.
Qed.

(** X25. A credential saved for the first time, with no record of requests,
    usage or cooldown, is at once in the available queue, and the next
    selection returns a credential. *)
Theorem saved_token_is_available now exclude token tenantURL w :
  redis w !! ("token:" ++ token) = None →
  (admin.SaveTokenToRedis unreachable token tenantURL w).1 = None →
  redis w !! ("token_status:" ++ token) = None →
  redis w !! ("token_cool_status:" ++ token) = None →
  redis w !! ("token_usage_chat:" ++ token) = None →
  redis w !! ("token_usage_agent:" ++ token) = None →
  faulty w (KEYS "token:*") = false →
  faulty w (HGET ("token:" ++ token) "tenant_url") = false →
  exclude ≠ Some token →
  (3 * time.Second ≤ now)%Z →
  let w' := (admin.SaveTokenToRedis unreachable token tenantURL w).2 in
  "token:" ++ token ∈ pool w' ∧
  inAvailable now exclude w' ("token:" ++ token) = true ∧
  urlOf w' ("token:" ++ token) = tenantURL ∧
  ∃ t u s, (selectToken now exclude w').1 = Chosen t u s.
Proof.
  intros Hnone Hres Hst Hcool Hchat Hagent Hkeys Hget Hexcl Hnow.
  destruct (unreachable (admin.EXISTS ("token:" ++ token))) eqn:Hex.
  { exfalso. revert Hres.
    unfold admin.SaveTokenToRedis, admin.RedisExists, bind. rewrite Hex. discriminate. }
  pose proof (save_new_run unreachable token tenantURL w Hnone Hex) as (Hf & Ho & _).
  pose proof (SaveTokenToRedis_new unreachable token tenantURL w Hnone Hres)
    as (Hk & _ & _).
  cbv zeta in Hf, Ho, Hk |- *.
  set (w' := (admin.SaveTokenToRedis unreachable token tenantURL w).2) in *.
  set (key := "token:" ++ token) in *.
  assert (Hin : key ∈ pool w').
  { unfold pool, config.keys_of. apply list_elem_of_In, filter_In. split.
    - apply list_elem_of_In, list_elem_of_fmap. exists (key, EHash (freshFields tenantURL (uuid_src w (uuid_used w)))).
      split; [reflexivity|]. apply elem_of_map_to_list, Hk.
    - apply glob_token_prefix. }
  assert (Hurl : tenantEndpoint w' key = Ok tenantURL).
  { unfold tenantEndpoint, config.lookup_field. rewrite Hf, Hget, Hk. reflexivity. }
  assert (Hdis : disabled w' key = false).
  { unfold disabled, config.lookup_field. rewrite Hk.
    destruct (faulty w' _); reflexivity. }
  assert (Htok : tokenOf key = token) by reflexivity.
  assert (Hother : ∀ k, k ≠ key → redis w' !! k = None ↔ redis w !! k = None).
  { intros k Hne. rewrite (Ho k Hne). reflexivity. }
  assert (Hav : inAvailable now exclude w' key = true).
  { unfold inAvailable, eligible, cooling, idle, overQuota. rewrite Htok.
    rewrite Hdis, Hurl.
    rewrite unread_requestStatus
      by (apply absent_unread, Hother; [subst key; discriminate | exact Hst]).
    rewrite unread_coolStatus
      by (apply absent_unread, Hother; [subst key; discriminate | exact Hcool]).
    rewrite unread_chatUsageCount
      by (apply absent_unread, Hother; [subst key; discriminate | exact Hchat]).
    rewrite unread_agentUsageCount
      by (apply absent_unread, Hother; [subst key; discriminate | exact Hagent]).
    cbn [InProgress LastRequestAt InCool negb andb orb is_ok].
    rewrite (Since_zero now Hnow).
    assert (Hx : excluded exclude token = false).
    { destruct exclude as [x|]; [|reflexivity]. cbn.
      apply String.eqb_neq. congruence. }
    rewrite Hx. reflexivity. }
  split; [exact Hin|]. split; [exact Hav|]. split.
  { unfold urlOf. rewrite Hurl. reflexivity. }
  assert (Hkeys' : faulty w' (KEYS "token:*") = false) by (rewrite Hf; exact Hkeys).
  destruct (available_is_chosen now exclude w' key Hkeys' Hin Hav) as (t & u & s & Hsel & _).
  eauto.
Qed.

End saving_selection.

Section adding.
Variable unreachable : admin.Query → bool.

Lemma saveAll_counts tokens : ∀ successCount failedTokens w,
  (0 ≤ successCount)%Z →
  (successCount + Z.of_nat (List.length tokens) ≤ maxInt64)%Z →
  ∃ failed,
    (admin.saveAll unreachable tokens successCount failedTokens w).1.2
      = (failedTokens ++ failed)%list ∧
    sublist failed (admin.Token <$> tokens) ∧
    (successCount ≤ (admin.saveAll unreachable tokens successCount failedTokens w).1.1)%Z ∧
    ((admin.saveAll unreachable tokens successCount failedTokens w).1.1
       + Z.of_nat (List.length failed)
     = successCount + Z.of_nat (List.length tokens))%Z.
Proof.
  induction tokens as [|item tokens IH]; intros successCount failedTokens w Hsc Hmax.
  - exists []. cbn. rewrite app_nil_r. split; [reflexivity|].
    split; [constructor|]. lia.
  - cbn [admin.saveAll]. cbn [List.length] in Hmax.
    assert (Hfail : ∀ w1, ∃ failed,
      (admin.saveAll unreachable tokens successCount
         (failedTokens ++ [admin.Token item]) w1).1.2 = (failedTokens ++ failed)%list ∧
      sublist failed (admin.Token <$> item :: tokens) ∧
      (successCount ≤ (admin.saveAll unreachable tokens successCount
                         (failedTokens ++ [admin.Token item]) w1).1.1)%Z ∧
      ((admin.saveAll unreachable tokens successCount
          (failedTokens ++ [admin.Token item]) w1).1.1
       + Z.of_nat (List.length failed)
       = successCount + Z.of_nat (S (List.length tokens)))%Z).
    { intros w1.
      destruct (IH successCount (failedTokens ++ [admin.Token item])%list w1 Hsc)
        as (failed & Hf & Hsub & Hle & Hsum); [lia|].
      exists (admin.Token item :: failed). rewrite Hf, <- app_assoc.
      split; [reflexivity|]. split; [cbn; constructor; exact Hsub|].
      split; [exact Hle|]. cbn [List.length]. lia. }
    destruct (_ || _); [apply Hfail|].
    unfold bind.
    destruct (admin.SaveTokenToRedis unreachable _ _ w) as [[e|] w1]; [apply Hfail|].
    assert (Hw : wrap64 (successCount + 1) = (successCount + 1)%Z).
    { unfold wrap64, maxInt64 in *. rewrite Z.mod_small by lia. lia. }
    rewrite Hw.
    destruct (IH (successCount + 1)%Z failedTokens w1) as (failed & Hf & Hsub & Hle & Hsum);
      [lia | lia |].
    exists failed. split; [exact Hf|].
    split; [cbn; apply sublist_cons, Hsub|].
    split; [lia|]. cbn [List.length]. lia.
Qed.

(** X26. The counts of AddTokenHandler add up: every item of a non-empty
    request is counted once, as saved or as failed, and the names
    reported as failed are names of the request, in its order. *)
Theorem add_counts_add_up tokens w :
  tokens ≠ [] →
  (Z.of_nat (List.length tokens) ≤ maxInt64)%Z →
  ∃ successCount failedTokens,
    (admin.AddTokenHandler unreachable (Ok tokens) w).1 =
      admin.Added (Z.of_nat (List.length tokens)) successCount
        (match failedTokens with
         | [] => None
         | _ => Some (failedTokens, Z.of_nat (List.length failedTokens))
         end) ∧
    (0 ≤ successCount)%Z ∧
    (successCount + Z.of_nat (List.length failedTokens)
     = Z.of_nat (List.length tokens))%Z ∧
    sublist failedTokens (admin.Token <$> tokens).
Proof.
  intros Hne Hmax.
  destruct (saveAll_counts tokens 0 [] w) as (failed & Hf & Hsub & Hle & Hsum);
    [lia | lia |].
  unfold admin.AddTokenHandler.
  destruct tokens as [|item tokens]; [congruence|].
  unfold bind.
  destruct (admin.saveAll unreachable (item :: tokens) 0 [] w) as [[sc ft] w1].
  cbn [fst snd] in Hf, Hle, Hsum. cbn [app] in Hf. subst ft.
  exists sc, failed. cbn [ret fst].
  split; [reflexivity|]. split; [exact Hle|]. split; [lia | exact Hsub].
Qed.

(** X27. Adding credentials that are all stored already changes nothing, yet
    every one of them is reported as saved: the endpoints sent with them
    are dropped. *)
Theorem readding_changes_nothing tokens w :
  tokens ≠ [] →
  (Z.of_nat (List.length tokens) ≤ maxInt64)%Z →
  (∀ item, item ∈ tokens →
     admin.Token item ≠ "" ∧ admin.TenantUrl item ≠ "" ∧
     is_Some (redis w !! ("token:" ++ admin.Token item)) ∧
     unreachable (admin.EXISTS ("token:" ++ admin.Token item)) = false) →
  admin.AddTokenHandler unreachable (Ok tokens) w =
    (admin.Added (Z.of_nat (List.length tokens)) (Z.of_nat (List.length tokens)) None, w).
Proof.
  intros Hne Hmax Hall.
  assert (Hloop : ∀ successCount,
    (0 ≤ successCount)%Z →
    (successCount + Z.of_nat (List.length tokens) ≤ maxInt64)%Z →
    admin.saveAll unreachable tokens successCount [] w =
      ((successCount + Z.of_nat (List.length tokens))%Z, [], w)).
  { clear Hne Hmax. induction tokens as [|item tokens IH]; intros sc Hsc Hmax.
    - cbn. rewrite Z.add_0_r. reflexivity.
    - cbn [admin.saveAll]. cbn [List.length] in Hmax |- *.
      destruct (Hall item) as (Ht & Hu & Hex & Hreach); [left|].
      apply String.eqb_neq in Ht, Hu. rewrite Ht, Hu. cbn [orb].
      unfold bind. rewrite SaveTokenToRedis_existing by exact Hex. rewrite Hreach.
      assert (Hw : wrap64 (sc + 1) = (sc + 1)%Z).
      { unfold wrap64, maxInt64 in *. rewrite Z.mod_small by lia. lia. }
      rewrite Hw, IH; [do 2 f_equal; lia | | lia | lia].
      intros item' Hin. apply Hall. right. exact Hin. }
  unfold admin.AddTokenHandler.
  destruct tokens as [|item tokens]; [congruence|].
  unfold bind. rewrite Hloop by lia. reflexivity.
Qed.

End adding.

Section counters.
Context `{!JSON TokenRequestStatus} `{!JSON TokenCoolStatus}.

Lemma Atoi_cases s :
  ((strconv.Atoi s).2 = None ∧
   (minInt64 ≤ (strconv.Atoi s).1 ≤ maxInt64)%Z) ∨
  (is_Some (strconv.Atoi s).2 ∧
   ((strconv.Atoi s).1 = 0%Z ∨ (strconv.Atoi s).1 = maxInt64 ∨
    (strconv.Atoi s).1 = minInt64)).
Proof.
  assert (Hr : ∀ z,
    let r := if (maxInt64 <? z)%Z then (maxInt64, Some "value out of range")
             else if (z <? minInt64)%Z then (minInt64, Some "value out of range")
             else (z, None) in
    (r.2 = None ∧ (minInt64 ≤ r.1 ≤ maxInt64)%Z) ∨
    (is_Some r.2 ∧ (r.1 = 0%Z ∨ r.1 = maxInt64 ∨ r.1 = minInt64))).
  { intros z. cbv zeta.
    destruct (Z.ltb_spec maxInt64 z); [right; cbn; eauto|].
    destruct (Z.ltb_spec z minInt64); [right; cbn; eauto|].
    left. cbn. split; [reflexivity | lia]. }
  assert (Hs : (is_Some (0%Z, Some "invalid syntax").2 ∧
                ((0%Z, Some "invalid syntax").1 = 0%Z ∨
                 (0%Z, Some "invalid syntax").1 = maxInt64 ∨
                 (0%Z, Some "invalid syntax").1 = minInt64))).
  { cbn. eauto. }
  unfold strconv.Atoi.
  destruct s as [|a s'].
  - right. exact Hs.
  - destruct (Ascii.eqb_spec a "+"%char) as [->|Hp].
    { destruct (strconv.unsigned s'); [apply Hr | right; exact Hs]. }
    destruct (Ascii.eqb_spec a "-"%char) as [->|Hm].
    { destruct (strconv.unsigned s'); [apply Hr | right; exact Hs]. }
    assert (Heq : ∀ (X : Type) (x y z : X),
      match String a s' with
      | String "+"%char _ => x
      | String "-"%char _ => y
      | _ => z
      end = z).
    { intros X x y z.
      destruct a as [[] [] [] [] [] [] [] []]; try reflexivity; congruence. }
    rewrite Heq.
    destruct (strconv.unsigned (String a s')); [apply Hr | right; exact Hs].
Qed.

(** X28. The usage counters of the listing and those of the selection read
    the same entries and differ only on a count outside the range of
    [int]: the listing then shows 0, while the selection works with the
    bound, and at the upper bound takes the credential for used up. *)
Theorem counters_differ_only_out_of_range token w :
  (admin.getTokenChatUsageCount token w).2 = (getTokenChatUsageCount token w).2 ∧
  (admin.getTokenAgentUsageCount token w).2 = (getTokenAgentUsageCount token w).2 ∧
  ((admin.getTokenChatUsageCount token w).1 = chatUsageCount w token ∨
   ((admin.getTokenChatUsageCount token w).1 = 0%Z ∧
    (chatUsageCount w token = minInt64 ∨
     (chatUsageCount w token = maxInt64 ∧ overQuota w token = true)))) ∧
  ((admin.getTokenAgentUsageCount token w).1 = agentUsageCount w token ∨
   ((admin.getTokenAgentUsageCount token w).1 = 0%Z ∧
    (agentUsageCount w token = minInt64 ∨
     (agentUsageCount w token = maxInt64 ∧ overQuota w token = true)))).
Proof.
  unfold overQuota, chatUsageCount, agentUsageCount.
  unfold admin.getTokenChatUsageCount, getTokenChatUsageCount,
    admin.getTokenAgentUsageCount, getTokenAgentUsageCount, bind, config.RedisGet.
  assert (Hcase : ∀ r : result string,
    let listed := match r with
                  | Err _ => 0%Z
                  | Ok count => match (strconv.Atoi count).2 with
                                | Some _ => 0%Z
                                | None => (strconv.Atoi count).1
                                end
                  end in
    let seen := match r with Err _ => 0%Z | Ok count => (strconv.Atoi count).1 end in
    listed = seen ∨ (listed = 0%Z ∧ (seen = minInt64 ∨ seen = maxInt64))).
  { intros [count|e]; cbv zeta; [|left; reflexivity].
    destruct (Atoi_cases count) as [[Hnone _] | [[e He] Hval]].
    - rewrite Hnone. left. reflexivity.
    - rewrite He. destruct Hval as [H0 | [Hmax | Hmin]]; [left; congruence | |];
        right; split; auto. }
  split; [destruct (config.lookup_string w _) as [count|e];
          [destruct (strconv.Atoi count).2|]; reflexivity|].
  split; [destruct (config.lookup_string w ("token_usage_agent:" ++ token)) as [count|e];
          [destruct (strconv.Atoi count).2|]; reflexivity|].
  pose proof (Hcase (config.lookup_string w ("token_usage_chat:" ++ token))) as Hchat.
  pose proof (Hcase (config.lookup_string w ("token_usage_agent:" ++ token))) as Hagent.
  cbv zeta in Hchat, Hagent.
  destruct (config.lookup_string w ("token_usage_chat:" ++ token)) as [chat|e1];
    destruct (config.lookup_string w ("token_usage_agent:" ++ token)) as [agent|e2];
    cbn [ret fst] in *.
  all: split.
  all: try (left; reflexivity).
  all: repeat match goal with
       | |- context [(strconv.Atoi ?c).2] =>
           destruct (strconv.Atoi c).2 eqn:?; cbn [ret fst] in *
       end.
  all: try (left; reflexivity).
  all: match goal with
       | H : ?l = ?x ∨ _ |- ?l = ?x ∨ _ =>
           destruct H as [H | (H0 & [Hm | Hm])];
           [left; exact H
           | right; split; [exact H0 | left; exact Hm]
           | right; split; [exact H0 | right; split; [exact Hm|]]]
       end.
  all: rewrite Hm; try reflexivity; apply orb_true_r.
Qed.

End counters.

Section migration.
Context `{!JSON TokenRequestStatus} `{!JSON TokenCoolStatus}.
Variable unreachable : admin.Query → bool.

Lemma sessionsKept_refl w : sessionsKept w w.
Proof. intros k h s Hk Hs. eauto. Qed.

Lemma sessionsKept_same w w' : redis w' = redis w → sessionsKept w w'.
Proof. intros Hr k h s Hk Hs. rewrite Hr. eauto. Qed.

Lemma sessionsKept_trans w1 w2 w3 :
  sessionsKept w1 w2 → sessionsKept w2 w3 → sessionsKept w1 w3.
Proof.
  intros H12 H23 k h s Hk Hs.
  destruct (H12 k h s Hk Hs) as (h' & Hk' & Hs'). eauto.
Qed.

Lemma agree_present w w' k : agree w w' → is_Some (redis w !! k) → is_Some (redis w' !! k).
Proof.
  intros [_ Hr] [e He]. specialize (Hr k). rewrite He in Hr.
  destruct (redis w' !! k); [eauto|]. destruct e; contradiction.
Qed.

Lemma agree_hash w w' k h :
  agree w w' → redis w !! k = Some (EHash h) → ∃ h', redis w' !! k = Some (EHash h').
Proof.
  intros [_ Hr] Hk. specialize (Hr k). rewrite Hk in Hr.
  destruct (redis w' !! k) as [[v t|h']|]; try contradiction. eauto.
Qed.

(** One turn of the migration loop on a key that is stored. *)
Lemma migrateKey_effect key w :
  is_Some (redis w !! key) →
  agree w (admin.migrateKey unreachable key w).2 ∧
  sessionsKept w (admin.migrateKey unreachable key w).2 ∧
  (∀ h, redis w !! key = Some (EHash h) →
        disabled w key = false →
        unreachable (admin.HEXISTS key "session_id") = false →
        (∀ v, faulty w (HSET key "session_id" v) = false) →
        ∃ h' s, redis (admin.migrateKey unreachable key w).2 !! key = Some (EHash h') ∧
                h' !! "session_id" = Some s).
Proof.
  intros Hpresent.
  remember (admin.migrateKey unreachable key w) as out eqn:Hout. revert Hout.
  unfold admin.migrateKey, admin.RedisHExists, disabled.
  unfold bind at 1, config.RedisHGet. cbv beta iota.
  set (w1 := emit _ w).
  assert (Hag1 : agree w w1) by apply agree_emit, agree_refl.
  destruct (match config.lookup_field w key "status" with
            | Ok status => String.eqb status "disabled"
            | Err _ => false
            end) eqn:Hskip.
  { intros ->. cbn [ret snd]. split; [exact Hag1|]. split; [apply sessionsKept_same; reflexivity|].
    intros h _ Hd. discriminate. }
  unfold bind at 1. cbv beta iota.
  change (redis w1) with (redis w).
  destruct (unreachable (admin.HEXISTS key "session_id")) eqn:Hreach.
  { intros ->. cbn [log snd]. split; [apply agree_emit, Hag1|].
    split; [apply sessionsKept_same; reflexivity|].
    intros h _ _ Hr. discriminate. }
  destruct (redis w !! key) as [[v t|h]|] eqn:Hk.
  - intros ->. cbn [log snd]. split; [apply agree_emit, Hag1|].
    split; [apply sessionsKept_same; reflexivity|].
    intros h [=].
  - case_bool_decide as Hs.
    + intros ->. cbn [ret snd]. split; [exact Hag1|]. split; [apply sessionsKept_same; reflexivity|].
      intros h0 [= <-] _ _ _. destruct Hs as [s Hs]. exists h, s.
      split; [exact Hk | exact Hs].
    + assert (Hnone : h !! "session_id" = None).
      { destruct (h !! "session_id"); [exfalso; apply Hs; eauto | reflexivity]. }
      unfold bind at 1, uuid_New. cbv beta iota.
      set (w2 := set_uuid_used _ w1).
      set (sid := uuid_src w1 (uuid_used w1)).
      unfold bind at 1. unfold config.RedisHSet.
      change (faulty w2) with (faulty w). change (redis w2) with (redis w).
      rewrite Hk.
      destruct (faulty w (HSET key "session_id" sid)) eqn:Hf.
      * intros ->. cbn [log snd].
        split; [apply agree_emit, agree_emit, agree_uuid, Hag1|].
        split; [apply sessionsKept_same; reflexivity|].
        intros h0 _ _ _ Hserved. rewrite Hserved in Hf. discriminate.
      * intros ->. cbn [log snd]. split; [|split].
        -- split; [reflexivity|]. cbn. intros k.
           destruct (decide (key = k)) as [<-|Hne].
           ++ rewrite lookup_insert_eq, Hk. cbn. intros f Hfne.
              rewrite lookup_insert_ne by congruence. reflexivity.
           ++ rewrite lookup_insert_ne by exact Hne. apply agree_entry_refl.
        -- intros k h0 s Hk0 Hs0. cbn.
           destruct (decide (key = k)) as [<-|Hne].
           ++ rewrite Hk in Hk0. injection Hk0 as <-. congruence.
           ++ rewrite lookup_insert_ne by exact Hne. eauto.
        -- intros h0 _ _ _ _. cbn. rewrite lookup_insert_eq.
           eexists _, sid. split; [reflexivity | apply lookup_insert_eq].
  - destruct Hpresent as [? [=]].
Qed.

Lemma disabled_agree w w' key : agree w w' → disabled w' key = disabled w key.
Proof.
  intros Hag. unfold disabled.
  rewrite (lookup_field_agree w w' key "status" Hag) by discriminate. reflexivity.
Qed.

Lemma migrateKeys_effect keys : ∀ w,
  (∀ k, k ∈ keys → is_Some (redis w !! k)) →
  agree w (admin.migrateKeys unreachable keys w).2 ∧
  sessionsKept w (admin.migrateKeys unreachable keys w).2 ∧
  ((∀ k, k ∈ keys → unreachable (admin.HEXISTS k "session_id") = false ∧
                     ∀ v, faulty w (HSET k "session_id" v) = false) →
   ∀ k h, k ∈ keys → redis w !! k = Some (EHash h) → disabled w k = false →
          ∃ h' s, redis (admin.migrateKeys unreachable keys w).2 !! k = Some (EHash h') ∧
                  h' !! "session_id" = Some s).
Proof.
  induction keys as [|key keys IH]; intros w Hpresent.
  - cbn. split; [apply agree_refl|]. split; [apply sessionsKept_refl|].
    intros _ k h Hin. inversion Hin.
  - cbn [admin.migrateKeys]. unfold bind.
    destruct (migrateKey_effect key w) as (Hag1 & Hkept1 & Hbind1);
      [apply Hpresent; left|].
    destruct (admin.migrateKey unreachable key w) as [[] w1]. cbn [snd] in *.
    destruct (IH w1) as (Hag2 & Hkept2 & Hbind2).
    { intros k Hin. apply (agree_present w w1 k Hag1), Hpresent. right. exact Hin. }
    split; [eapply agree_trans; eauto|].
    split; [eapply sessionsKept_trans; eauto|].
    intros Hserved k h Hin Hk Hdis.
    apply elem_of_cons in Hin as [-> | Hin].
    + destruct (Hserved key) as [Hreach Hset]; [left|].
      destruct (Hbind1 h Hk Hdis Hreach Hset) as (h1 & s & Hk1 & Hs1).
      destruct (Hkept2 key h1 s Hk1 Hs1) as (h2 & Hk2 & Hs2). eauto.
    + destruct (agree_hash w w1 k h Hag1 Hk) as [h1 Hk1].
      apply (Hbind2) with (h := h1); [|exact Hin | exact Hk1|].
      * intros k' Hin'. destruct (Hserved k') as [Hreach Hset]; [right; exact Hin'|].
        split; [exact Hreach|]. intros v. destruct Hag1 as [Hf _]. rewrite <- Hf. apply Hset.
      * rewrite (disabled_agree w w1 k Hag1). exact Hdis.
Qed.

Lemma pool_present w k : k ∈ pool w → is_Some (redis w !! k).
Proof.
  unfold pool, config.keys_of. intros Hin.
  apply list_elem_of_In, filter_In in Hin as [Hin _].
  apply list_elem_of_In, list_elem_of_fmap in Hin as ([k' e] & -> & Hin).
  apply elem_of_map_to_list in Hin. cbn. eauto.
Qed.

Lemma eligible_agree now exclude w w' key :
  agree w w' → eligible now exclude w' key = eligible now exclude w key.
Proof.
  intros Hag. unfold eligible, idle, overQuota, tenantEndpoint.
  rewrite (disabled_agree w w' key Hag).
  rewrite (requestStatusOf_agree w w' _ Hag).
  rewrite (chatUsageCount_agree w w' _ Hag), (agentUsageCount_agree w w' _ Hag).
  rewrite (lookup_field_agree w w' key "tenant_url" Hag) by discriminate.
  reflexivity.
Qed.

(** X29. The migration fails only when the keys cannot be listed; it changes
    nothing but "session_id" fields, keeps every session id there is,
    and so leaves the queues of the selection as they were. *)
Theorem migration_only_adds_session_ids w :
  let w' := (admin.MigrateTokensSessionID unreachable w).2 in
  ((admin.MigrateTokensSessionID unreachable w).1 = None
   ↔ faulty w (KEYS "token:*") = false) ∧
  agree w w' ∧ sessionsKept w w' ∧
  ∀ now exclude key,
    inAvailable now exclude w' key = inAvailable now exclude w key ∧
    inCooling now exclude w' key = inCooling now exclude w key.
Proof.
  cbv zeta.
  unfold admin.MigrateTokensSessionID, bind, config.RedisKeys at 1 2 3 4 5.
  assert (Hqueues : ∀ w', agree w w' → ∀ now exclude key,
            inAvailable now exclude w' key = inAvailable now exclude w key ∧
            inCooling now exclude w' key = inCooling now exclude w key).
  { intros w' Hag now exclude key. unfold inAvailable, inCooling, cooling.
    rewrite (eligible_agree now exclude w w' key Hag).
    rewrite (coolStatusOf_agree now w w' _ Hag). split; reflexivity. }
  destruct (faulty w (KEYS "token:*")) eqn:Hf.
  - cbn [ret fst snd].
    assert (Hag : agree w (emit (EvRedis (KEYS "token:*")) w))
      by apply agree_emit, agree_refl.
    split; [split; discriminate|]. split; [exact Hag|].
    split; [apply sessionsKept_same; reflexivity | apply Hqueues, Hag].
  - set (w1 := emit _ w).
    destruct (migrateKeys_effect (config.keys_of w "token:*") w1) as (Hag & Hkept & _).
    { intros k Hin. apply pool_present in Hin. exact Hin. }
    destruct (admin.migrateKeys unreachable _ w1) as [[] w2]. cbn [snd] in Hag, Hkept.
    cbn [log ret fst snd].
    assert (Hag' : agree w (emit (EvLog Info "migrate session_id field to all tokens success!") w2)).
    { apply agree_emit. eapply agree_trans; [|exact Hag]. apply agree_emit, agree_refl. }
    split; [split; reflexivity|]. split; [exact Hag'|].
    split; [|apply Hqueues, Hag'].
    intros k h s Hk Hs. destruct (Hkept k h s Hk Hs) as (h' & Hk' & Hs'). eauto.
Qed.

(** X30. When the store serves the migration, every credential of the pool
    that is a hash and not disabled has a session id afterwards. *)
Theorem migration_completes w key h :
  faulty w (KEYS "token:*") = false →
  (∀ k, k ∈ pool w → unreachable (admin.HEXISTS k "session_id") = false ∧
                     ∀ v, faulty w (HSET k "session_id" v) = false) →
  key ∈ pool w →
  redis w !! key = Some (EHash h) →
  disabled w key = false →
  ∃ h' s, redis (admin.MigrateTokensSessionID unreachable w).2 !! key = Some (EHash h') ∧
          h' !! "session_id" = Some s.
Proof.
  intros Hf Hserved Hin Hk Hdis.
  unfold admin.MigrateTokensSessionID, bind, config.RedisKeys. rewrite Hf.
  set (w1 := emit _ w).
  destruct (migrateKeys_effect (config.keys_of w "token:*") w1) as (_ & _ & Hbind).
  { intros k Hin'. apply pool_present in Hin'. exact Hin'. }
  destruct (Hbind Hserved key h Hin Hk Hdis) as (h' & s & Hk' & Hs').
  destruct (admin.migrateKeys unreachable _ w1) as [[] w2]. cbn [snd] in Hk'.
  cbn [log ret snd]. eauto.
Qed.

End migration.

(** * The statements on concrete pools *)

Import scenario.

Ltac by_computation := vm_compute; first [reflexivity | exact I | discriminate | lia].
Ltac in_list := apply list_elem_of_In; vm_compute; tauto.

Lemma C1_witness :
  (∃ key, key ∈ pool (world poolAB healthy silent) ∧
          inAvailable t0 None (world poolAB healthy silent) key = true) ∧
  cooling t0 (world poolAB healthy silent) "A" = Some false.
Proof.
  assert (Hex : ∃ key, key ∈ pool (world poolAB healthy silent) ∧
            inAvailable t0 None (world poolAB healthy silent) key = true).
  { exists "token:A". split; [in_list | by_computation]. }
  split; [exact Hex|].
  apply (proj1 (proj1 (C1_available_preferred t0 None (world poolAB healthy silent)) Hex)
           "A" "https://d1.api.augmentcode.com/" "uuid-0").
  by_computation.
Defined.

Lemma C2_witness :
  "token:" ++ "A" ∈ pool (world onlyA healthy silent) ∧
  (GetNextAvailableToken t0 "A" (world onlyA healthy silent)).1
    = ("No available token", "", "").
Proof.
  assert (Hin : "token:" ++ "A" ∈ pool (world onlyA healthy silent)) by in_list.
  assert (Honly : ∀ key, key ∈ pool (world onlyA healthy silent) →
            eligible t0 None (world onlyA healthy silent) key = true →
            tokenOf key = "A").
  { assert (Hpool : pool (world onlyA healthy silent) = ["token:A"])
      by by_computation.
    intros key Hk _. rewrite Hpool in Hk.
    apply list_elem_of_singleton in Hk. rewrite Hk. reflexivity. }
  split; [exact Hin|].
  exact (proj2 (proj2 (C2_exclusion_respected t0 "A" (world onlyA healthy silent)))
           eq_refl Hin Honly).
Defined.

Lemma C3_witness :
  (3000 ≤ chatUsageCount (world poolQuota healthy silent) "A" ∨
   50 ≤ agentUsageCount (world poolQuota healthy silent) "A")%Z ∧
  (selectToken t0 None (world poolQuota healthy silent)).1
    ≠ Chosen "A" "https://d1.api.augmentcode.com/" "uuid-0".
Proof.
  assert (Hq : (3000 ≤ chatUsageCount (world poolQuota healthy silent) "A" ∨
                50 ≤ agentUsageCount (world poolQuota healthy silent) "A")%Z).
  { right. by_computation. }
  split; [exact Hq|].
  apply (proj1 (C3_quota_disqualifies t0 None (world poolQuota healthy silent) "A" Hq)).
Defined.

Lemma C4_witness :
  (2 ≤ retryCountOf (request {[ "token" := AString "A"; "retry_count" := AInt 2 ]}))%Z ∧
  ∃ w',
    SwitchTokenAndRetry t0
      (request {[ "token" := AString "A"; "retry_count" := AInt 2 ]}) 2
      (world poolAB healthy silent)
    = Returns (false, request {[ "token" := AString "A"; "retry_count" := AInt 2 ]}) w' ∧
    redis w' = redis (world poolAB healthy silent) ∧
    mutexes w' = mutexes (world poolAB healthy silent).
Proof.
  assert (Hmax : (2 ≤ retryCountOf
            (request {[ "token" := AString "A"; "retry_count" := AInt 2 ]}))%Z)
    by by_computation.
  split; [exact Hmax|].
  destruct (C4_retry_bound t0 _ 2 (world poolAB healthy silent) Hmax)
    as (w' & Hrun & _ & _ & Hredis & Hmutexes & _).
  exists w'. auto.
Defined.

Lemma C5_witness :
  pool (world ∅ healthy silent) = [] ∧
  (SelectionAlgorithm t0 None (world ∅ healthy silent)).1 = ("No token", "", "") ∧
  middleware.TokenConcurrencyMiddleware appConfig t0 (request ∅) (world ∅ healthy silent)
  = Returns (gin.Abort (gin.JSON 429 "当前无可用token，请在页面添加" (request ∅)))
      (GetAvailableToken t0 (world ∅ healthy silent)).2.
Proof.
  assert (Hpool : pool (world ∅ healthy silent) = []) by by_computation.
  assert (Htok : (GetAvailableToken t0 (world ∅ healthy silent)).1.1.1 = "No token")
    by by_computation.
  destruct (C5_sentinels t0 None (world ∅ healthy silent))
    as (_ & _ & _ & Hempty & _ & _ & _ & _ & _ & _ & Hmw).
  split; [exact Hpool|]. split; [exact (Hempty (or_intror Hpool))|].
  apply (Hmw appConfig (request ∅)); [reflexivity | reflexivity | exact Htok].
Defined.

(** C5 as stated fails: the pool holds a credential that passes every
    filter, the store cannot enumerate the keys, and the answer is "No
    token". *)
Lemma C5_counterexample :
  pool (world onlyA noKeys silent) = ["token:A"] ∧
  inAvailable t0 None (world onlyA noKeys silent) "token:A" = true ∧
  (selectToken t0 None (world onlyA noKeys silent)).1 = NoToken ∧
  (GetAvailableToken t0 (world onlyA noKeys silent)).1 = ("No token", "", "").
Proof. repeat split; by_computation. Qed.

(** The converse needs its exception: a credential named "No token"
    passes every filter and is chosen, and the middleware takes its name
    for the sentinel. *)
Lemma sentinel_name_taken :
  faulty (world poolNamedNoToken healthy silent) (KEYS "token:*") = false ∧
  pool (world poolNamedNoToken healthy silent) = ["token:No token"] ∧
  inAvailable t0 None (world poolNamedNoToken healthy silent) "token:No token" = true ∧
  (selectToken t0 None (world poolNamedNoToken healthy silent)).1
    = Chosen "No token" "https://d1.api.augmentcode.com/" "uuid-0" ∧
  (GetAvailableToken t0 (world poolNamedNoToken healthy silent)).1
    = ("No token", "https://d1.api.augmentcode.com/", "uuid-0") ∧
  middleware.TokenConcurrencyMiddleware appConfig t0 (request ∅)
    (world poolNamedNoToken healthy silent)
  = Returns (gin.Abort (gin.JSON 429 "当前无可用token，请在页面添加" (request ∅)))
      (GetAvailableToken t0 (world poolNamedNoToken healthy silent)).2.
Proof.
  do 5 (split; [by_computation|]).
  assert (Hpath : negb (HasSuffix (gin.Path (request ∅)) "/chat/completions") &&
                  negb (HasSuffix (gin.Path (request ∅)) "/messages") = false)
    by by_computation.
  assert (Hmode : String.eqb (CodingMode appConfig) "true" = false) by by_computation.
  assert (Htok : (GetAvailableToken t0 (world poolNamedNoToken healthy silent)).1.1.1
                 = "No token") by by_computation.
  pose proof (middleware_on_strings appConfig t0 (request ∅)
                (world poolNamedNoToken healthy silent) Hpath Hmode) as H.
  cbv zeta in H. destruct H as [H _]. exact (H Htok).
Qed.


Lemma C7_witness :
  is_ok (tenantEndpoint (world poolNoEndpoint healthy silent) ("token:" ++ "A")) = false ∧
  (selectToken t0 None (world poolNoEndpoint healthy silent)).1
    ≠ Chosen "A" "" "uuid-0".
Proof.
  assert (Hno : is_ok (tenantEndpoint (world poolNoEndpoint healthy silent)
                         ("token:" ++ "A")) = false) by reflexivity.
  split; [exact Hno|].
  apply (proj1 (proj2 (C7_endpoint_required t0 None
                         (world poolNoEndpoint healthy silent) "A" Hno))).
Defined.

Lemma C8_witness :
  config.lookup_string (world poolExpired healthy silent) ("token_cool_status:" ++ "A")
    = Ok (encode true (t0 - time.Second)) ∧
  (GetTokenCoolStatus t0 "A" (world poolExpired healthy silent)).1
    = Ok {| InCool := false; CoolEnd := (t0 - time.Second)%Z |}.
Proof.
  assert (Hget : config.lookup_string (world poolExpired healthy silent)
                   ("token_cool_status:" ++ "A")
                 = Ok (encode true (t0 - time.Second))) by by_computation.
  assert (Hun : Unmarshal (encode true (t0 - time.Second))
                = Ok {| InCool := true; CoolEnd := (t0 - time.Second)%Z |})
    by by_computation.
  assert (Hend : (CoolEnd {| InCool := true; CoolEnd := (t0 - time.Second)%Z |} < t0)%Z)
    by by_computation.
  split; [exact Hget|].
  exact (proj1 (C8_expired_cooldown t0 (world poolExpired healthy silent) "A"
                  _ _ Hget Hun Hend)).
Defined.

Lemma C9_witness :
  upstream (world onlyA healthy d20Answers)
    ("https://d20.api.augmentcode.com/" ++ "chat-stream") "A" "session"
  = Responds {| StatusCode := 200; chunk := "data: hello"; readErr := None |} ∧
  (api.probe appConfig "A" "session"
     ["https://d20.api.augmentcode.com/"; "https://d19.api.augmentcode.com/"]
     (world onlyA healthy d20Answers)).1
  = Ok "https://d20.api.augmentcode.com/".
Proof.
  assert (Hup : upstream (world onlyA healthy d20Answers)
            ("https://d20.api.augmentcode.com/" ++ "chat-stream") "A" "session"
          = Responds {| StatusCode := 200; chunk := "data: hello"; readErr := None |})
    by reflexivity.
  split; [exact Hup|].
  apply (C9_endpoint_recorded appConfig "A" "session"
           "https://d20.api.augmentcode.com/" ["https://d19.api.augmentcode.com/"]
           (world onlyA healthy d20Answers) _ Hup).
  - left. reflexivity.
  - reflexivity.
  - discriminate.
  - by_computation.
  - by_computation.
Defined.

(** C9 as stated fails: every endpoint answers 200 with an empty body,
    free of any marker, yet no endpoint is recorded, the credential's
    record stays as it was, all 27 candidates are probed and the validator
    reports that no valid endpoint was found. *)
Lemma C9_counterexample :
  upstream (world onlyA healthy emptyBody)
    "https://d1.api.augmentcode.com/chat-stream" "A" "session"
  = Responds {| StatusCode := 200; chunk := ""; readErr := Some "EOF" |} ∧
  api.subscriptionMarker "" = false ∧
  contains "" "Invalid token" = false ∧
  (api.CheckTokenTenantURL appConfig (Ok "{}") "A" "session"
     (world onlyA healthy emptyBody)).1
  = Err "未找到有效的租户地址" ∧
  redis (api.CheckTokenTenantURL appConfig (Ok "{}") "A" "session"
           (world onlyA healthy emptyBody)).2
  = redis (world onlyA healthy emptyBody) ∧
  List.length (List.filter (λ ev, match ev with EvHTTP _ => true | _ => false end)
    (trace (api.CheckTokenTenantURL appConfig (Ok "{}") "A" "session"
              (world onlyA healthy emptyBody)).2)) = 27%nat.
Proof. repeat split; by_computation. Qed.

Lemma C10_witness :
  config.lookup_string (world onlyA noGet silent) ("token_status:" ++ "A")
    = Err "redis: connection failure" ∧
  (GetTokenRequestStatus "A" (world onlyA noGet silent)).1
    = Ok {| InProgress := false; LastRequestAt := time.zero |} ∧
  inAvailable t0 None (world onlyA noGet silent) ("token:" ++ "A") = true.
Proof.
  assert (Hget : config.lookup_string (world onlyA noGet silent) ("token_status:" ++ "A")
                 = Err "redis: connection failure") by reflexivity.
  split; [exact Hget|].
  destruct (C10_failed_reads_default t0 (world onlyA noGet silent) "A")
    as (Hreq & _ & _ & _ & Hall).
  split; [exact (Hreq _ Hget)|].
  apply Hall; by_computation.
Defined.

(** * The further properties on concrete inputs *)

Lemma GetTokenLock_one_per_token_witness :
  registry_ok (world onlyA healthy silent) ∧
  mutexes (GetTokenLock "A" (world onlyA healthy silent)).2
    !! (GetTokenLock "A" (world onlyA healthy silent)).1 = Some false.
Proof.
  assert (Hreg : registry_ok (world onlyA healthy silent)).
  { split.
    - intros t m Hm. change ((∅ : gmap string nat) !! t = Some m) in Hm.
      rewrite lookup_empty in Hm. discriminate.
    - intros t t' m Hm. change ((∅ : gmap string nat) !! t = Some m) in Hm.
      rewrite lookup_empty in Hm. discriminate. }
  split; [exact Hreg|].
  destruct (GetTokenLock_one_per_token "A" (world onlyA healthy silent) Hreg)
    as (_ & _ & Hfresh & _).
  apply Hfresh. apply lookup_empty.
Defined.

Lemma request_status_round_trip_witness :
  Marshal {| InProgress := true; LastRequestAt := t0 |} = Ok (encode true t0) ∧
  Unmarshal (encode true t0) = Ok {| InProgress := true; LastRequestAt := t0 |} ∧
  (GetTokenRequestStatus "A"
     (SetTokenRequestStatus "A" {| InProgress := true; LastRequestAt := t0 |}
        (world onlyA healthy silent)).2).1
  = Ok {| InProgress := true; LastRequestAt := t0 |}.
Proof.
  assert (Hm : Marshal {| InProgress := true; LastRequestAt := t0 |}
               = Ok (encode true t0)) by reflexivity.
  assert (Hu : Unmarshal (encode true t0)
               = Ok {| InProgress := true; LastRequestAt := t0 |}) by by_computation.
  split; [exact Hm|]. split; [exact Hu|].
  exact (proj1 (proj2 (request_status_round_trip "A" _ _ (world onlyA healthy silent)
                         Hm Hu eq_refl eq_refl))).
Defined.

Lemma cool_status_round_trip_witness :
  Marshal {| InCool := true; CoolEnd := time.Add t0 (5 * time.Minute) |}
    = Ok (encode true (time.Add t0 (5 * time.Minute))) ∧
  Unmarshal (encode true (time.Add t0 (5 * time.Minute)))
    = Ok {| InCool := true; CoolEnd := time.Add t0 (5 * time.Minute) |} ∧
  (GetTokenCoolStatus t0 "A"
     (SetTokenCoolStatus t0 "A" (5 * time.Minute) (world onlyA healthy silent)).2).1
  = Ok {| InCool := true; CoolEnd := (t0 + 5 * time.Minute)%Z |}.
Proof.
  assert (Hm : Marshal {| InCool := true; CoolEnd := time.Add t0 (5 * time.Minute) |}
               = Ok (encode true (time.Add t0 (5 * time.Minute)))) by reflexivity.
  assert (Hu : Unmarshal (encode true (time.Add t0 (5 * time.Minute)))
               = Ok {| InCool := true; CoolEnd := time.Add t0 (5 * time.Minute) |})
    by by_computation.
  split; [exact Hm|]. split; [exact Hu|].
  destruct (cool_status_round_trip t0 (5 * time.Minute) "A" _
              (world onlyA healthy silent) Hm Hu eq_refl eq_refl) as (_ & _ & Hlater).
  apply (proj1 (Hlater t0)). by_computation.
Defined.

Lemma selection_sound_witness :
  (selectToken t0 None (world onlyA healthy silent)).1
    = Chosen "A" "https://d1.api.augmentcode.com/" "uuid-0" ∧
  config.lookup_field (world onlyA healthy silent) ("token:" ++ "A") "tenant_url"
    = Ok "https://d1.api.augmentcode.com/".
Proof.
  assert (Hsel : (selectToken t0 None (world onlyA healthy silent)).1
                 = Chosen "A" "https://d1.api.augmentcode.com/" "uuid-0")
    by by_computation.
  split; [exact Hsel|].
  destruct (selection_sound t0 None (world onlyA healthy silent) _ _ _ Hsel)
    as (_ & _ & _ & _ & _ & _ & Hurl & _).
  exact Hurl.
Defined.

Lemma single_available_is_returned_witness :
  "token:A" ∈ pool (world poolAB healthy silent) ∧
  inAvailable t0 None (world poolAB healthy silent) "token:A" = true ∧
  ∃ s, (selectToken t0 None (world poolAB healthy silent)).1
       = Chosen (tokenOf "token:A") (urlOf (world poolAB healthy silent) "token:A") s.
Proof.
  assert (Hpool : pool (world poolAB healthy silent) = ["token:A"; "token:B"])
    by by_computation.
  assert (Hin : "token:A" ∈ pool (world poolAB healthy silent)).
  { rewrite Hpool. left. }
  assert (Hav : inAvailable t0 None (world poolAB healthy silent) "token:A" = true)
    by by_computation.
  assert (HB : inAvailable t0 None (world poolAB healthy silent) "token:B" = false)
    by by_computation.
  assert (Honly : ∀ k, k ∈ pool (world poolAB healthy silent) →
            inAvailable t0 None (world poolAB healthy silent) k = true → k = "token:A").
  { intros k Hk Hk'. rewrite Hpool in Hk.
    apply elem_of_cons in Hk as [-> | Hk]; [reflexivity|].
    apply list_elem_of_singleton in Hk. subst k. congruence. }
  split; [exact Hin|]. split; [exact Hav|].
  destruct (single_available_is_returned t0 None (world poolAB healthy silent)
              "token:A" eq_refl Hin Hav Honly) as (s & Hsel & _).
  exists s. exact Hsel.
Defined.

Lemma session_id_is_the_stored_one_witness :
  (selectToken t0 None (world onlyA healthy silent)).1
    = Chosen "A" "https://d1.api.augmentcode.com/" "uuid-0" ∧
  sessionServed (world onlyA healthy silent) ("token:" ++ "A") ∧
  config.lookup_field (selectToken t0 None (world onlyA healthy silent)).2
    ("token:" ++ "A") "session_id" = Ok "uuid-0".
Proof.
  assert (Hsel : (selectToken t0 None (world onlyA healthy silent)).1
                 = Chosen "A" "https://d1.api.augmentcode.com/" "uuid-0")
    by by_computation.
  assert (Hserved : sessionServed (world onlyA healthy silent) ("token:" ++ "A")).
  { split; [reflexivity | intros v; reflexivity]. }
  split; [exact Hsel|]. split; [exact Hserved|].
  exact (proj1 (session_id_is_the_stored_one t0 None (world onlyA healthy silent)
                  _ _ _ Hsel Hserved)).
Defined.

Lemma switch_success_witness :
  ∃ c' w',
    SwitchTokenAndRetry t0 (request {[ "token" := AString "A" ]}) 2
      (world poolAB healthy silent) = Returns (true, c') w' ∧
    gin.Get "token" c' = Some (AString "B") ∧
    retryCountOf c' = (retryCountOf (request {[ "token" := AString "A" ]}) + 1)%Z ∧
    ∃ u, gin.Get "tenant_url" c' = Some (AString u) ∧
         config.lookup_field w' ("token:" ++ "B") "tenant_url" = Ok u.
Proof.
  assert (Hrun : ∃ c' w',
    SwitchTokenAndRetry t0 (request {[ "token" := AString "A" ]}) 2
      (world poolAB healthy silent) = Returns (true, c') w' ∧
    gin.Get "token" c' = Some (AString "B")).
  { vm_compute. eexists. eexists. split; reflexivity. }
  destruct Hrun as (c' & w' & Hrun & Htok).
  assert (Hmin : (minInt64 ≤ retryCountOf (request {[ "token" := AString "A" ]}))%Z)
    by by_computation.
  assert (Hmax : (2 ≤ maxInt64)%Z) by by_computation.
  exists c', w'. split; [exact Hrun|]. split; [exact Htok|].
  destruct (switch_success t0 _ 2 _ c' w' Hrun Hmin Hmax)
    as (cur & next & u & s & lock & js & _ & _ & Hnext & Hurl & _ & _ & Hretry
        & _ & _ & _ & _ & _ & _ & _ & _ & _ & Hstored & _).
  split; [exact Hretry|].
  rewrite Htok in Hnext. injection Hnext as <-.
  exists u. split; [exact Hurl | exact Hstored].
Defined.

Lemma switch_failure_keeps_context_witness :
  ∃ c' w',
    SwitchTokenAndRetry t0
      (request {[ "token" := AString "A"; "retry_count" := AInt 2 ]}) 2
      (world poolAB healthy silent) = Returns (false, c') w' ∧
    c' = request {[ "token" := AString "A"; "retry_count" := AInt 2 ]}.
Proof.
  assert (Hrun : ∃ c' w',
    SwitchTokenAndRetry t0
      (request {[ "token" := AString "A"; "retry_count" := AInt 2 ]}) 2
      (world poolAB healthy silent) = Returns (false, c') w').
  { vm_compute. eexists. eexists. reflexivity. }
  destruct Hrun as (c' & w' & Hrun).
  exists c', w'. split; [exact Hrun|].
  exact (switch_failure_keeps_context t0 _ 2 _ c' w' Hrun).
Defined.


Lemma switch_without_replacement_witness :
  isSentinel (GetNextAvailableToken t0 "A"
                (cooled t0 "A" (world onlyA healthy silent))).1 ∧
  ∃ w', SwitchTokenAndRetry t0 (request {[ "token" := AString "A" ]}) 2
          (world onlyA healthy silent)
        = Returns (false, request {[ "token" := AString "A" ]}) w'.
Proof.
  assert (Htok : gin.Get "token" (request {[ "token" := AString "A" ]})
                 = Some (AString "A")) by reflexivity.
  assert (Hretry : (retryCountOf (request {[ "token" := AString "A" ]}) < 2)%Z)
    by by_computation.
  assert (Hsent : isSentinel (GetNextAvailableToken t0 "A"
                                (cooled t0 "A" (world onlyA healthy silent))).1).
  { right. by_computation. }
  split; [exact Hsent|].
  destruct (switch_without_replacement t0 _ 2 (world onlyA healthy silent) "A"
              Htok Hretry Hsent) as (w' & Hrun & _).
  exists w'. exact Hrun.
Defined.

Lemma middleware_passes_ungated_witness :
  gated modelsRequest = false ∧
  ∃ c', middleware.TokenConcurrencyMiddleware appConfig t0 modelsRequest
          (world onlyA healthy silent)
        = Returns c' (world onlyA healthy silent) ∧
        gin.Passed c' = true.
Proof.
  assert (Hg : gated modelsRequest = false) by by_computation.
  split; [exact Hg|].
  destruct (middleware_passes_ungated appConfig t0 modelsRequest
              (world onlyA healthy silent) (or_introl Hg)) as (c' & Hrun & Hpass & _).
  exists c'. split; [exact Hrun | exact Hpass].
Defined.

Lemma middleware_passes_with_lock_witness :
  ∃ c' w',
    middleware.TokenConcurrencyMiddleware appConfig t0 (request ∅)
      (world onlyA healthy silent) = Returns c' w' ∧
    gin.Passed c' = true ∧
    ∃ t lock, gin.Get "token" c' = Some (AString t) ∧
              tokenLocks w' !! t = Some lock ∧
              mutexes w' !! lock = Some true.
Proof.
  assert (Hrun : ∃ c' w',
    middleware.TokenConcurrencyMiddleware appConfig t0 (request ∅)
      (world onlyA healthy silent) = Returns c' w' ∧
    gin.Passed c' = true).
  { vm_compute. eexists. eexists. split; reflexivity. }
  destruct Hrun as (c' & w' & Hrun & Hpass).
  assert (Hg : gated (request ∅) = true) by by_computation.
  assert (Hmode : String.eqb (CodingMode appConfig) "true" = false) by by_computation.
  exists c', w'. split; [exact Hrun|]. split; [exact Hpass|].
  destruct (middleware_passes_with_lock appConfig t0 (request ∅) _ c' w'
              Hg Hmode eq_refl Hrun Hpass)
    as (t & u & s & lock & js & _ & _ & Htok & _ & _ & _ & Hlock & Hheld & _).
  exists t, lock. auto.
Defined.

Lemma middleware_rejection_holds_no_lock_witness :
  ∃ c' w',
    middleware.TokenConcurrencyMiddleware appConfig t0 (request ∅)
      (world ∅ healthy silent) = Returns c' w' ∧
    gin.Passed c' = false ∧
    gin.Aborted c' = true.
Proof.
  assert (Hrun : ∃ c' w',
    middleware.TokenConcurrencyMiddleware appConfig t0 (request ∅)
      (world ∅ healthy silent) = Returns c' w' ∧
    gin.Passed c' = false).
  { vm_compute. eexists. eexists. split; reflexivity. }
  destruct Hrun as (c' & w' & Hrun & Hpass).
  exists c', w'. split; [exact Hrun|]. split; [exact Hpass|].
  exact (proj1 (middleware_rejection_holds_no_lock appConfig t0 (request ∅) _ c' w'
                  eq_refl Hrun Hpass)).
Defined.

Lemma validator_sound_witness :
  (api.CheckTokenTenantURL appConfig (Ok "{}") "A" "session"
     (world onlyA healthy d20Answers)).1
  = Ok "https://d20.api.augmentcode.com/" ∧
  ∃ h, redis (api.CheckTokenTenantURL appConfig (Ok "{}") "A" "session"
                (world onlyA healthy d20Answers)).2 !! ("token:" ++ "A")
         = Some (EHash h) ∧
       h !! "tenant_url" = Some "https://d20.api.augmentcode.com/".
Proof.
  assert (Hres : (api.CheckTokenTenantURL appConfig (Ok "{}") "A" "session"
                    (world onlyA healthy d20Answers)).1
                 = Ok "https://d20.api.augmentcode.com/") by by_computation.
  split; [exact Hres|].
  destruct (validator_sound appConfig (Ok "{}") "A" "session"
              (world onlyA healthy d20Answers) _ Hres) as (_ & _ & Hh & _).
  exact Hh.
Defined.

Lemma validator_failure_writes_nothing_witness :
  (api.CheckTokenTenantURL appConfig (Ok "{}") "A" "session"
     (world onlyA healthy emptyBody)).1
  = Err "未找到有效的租户地址" ∧
  redis (api.CheckTokenTenantURL appConfig (Ok "{}") "A" "session"
           (world onlyA healthy emptyBody)).2
  = redis (world onlyA healthy emptyBody).
Proof.
  assert (Hres : (api.CheckTokenTenantURL appConfig (Ok "{}") "A" "session"
                    (world onlyA healthy emptyBody)).1
                 = Err "未找到有效的租户地址") by by_computation.
  assert (Hne : "未找到有效的租户地址" ≠ "token被标记为不可用") by discriminate.
  split; [exact Hres|].
  exact (validator_failure_writes_nothing appConfig (Ok "{}") "A" "session"
           (world onlyA healthy emptyBody) _ Hres Hne).
Defined.

Lemma rejected_token_is_never_selected_witness :
  (api.CheckTokenTenantURL appConfig (Ok "{}") "A" "session"
     (world onlyA healthy unauthorized)).1
  = Err "token被标记为不可用" ∧
  disabled (api.CheckTokenTenantURL appConfig (Ok "{}") "A" "session"
              (world onlyA healthy unauthorized)).2 ("token:" ++ "A") = true ∧
  (selectToken t0 None
     (api.CheckTokenTenantURL appConfig (Ok "{}") "A" "session"
        (world onlyA healthy unauthorized)).2).1
  ≠ Chosen "A" "https://d1.api.augmentcode.com/" "uuid-0".
Proof.
  assert (Hres : (api.CheckTokenTenantURL appConfig (Ok "{}") "A" "session"
                    (world onlyA healthy unauthorized)).1
                 = Err "token被标记为不可用") by by_computation.
  assert (Hk : redis (world onlyA healthy unauthorized) !! ("token:" ++ "A")
               = Some (credential "https://d1.api.augmentcode.com/"))
    by by_computation.
  assert (Hhash : ∀ v t, redis (world onlyA healthy unauthorized) !! ("token:" ++ "A")
                         ≠ Some (EString v t)).
  { intros v t Hs. rewrite Hk in Hs. discriminate. }
  split; [exact Hres|].
  destruct (rejected_token_is_never_selected appConfig (Ok "{}") "A" "session"
              (world onlyA healthy unauthorized) Hres eq_refl eq_refl Hhash)
    as (_ & Hdis & Hnever).
  split; [exact Hdis | apply Hnever].
Defined.

Lemma page_is_a_window_witness :
  (0 < 2)%Z ∧
  ∃ r, listing.pageWindow 2 2 fiveTokens = Some r ∧
       listing.tokens r ≠ [] ∧
       (Z.of_nat (List.length (listing.tokens r)) ≤ 2)%Z.
Proof.
  assert (Hps : (0 < 2)%Z) by lia.
  assert (Hsum : (2 + Z.of_nat (List.length fiveTokens) ≤ maxInt64)%Z) by by_computation.
  assert (Hne : fiveTokens ≠ []) by discriminate.
  split; [exact Hps|].
  destruct (page_is_a_window 2 2 fiveTokens Hps Hsum Hne)
    as (r & Hrun & _ & _ & _ & _ & _ & _ & Hfull & Hlen).
  exists r. auto.
Defined.

Lemma every_item_is_on_its_page_witness :
  (3 < List.length fiveTokens)%nat ∧
  ∃ r, listing.pageWindow (Z.of_nat 3 / 2 + 1) 2 fiveTokens = Some r ∧
       listing.tokens r !! Z.to_nat (Z.of_nat 3 mod 2) = fiveTokens !! 3%nat.
Proof.
  assert (Hps : (0 < 2)%Z) by lia.
  assert (Hsum : (2 + Z.of_nat (List.length fiveTokens) ≤ maxInt64)%Z) by by_computation.
  assert (Hi : (3 < List.length fiveTokens)%nat) by (cbn; lia).
  split; [exact Hi|].
  destruct (every_item_is_on_its_page 2 fiveTokens 3 Hps Hsum Hi) as (r & Hrun & _ & Hitem).
  exists r. auto.
Defined.

Lemma page_is_contiguous_witness :
  ∃ r, listing.pageWindow 2 2 fiveTokens = Some r ∧
       listing.total r = Z.of_nat (List.length fiveTokens).
Proof.
  assert (Hrun : ∃ r, listing.pageWindow 2 2 fiveTokens = Some r).
  { vm_compute. eexists. reflexivity. }
  destruct Hrun as (r & Hrun).
  exists r. split; [exact Hrun|].
  exact (proj1 (page_is_contiguous 2 2 fiveTokens r Hrun)).
Defined.

Lemma paging_can_panic_witness :
  (2 ≤ List.length fiveTokens)%nat ∧
  listing.listingOf "3" "9223372036854775807" fiveTokens = None.
Proof.
  assert (Hlen : (2 ≤ List.length fiveTokens)%nat) by (cbn; lia).
  assert (Hmax : (Z.of_nat (List.length fiveTokens) ≤ maxInt64)%Z) by by_computation.
  split; [exact Hlen|].
  exact (proj1 (paging_can_panic fiveTokens Hlen Hmax)).
Defined.

Lemma save_new_stores_four_fields_witness :
  redis (world ∅ healthy silent) !! ("token:" ++ "N") = None ∧
  (admin.SaveTokenToRedis reachable "N" "https://d3.api.augmentcode.com/"
     (world ∅ healthy silent)).1 = None ∧
  redis (admin.SaveTokenToRedis reachable "N" "https://d3.api.augmentcode.com/"
           (world ∅ healthy silent)).2 !! ("token:" ++ "N")
  = Some (EHash (freshFields "https://d3.api.augmentcode.com/"
                   (uuid_src (world ∅ healthy silent)
                      (uuid_used (world ∅ healthy silent))))).
Proof.
  assert (Hnone : redis (world ∅ healthy silent) !! ("token:" ++ "N") = None)
    by apply lookup_empty.
  assert (Hres : (admin.SaveTokenToRedis reachable "N" "https://d3.api.augmentcode.com/"
                    (world ∅ healthy silent)).1 = None) by by_computation.
  split; [exact Hnone|]. split; [exact Hres|].
  exact (proj1 (save_new_stores_four_fields reachable "N" _ _ Hnone Hres)).
Defined.

Lemma save_is_not_resumed_witness :
  (admin.SaveTokenToRedis reachable "N" "https://d3.api.augmentcode.com/"
     (world ∅ noRemark silent)).1 = Some "redis: connection failure" ∧
  admin.SaveTokenToRedis reachable "N" "https://d4.api.augmentcode.com/"
    (admin.SaveTokenToRedis reachable "N" "https://d3.api.augmentcode.com/"
       (world ∅ noRemark silent)).2
  = (None,
     (admin.SaveTokenToRedis reachable "N" "https://d3.api.augmentcode.com/"
        (world ∅ noRemark silent)).2).
Proof.
  assert (Hnone : redis (world ∅ noRemark silent) !! ("token:" ++ "N") = None)
    by apply lookup_empty.
  assert (Hres : (admin.SaveTokenToRedis reachable "N" "https://d3.api.augmentcode.com/"
                    (world ∅ noRemark silent)).1 = Some "redis: connection failure")
    by by_computation.
  split; [exact Hres|].
  exact (proj2 (save_is_not_resumed reachable "N" _ _ _ Hnone eq_refl eq_refl Hres)
           "https://d4.api.augmentcode.com/").
Defined.

Lemma saved_token_is_available_witness :
  (admin.SaveTokenToRedis reachable "N" "https://d3.api.augmentcode.com/"
     (world ∅ healthy silent)).1 = None ∧
  inAvailable t0 None
    (admin.SaveTokenToRedis reachable "N" "https://d3.api.augmentcode.com/"
       (world ∅ healthy silent)).2 ("token:" ++ "N") = true.
Proof.
  assert (Hres : (admin.SaveTokenToRedis reachable "N" "https://d3.api.augmentcode.com/"
                    (world ∅ healthy silent)).1 = None) by by_computation.
  assert (Hexcl : (None : option string) ≠ Some "N") by discriminate.
  assert (Hnow : (3 * time.Second ≤ t0)%Z) by by_computation.
  split; [exact Hres|].
  exact (proj1 (proj2 (saved_token_is_available reachable t0 None "N" _
                         (world ∅ healthy silent)
                         (lookup_empty _) Hres (lookup_empty _) (lookup_empty _)
                         (lookup_empty _) (lookup_empty _) eq_refl eq_refl Hexcl Hnow))).
Defined.

Lemma add_counts_add_up_witness :
  ∃ successCount failedTokens,
    (admin.AddTokenHandler reachable
       (Ok [ {| admin.Token := "N"; admin.TenantUrl := "https://d3.api.augmentcode.com/" |};
             {| admin.Token := "M"; admin.TenantUrl := "" |} ])
       (world onlyA healthy silent)).1
    = admin.Added 2 successCount
        (match failedTokens with
         | [] => None
         | _ => Some (failedTokens, Z.of_nat (List.length failedTokens))
         end) ∧
    (successCount + Z.of_nat (List.length failedTokens) = 2)%Z.
Proof.
  assert (Hne : [ {| admin.Token := "N"; admin.TenantUrl := "https://d3.api.augmentcode.com/" |};
                  {| admin.Token := "M"; admin.TenantUrl := "" |} ] ≠ []) by discriminate.
  assert (Hmax : (Z.of_nat (List.length
            [ {| admin.Token := "N"; admin.TenantUrl := "https://d3.api.augmentcode.com/" |};
              {| admin.Token := "M"; admin.TenantUrl := "" |} ]) ≤ maxInt64)%Z)
    by by_computation.
  destruct (add_counts_add_up reachable _ (world onlyA healthy silent) Hne Hmax)
    as (successCount & failedTokens & Hreply & _ & Hsum & _).
  exists successCount, failedTokens. split; [exact Hreply | exact Hsum].
Defined.

Lemma readding_changes_nothing_witness :
  is_Some (redis (world onlyA healthy silent) !! ("token:" ++ "A")) ∧
  admin.AddTokenHandler reachable
    (Ok [ {| admin.Token := "A"; admin.TenantUrl := "https://d9.api.augmentcode.com/" |} ])
    (world onlyA healthy silent)
  = (admin.Added 1 1 None, world onlyA healthy silent).
Proof.
  assert (Hk : is_Some (redis (world onlyA healthy silent) !! ("token:" ++ "A"))).
  { vm_compute. eexists. reflexivity. }
  assert (Hne : [ {| admin.Token := "A"; admin.TenantUrl := "https://d9.api.augmentcode.com/" |} ]
                ≠ []) by discriminate.
  assert (Hmax : (Z.of_nat (List.length
            [ {| admin.Token := "A"; admin.TenantUrl := "https://d9.api.augmentcode.com/" |} ])
                  ≤ maxInt64)%Z) by by_computation.
  split; [exact Hk|].
  apply (readding_changes_nothing reachable _ (world onlyA healthy silent) Hne Hmax).
  intros item Hin. apply list_elem_of_singleton in Hin. subst item.
  split; [discriminate|]. split; [discriminate|]. split; [exact Hk | reflexivity].
Defined.

Lemma migration_completes_witness :
  "token:A" ∈ pool (world onlyA healthy silent) ∧
  disabled (world onlyA healthy silent) "token:A" = false ∧
  ∃ h' s,
    redis (admin.MigrateTokensSessionID reachable (world onlyA healthy silent)).2
      !! "token:A" = Some (EHash h') ∧
    h' !! "session_id" = Some s.
Proof.
  assert (Hin : "token:A" ∈ pool (world onlyA healthy silent)) by in_list.
  assert (Hk : redis (world onlyA healthy silent) !! "token:A"
               = Some (EHash {[ "tenant_url" := "https://d1.api.augmentcode.com/";
                                "status" := "active" ]})) by by_computation.
  assert (Hdis : disabled (world onlyA healthy silent) "token:A" = false)
    by by_computation.
  assert (Hserved : ∀ k, k ∈ pool (world onlyA healthy silent) →
            reachable (admin.HEXISTS k "session_id") = false ∧
            ∀ v, faulty (world onlyA healthy silent) (HSET k "session_id" v) = false).
  { intros k _. split; [reflexivity | intros v; reflexivity]. }
  split; [exact Hin|]. split; [exact Hdis|].
  exact (migration_completes reachable (world onlyA healthy silent) "token:A" _
           eq_refl Hserved Hin Hk Hdis).
Defined.
